(** * GbDetector: a shallow embedding of [dist/detector.js]

    The detector is a pure, synchronous JavaScript function over strings
    and numbers.  The embedding follows the source function by function:

    - JavaScript strings are sequences of UTF-16 code units ([list N]);
    - JavaScript numbers are read through an arithmetic interface with
      two implementations: IEEE binary64 (the numbers of the engine) and
      exact rationals (the numbers the decimal constants denote);
    - regular expressions are parsed from the pattern text of the source
      and run by a backtracking matcher that follows the ECMAScript
      matcher semantics (non-unicode mode);
    - the string builtins whose behaviour outside ASCII depends on the
      Unicode tables of the host ([normalize], [toLowerCase], the
      case-insensitive canonicalisation of the regular expression engine)
      are exact on ASCII and defer to a [Host] record elsewhere. *)

From Stdlib Require Import String Ascii NArith ZArith QArith Qround Qminmax Lqa Bool Lia
  Sorted List.
From Stdlib Require Uint63 Floats.
Import ListNotations.

Set Implicit Arguments.
Close Scope Q_scope.
Open Scope nat_scope.

(* ------------------------------------------------------------------ *)
(** ** Strings *)

Module JsString.

(** A JavaScript string: UTF-16 code units. *)
Definition jsstring := list N.

Fixpoint bytes_of (s : string) : list N :=
  match s with
  | EmptyString => []
  | String a r => N_of_ascii a :: bytes_of r
  end.

(** UTF-8 decoding of the bytes of a source literal into code points. *)
Fixpoint utf8_decode (bs : list N) : list N :=
  match bs with
  | [] => []
  | b1 :: r1 =>
    if (b1 <? 128)%N then b1 :: utf8_decode r1
    else match r1 with
    | [] => [b1]
    | b2 :: r2 =>
      if (b1 <? 224)%N then
        ((b1 - 192) * 64 + (b2 - 128))%N :: utf8_decode r2
      else match r2 with
      | [] => [b1; b2]
      | b3 :: r3 =>
        if (b1 <? 240)%N then
          ((b1 - 224) * 4096 + (b2 - 128) * 64 + (b3 - 128))%N :: utf8_decode r3
        else match r3 with
        | [] => [b1; b2; b3]
        | b4 :: r4 =>
          ((b1 - 240) * 262144 + (b2 - 128) * 4096 + (b3 - 128) * 64 + (b4 - 128))%N
            :: utf8_decode r4
        end
      end
    end
  end.

(** A code point as one or two UTF-16 code units. *)
Definition utf16_units (cp : N) : list N :=
  if (cp <? 65536)%N then [cp]
  else let v := (cp - 65536)%N in [(55296 + v / 1024)%N; (56320 + v mod 1024)%N].

(** The JavaScript string written by a source literal. *)
Definition js (s : string) : jsstring :=
  flat_map utf16_units (utf8_decode (bytes_of s)).

Fixpoint str_eqb (a b : jsstring) : bool :=
  match a, b with
  | [], [] => true
  | x :: a', y :: b' => (x =? y)%N && str_eqb a' b'
  | _, _ => false
  end.

Definition mem_str (s : jsstring) (l : list jsstring) : bool := existsb (str_eqb s) l.

(** [[...new Set(l)]]: first occurrences, in order. *)
Fixpoint dedupe_acc (seen : list jsstring) (l : list jsstring) : list jsstring :=
  match l with
  | [] => []
  | x :: r => if mem_str x seen then dedupe_acc seen r else x :: dedupe_acc (x :: seen) r
  end.
Definition dedupe (l : list jsstring) : list jsstring := dedupe_acc [] l.

(** ECMAScript WhiteSpace and LineTerminator code units: the set of [\s]
    and of [String.prototype.trim]. *)
Definition is_space (c : N) : bool :=
  ((9 <=? c) && (c <=? 13) || (c =? 32) || (c =? 160) || (c =? 5760)
   || (8192 <=? c) && (c <=? 8202) || (c =? 8232) || (c =? 8233)
   || (c =? 8239) || (c =? 8287) || (c =? 12288) || (c =? 65279))%N.

Definition is_line_terminator (c : N) : bool :=
  ((c =? 10) || (c =? 13) || (c =? 8232) || (c =? 8233))%N.

Definition is_digit (c : N) : bool := ((48 <=? c) && (c <=? 57))%N.
Definition is_upper (c : N) : bool := ((65 <=? c) && (c <=? 90))%N.
Definition is_lower (c : N) : bool := ((97 <=? c) && (c <=? 122))%N.
Definition is_word (c : N) : bool :=
  is_digit c || is_upper c || is_lower c || (c =? 95)%N.
Definition is_ascii (c : N) : bool := (c <? 128)%N.

Definition ascii_lower (c : N) : N := if is_upper c then (c + 32)%N else c.
Definition ascii_upper (c : N) : N := if is_lower c then (c - 32)%N else c.
Definition ascii_swapcase (c : N) : N :=
  if is_upper c then (c + 32)%N else if is_lower c then (c - 32)%N else c.

Fixpoint drop_spaces (s : jsstring) : jsstring :=
  match s with
  | c :: r => if is_space c then drop_spaces r else s
  | [] => []
  end.

(** [String.prototype.trim]. *)
Definition trim (s : jsstring) : jsstring :=
  rev (drop_spaces (rev (drop_spaces s))).

Fixpoint starts_with (p s : jsstring) : bool :=
  match p, s with
  | [], _ => true
  | x :: p', y :: s' => (x =? y)%N && starts_with p' s'
  | _ :: _, [] => false
  end.

(** [String.prototype.includes]. *)
Fixpoint includes (s p : jsstring) : bool :=
  starts_with p s || match s with [] => false | _ :: r => includes r p end.

(** Position of the first occurrence of [p] in [s]
    ([String.prototype.indexOf]). *)
Fixpoint index_of (p s : jsstring) : option nat :=
  if starts_with p s then Some 0
  else match s with
       | [] => None
       | _ :: r => option_map S (index_of p r)
       end.

(** [Array.prototype.join] on strings. *)
Fixpoint join (sep : jsstring) (l : list jsstring) : jsstring :=
  match l with
  | [] => []
  | [x] => x
  | x :: r => x ++ sep ++ join sep r
  end.

(** [String.prototype.slice (a, b)] for in-range non-negative indices. *)
Definition slice (s : jsstring) (a b : nat) : jsstring := firstn (b - a) (skipn a s).

End JsString.
Export JsString.

(* ------------------------------------------------------------------ *)
(** ** Host builtins that depend on the Unicode tables *)

Inductive NormForm := NFKD | NFKC.

(** What the engine provides outside ASCII.  [host_canonicalize] is the
    Canonicalize operation of the regular expression engine on a code
    unit >= 128 (whose result is again >= 128); [host_canon_range lo hi c]
    says whether some member of the class range [lo-hi] canonicalizes
    like [c]. *)
Record Host := {
  host_normalize : NormForm -> jsstring -> jsstring;
  host_toLowerCase : jsstring -> jsstring;
  host_canonicalize : N -> N;
  host_canon_range : N -> N -> N -> bool
}.

(** A host that leaves everything outside ASCII alone (used for runs on
    ASCII inputs, where the host is never consulted). *)
Definition ascii_host : Host :=
  {| host_normalize := fun _ s => s;
     host_toLowerCase := fun s => s;
     host_canonicalize := fun c => c;
     host_canon_range := fun lo hi c => ((lo <=? c) && (c <=? hi))%N |}.

(** [String.prototype.toLowerCase]. *)
Definition toLowerCase (h : Host) (s : jsstring) : jsstring :=
  if forallb is_ascii s then map ascii_lower s else host_toLowerCase h s.

(** [String.prototype.normalize (form)]. *)
Definition normalize (h : Host) (f : NormForm) (s : jsstring) : jsstring :=
  if forallb is_ascii s then s else host_normalize h f s.

(* ------------------------------------------------------------------ *)
(** ** Regular expressions *)

Module Regex.

Inductive citem :=
| CI_char (c : N)
| CI_range (lo hi : N)
| CI_digit (neg : bool)
| CI_word (neg : bool)
| CI_space (neg : bool).

Inductive regex :=
| REmpty
| RFail
| RChar (c : N)
| RAny
| RClass (neg : bool) (items : list citem)
| RSeq (a b : regex)
| RAlt (a b : regex)
| RRep (r : regex) (min : nat) (max : option nat) (greedy : bool)
| RGroup (idx : nat) (r : regex)
| RBackref (idx : nat)
| RBol
| REol
| RWordB (neg : bool)
| RLook (neg : bool) (r : regex).

Definition ch (a : ascii) : N := N_of_ascii a.

(** *** Parser (pattern text to syntax tree, non-unicode mode) *)

Definition hex_val (c : N) : option N :=
  if is_digit c then Some (c - 48)%N
  else if ((97 <=? c) && (c <=? 102))%N then Some (c - 87)%N
  else if ((65 <=? c) && (c <=? 70))%N then Some (c - 55)%N
  else None.

Fixpoint hex_digits (n : nat) (acc : N) (s : jsstring) : option (N * jsstring) :=
  match n with
  | O => Some (acc, s)
  | S n' => match s with
            | c :: r => match hex_val c with
                        | Some v => hex_digits n' (acc * 16 + v)%N r
                        | None => None
                        end
            | [] => None
            end
  end.

Fixpoint dec_digits (acc : nat) (seen : bool) (s : jsstring) : option (nat * jsstring) :=
  match s with
  | c :: r => if is_digit c then dec_digits (acc * 10 + N.to_nat (c - 48)) true r
              else if seen then Some (acc, s) else None
  | [] => if seen then Some (acc, s) else None
  end.

(** The part of an escape sequence common to atoms and class atoms:
    the character denoted after the backslash, if it denotes one. *)
Definition char_escape (c : N) (r : jsstring) : option (N * jsstring) :=
  if (c =? ch "t")%N then Some (9%N, r)
  else if (c =? ch "n")%N then Some (10%N, r)
  else if (c =? ch "v")%N then Some (11%N, r)
  else if (c =? ch "f")%N then Some (12%N, r)
  else if (c =? ch "r")%N then Some (13%N, r)
  else if (c =? ch "0")%N then Some (0%N, r)
  else if (c =? ch "u")%N then
    match hex_digits 4 0%N r with Some p => Some p | None => Some (c, r) end
  else if (c =? ch "x")%N then
    match hex_digits 2 0%N r with Some p => Some p | None => Some (c, r) end
  else Some (c, r).

Definition class_escape (c : N) : option citem :=
  if (c =? ch "d")%N then Some (CI_digit false)
  else if (c =? ch "D")%N then Some (CI_digit true)
  else if (c =? ch "w")%N then Some (CI_word false)
  else if (c =? ch "W")%N then Some (CI_word true)
  else if (c =? ch "s")%N then Some (CI_space false)
  else if (c =? ch "S")%N then Some (CI_space true)
  else None.

(** One class atom: a character or a class escape. *)
Definition parse_class_atom (s : jsstring) : option (citem * jsstring) :=
  match s with
  | [] => None
  | c :: r =>
    if (c =? ch "\")%N then
      match r with
      | [] => None
      | e :: r' =>
        match class_escape e with
        | Some i => Some (i, r')
        | None =>
          if (e =? ch "b")%N then Some (CI_char 8%N, r')
          else match char_escape e r' with
               | Some (v, r'') => Some (CI_char v, r'')
               | None => None
               end
        end
      end
    else Some (CI_char c, r)
  end.

Fixpoint parse_class_items (fuel : nat) (s : jsstring) : option (list citem * jsstring) :=
  match fuel with
  | O => None
  | S fuel' =>
    match s with
    | [] => None
    | c :: r =>
      if (c =? ch "]")%N then Some ([], r)
      else
        match parse_class_atom s with
        | None => None
        | Some (a, r1) =>
          match r1 with
          | d :: (e :: _) as r2 =>
            if ((d =? ch "-") && negb (e =? ch "]"))%N then
              match parse_class_atom r2 with
              | None => None
              | Some (b, r3) =>
                match a, b with
                | CI_char lo, CI_char hi =>
                  if (lo <=? hi)%N then
                    match parse_class_items fuel' r3 with
                    | Some (l, rest) => Some (CI_range lo hi :: l, rest)
                    | None => None
                    end
                  else None
                | _, _ =>
                  match parse_class_items fuel' r3 with
                  | Some (l, rest) => Some (a :: CI_char (ch "-") :: b :: l, rest)
                  | None => None
                  end
                end
              end
            else
              match parse_class_items fuel' r1 with
              | Some (l, rest) => Some (a :: l, rest)
              | None => None
              end
          | _ =>
            match parse_class_items fuel' r1 with
            | Some (l, rest) => Some (a :: l, rest)
            | None => None
            end
          end
        end
    end
  end.

Definition parse_class (s : jsstring) : option (regex * jsstring) :=
  match s with
  | c :: r =>
    if (c =? ch "^")%N then
      match parse_class_items (S (length r)) r with
      | Some (l, rest) => Some (RClass true l, rest)
      | None => None
      end
    else
      match parse_class_items (S (length s)) s with
      | Some (l, rest) => Some (RClass false l, rest)
      | None => None
      end
  | [] => None
  end.

(** A braced quantifier [{n}], [{n,}] or [{n,m}] after its opening brace. *)
Definition parse_braces (s : jsstring) : option (nat * option nat * jsstring) :=
  match dec_digits 0 false s with
  | None => None
  | Some (n, r) =>
    match r with
    | c :: r1 =>
      if (c =? ch "}")%N then Some (n, Some n, r1)
      else if (c =? ch ",")%N then
        match r1 with
        | c2 :: r2 =>
          if (c2 =? ch "}")%N then Some (n, None, r2)
          else match dec_digits 0 false r1 with
               | Some (m, c3 :: r3) =>
                 if (c3 =? ch "}")%N then Some (n, Some m, r3) else None
               | _ => None
               end
        | [] => None
        end
      else None
    | [] => None
    end
  end.

Definition parse_lazy (s : jsstring) : bool * jsstring :=
  match s with
  | c :: r => if (c =? ch "?")%N then (false, r) else (true, s)
  | [] => (true, s)
  end.

(** The quantifier, if any, that follows an atom. *)
Definition parse_quantifier (a : regex) (s : jsstring) : regex * jsstring :=
  match s with
  | c :: r =>
    if (c =? ch "*")%N then let '(g, r') := parse_lazy r in (RRep a 0 None g, r')
    else if (c =? ch "+")%N then let '(g, r') := parse_lazy r in (RRep a 1 None g, r')
    else if (c =? ch "?")%N then let '(g, r') := parse_lazy r in (RRep a 0 (Some 1) g, r')
    else if (c =? ch "{")%N then
      match parse_braces r with
      | Some (n, m, r1) => let '(g, r') := parse_lazy r1 in (RRep a n m g, r')
      | None => (a, s)
      end
    else (a, s)
  | [] => (a, s)
  end.

(** An escape at atom position. *)
Definition parse_atom_escape (r : jsstring) : option (regex * jsstring) :=
  match r with
  | [] => None
  | e :: r' =>
    match class_escape e with
    | Some i => Some (RClass false [i], r')
    | None =>
      if ((49 <=? e) && (e <=? 57))%N then
        match dec_digits 0 false r with
        | Some (n, r'') => Some (RBackref n, r'')
        | None => None
        end
      else match char_escape e r' with
           | Some (v, r'') => Some (RChar v, r'')
           | None => None
           end
    end
  end.

Definition expect_close (p : option (regex * jsstring * nat))
  (k : regex -> regex) : option (regex * jsstring * nat) :=
  match p with
  | Some (d, c :: r, g) => if (c =? ch ")")%N then Some (k d, r, g) else None
  | _ => None
  end.

(** Disjunction, Alternative and Term of the ECMAScript pattern grammar.
    [g] is the number the next capturing group gets. *)
Fixpoint parse_disj (fuel : nat) (s : jsstring) (g : nat) {struct fuel}
  : option (regex * jsstring * nat) :=
  match fuel with
  | O => None
  | S fuel' =>
    match parse_alt fuel' s g with
    | None => None
    | Some (a, r, g1) =>
      match r with
      | c :: r' =>
        if (c =? ch "|")%N then
          match parse_disj fuel' r' g1 with
          | Some (b, r2, g2) => Some (RAlt a b, r2, g2)
          | None => None
          end
        else Some (a, r, g1)
      | [] => Some (a, r, g1)
      end
    end
  end

with parse_alt (fuel : nat) (s : jsstring) (g : nat) {struct fuel}
  : option (regex * jsstring * nat) :=
  match fuel with
  | O => None
  | S fuel' =>
    match s with
    | [] => Some (REmpty, s, g)
    | c :: _ =>
      if ((c =? ch "|") || (c =? ch ")"))%N then Some (REmpty, s, g)
      else
        match parse_term fuel' s g with
        | None => None
        | Some (t, r, g1) =>
          match parse_alt fuel' r g1 with
          | Some (REmpty, r2, g2) => Some (t, r2, g2)
          | Some (a, r2, g2) => Some (RSeq t a, r2, g2)
          | None => None
          end
        end
    end
  end

with parse_term (fuel : nat) (s : jsstring) (g : nat) {struct fuel}
  : option (regex * jsstring * nat) :=
  match fuel with
  | O => None
  | S fuel' =>
    match s with
    | [] => None
    | c :: r =>
      if (c =? ch "^")%N then Some (RBol, r, g)
      else if (c =? ch "$")%N then Some (REol, r, g)
      else if (c =? ch "(")%N then
        match r with
        | q :: k :: r' =>
          if ((q =? ch "?") && (k =? ch ":"))%N then
            match expect_close (parse_disj fuel' r' g) (fun d => d) with
            | Some (d, r2, g2) => let '(t, r3) := parse_quantifier d r2 in Some (t, r3, g2)
            | None => None
            end
          else if ((q =? ch "?") && (k =? ch "="))%N then
            expect_close (parse_disj fuel' r' g) (RLook false)
          else if ((q =? ch "?") && (k =? ch "!"))%N then
            expect_close (parse_disj fuel' r' g) (RLook true)
          else if (q =? ch "?")%N then None
          else
            match expect_close (parse_disj fuel' r (S g)) (RGroup g) with
            | Some (d, r2, g2) => let '(t, r3) := parse_quantifier d r2 in Some (t, r3, g2)
            | None => None
            end
        | _ =>
          match expect_close (parse_disj fuel' r (S g)) (RGroup g) with
          | Some (d, r2, g2) => let '(t, r3) := parse_quantifier d r2 in Some (t, r3, g2)
          | None => None
          end
        end
      else if ((c =? ch "*") || (c =? ch "+") || (c =? ch "?"))%N then None
      else if (c =? ch "{")%N then
        match parse_braces r with
        | Some _ => None
        | None => Some (RChar c, r, g)
        end
      else if (c =? ch "\")%N then
        match r with
        | e :: r' =>
          if (e =? ch "b")%N then Some (RWordB false, r', g)
          else if (e =? ch "B")%N then Some (RWordB true, r', g)
          else match parse_atom_escape r with
               | Some (a, r2) => let '(t, r3) := parse_quantifier a r2 in Some (t, r3, g)
               | None => None
               end
        | [] => None
        end
      else if (c =? ch "[")%N then
        match parse_class r with
        | Some (a, r2) => let '(t, r3) := parse_quantifier a r2 in Some (t, r3, g)
        | None => None
        end
      else if (c =? ch ".")%N then
        let '(t, r3) := parse_quantifier RAny r in Some (t, r3, g)
      else
        let '(t, r3) := parse_quantifier (RChar c) r in Some (t, r3, g)
    end
  end.

(** A compiled regular expression: syntax tree, number of capturing
    groups, and the [g] and [i] flags. *)
Record RegExp := {
  re_ast : regex;
  re_groups : nat;
  re_global : bool;
  re_icase : bool
}.

Definition parse_pattern (p : jsstring) : option (regex * nat) :=
  match parse_disj (3 * length p + 3) p 1 with
  | Some (r, [], g) => Some (r, g - 1)
  | _ => None
  end.

Definition has_flag (f : ascii) (flags : jsstring) : bool :=
  existsb (N.eqb (ch f)) flags.

(** [new RegExp(pattern, flags)].  A pattern that does not parse (a
    SyntaxError in JavaScript) is the expression that never matches; the
    literal patterns of the detector all parse, see [regex_literals_parse]. *)
Definition RegExp_new (pattern flags : jsstring) : RegExp :=
  match parse_pattern pattern with
  | Some (r, n) =>
    {| re_ast := r; re_groups := n;
       re_global := has_flag "g" flags; re_icase := has_flag "i" flags |}
  | None =>
    {| re_ast := RFail; re_groups := 0;
       re_global := has_flag "g" flags; re_icase := has_flag "i" flags |}
  end.

(** A regular expression literal [/pattern/flags] of the source. *)
Definition re (pattern flags : string) : RegExp := RegExp_new (js pattern) (js flags).


(** *** Matcher

    The state of a match: the code unit before the current position (for
    [\b]), the input from the current position on, the position, and the
    captures so far. *)
Record mstate := MS {
  ms_prev : option N;
  ms_rest : jsstring;
  ms_pos : nat;
  ms_caps : list (option jsstring)
}.

Definition advance (x : mstate) : option (N * mstate) :=
  match ms_rest x with
  | [] => None
  | c :: r => Some (c, MS (Some c) r (S (ms_pos x)) (ms_caps x))
  end.

Fixpoint set_nth {A} (n : nat) (v : A) (l : list A) : list A :=
  match l, n with
  | [], _ => []
  | _ :: r, O => v :: r
  | x :: r, S n' => x :: set_nth n' v r
  end.

(** Capturing groups are numbered from 1. *)
Definition set_cap (i : nat) (v : option jsstring) (x : mstate) : mstate :=
  MS (ms_prev x) (ms_rest x) (ms_pos x) (set_nth (i - 1) v (ms_caps x)).

Definition get_cap (i : nat) (x : mstate) : option jsstring :=
  nth (i - 1) (ms_caps x) None.

Fixpoint groups_in (r : regex) : list nat :=
  match r with
  | RSeq a b | RAlt a b => groups_in a ++ groups_in b
  | RRep a _ _ _ | RLook _ a => groups_in a
  | RGroup i a => i :: groups_in a
  | _ => []
  end.

Definition reset_caps (gs : list nat) (x : mstate) : mstate :=
  fold_left (fun y i => set_cap i None y) gs x.

Definition at_word_boundary (x : mstate) : bool :=
  let a := match ms_prev x with Some c => is_word c | None => false end in
  let b := match ms_rest x with c :: _ => is_word c | [] => false end in
  xorb a b.

Section Matcher.

Variable h : Host.
Variable icase : bool.

(** Canonicalize(a) = Canonicalize(b): upper-casing, which never relates
    an ASCII code unit to one outside ASCII. *)
Definition canon_eqb (a b : N) : bool :=
  if is_ascii a && is_ascii b then (ascii_upper a =? ascii_upper b)%N
  else if is_ascii a || is_ascii b then false
  else (host_canonicalize h a =? host_canonicalize h b)%N.

Definition char_eqb (a b : N) : bool :=
  if icase then canon_eqb a b else (a =? b)%N.

Definition item_has (c : N) (i : citem) : bool :=
  match i with
  | CI_char a => (a =? c)%N
  | CI_range lo hi => ((lo <=? c) && (c <=? hi))%N
  | CI_digit neg => xorb neg (is_digit c)
  | CI_word neg => xorb neg (is_word c)
  | CI_space neg => xorb neg (is_space c)
  end.

(** Under [i], for a code unit outside ASCII: a member of the class that
    canonicalizes like it. *)
Definition item_has_canon (c : N) (i : citem) : bool :=
  match i with
  | CI_char a => negb (is_ascii a) && (host_canonicalize h a =? host_canonicalize h c)%N
  | CI_range lo hi => host_canon_range h lo hi c
  | _ => false
  end.

Definition class_has (items : list citem) (c : N) : bool :=
  existsb (item_has c) items
  || (icase &&
      (if is_ascii c then existsb (item_has (ascii_swapcase c)) items
       else existsb (item_has_canon c) items)).

(** The captured string of a backreference, matched at the current
    position. *)
Fixpoint match_literal (s : jsstring) (x : mstate) : option mstate :=
  match s with
  | [] => Some x
  | a :: s' =>
    match advance x with
    | Some (c, y) => if char_eqb a c then match_literal s' y else None
    | None => None
    end
  end.

(** The matcher of a pattern, in continuation-passing style.
    RepeatMatcher: an iteration that consumes nothing once the minimum is
    reached is rejected, and the captures of the repeated part are reset
    at each iteration. *)
Fixpoint rmatch (r : regex) (x : mstate) (k : mstate -> option mstate) {struct r}
  : option mstate :=
  match r with
  | REmpty => k x
  | RFail => None
  | RChar a =>
    match advance x with
    | Some (c, y) => if char_eqb a c then k y else None
    | None => None
    end
  | RAny =>
    match advance x with
    | Some (c, y) => if is_line_terminator c then None else k y
    | None => None
    end
  | RClass neg items =>
    match advance x with
    | Some (c, y) => if xorb neg (class_has items c) then k y else None
    | None => None
    end
  | RSeq a b => rmatch a x (fun y => rmatch b y k)
  | RAlt a b =>
    match rmatch a x k with
    | Some z => Some z
    | None => rmatch b x k
    end
  | RRep a mn mx greedy =>
    let gs := groups_in a in
    (fix rep (fuel mn : nat) (mx : option nat) (x : mstate) {struct fuel} : option mstate :=
       match fuel with
       | O => None
       | S fuel' =>
         match mx with
         | Some O => k x
         | _ =>
           let d := fun y =>
             if (mn =? 0) && (ms_pos y =? ms_pos x) then None
             else rep fuel' (pred mn) (option_map pred mx) y in
           let xr := reset_caps gs x in
           if negb (mn =? 0) then rmatch a xr d
           else if greedy then
             match rmatch a xr d with
             | Some z => Some z
             | None => k x
             end
           else
             match k x with
             | Some z => Some z
             | None => rmatch a xr d
             end
         end
       end) (mn + List.length (ms_rest x) + 2) mn mx x
  | RGroup i a =>
    rmatch a x (fun y =>
      k (set_cap i (Some (firstn (ms_pos y - ms_pos x) (ms_rest x))) y))
  | RBackref i =>
    match get_cap i x with
    | None => k x
    | Some s =>
      match match_literal s x with
      | Some y => k y
      | None => None
      end
    end
  | RBol => if ms_pos x =? 0 then k x else None
  | REol => match ms_rest x with [] => k x | _ => None end
  | RWordB neg => if xorb neg (at_word_boundary x) then k x else None
  | RLook neg a =>
    match rmatch a x Some with
    | Some y => if neg then None else k (MS (ms_prev x) (ms_rest x) (ms_pos x) (ms_caps y))
    | None => if neg then k x else None
    end
  end.

End Matcher.

(** One match: where it starts and ends, the matched text, the captures,
    and the input after it. *)
Record rmatch_result := {
  m_start : nat;
  m_end : nat;
  m_text : jsstring;
  m_caps : list (option jsstring);
  m_after : mstate
}.

(** The first match at or after a position (the loop of RegExpBuiltinExec
    over start positions). *)
Fixpoint search (h : Host) (rx : RegExp) (prev : option N) (rest : jsstring) (pos : nat)
  : option rmatch_result :=
  match rmatch h (re_icase rx) (re_ast rx)
          (MS prev rest pos (repeat None (re_groups rx))) Some with
  | Some y =>
    Some {| m_start := pos; m_end := ms_pos y;
            m_text := firstn (ms_pos y - pos) rest;
            m_caps := ms_caps y; m_after := y |}
  | None =>
    match rest with
    | [] => None
    | c :: rest' => search h rx (Some c) rest' (S pos)
    end
  end.

End Regex.
Export Regex.

(* ------------------------------------------------------------------ *)
(** ** String methods that take a regular expression *)

Module JsRegexMethods.

Section Methods.
Variable h : Host.

(** The successive matches of a global expression: after an empty match
    the search resumes one code unit further. *)
Fixpoint matches_from (rx : RegExp) (fuel : nat) (prev : option N) (rest : jsstring)
  (pos : nat) : list rmatch_result :=
  match fuel with
  | O => []
  | S fuel' =>
    match search h rx prev rest pos with
    | None => []
    | Some m =>
      let y := m_after m in
      if m_end m =? m_start m then
        match ms_rest y with
        | [] => [m]
        | c :: r => m :: matches_from rx fuel' (Some c) r (S (ms_pos y))
        end
      else m :: matches_from rx fuel' (ms_prev y) (ms_rest y) (ms_pos y)
    end
  end.

Definition all_matches (rx : RegExp) (s : jsstring) : list rmatch_result :=
  matches_from rx (List.length s + 2) None s 0.

(** [rx.test(s)] on an expression whose [lastIndex] is 0. *)
Definition test (rx : RegExp) (s : jsstring) : bool :=
  match search h rx None s 0 with Some _ => true | None => false end.

(** [s.match(rx)] for a global [rx]: the matched substrings, or [null]. *)
Definition match_global (rx : RegExp) (s : jsstring) : option (list jsstring) :=
  match all_matches rx s with
  | [] => None
  | ms => Some (map m_text ms)
  end.

(** [s.match(rx)] for a non-global [rx]: the match followed by its
    captures, or [null]. *)
Definition match_first (rx : RegExp) (s : jsstring) : option (list (option jsstring)) :=
  match search h rx None s 0 with
  | Some m => Some (Some (m_text m) :: m_caps m)
  | None => None
  end.

(** [s.match(rx)], by the [g] flag of [rx]; an unset capture of a
    non-global match is kept as the empty string. *)
Definition str_match (rx : RegExp) (s : jsstring) : option (list jsstring) :=
  if re_global rx then match_global rx s
  else option_map (map (fun o => match o with Some x => x | None => [] end))
                  (match_first rx s).

(** [(s.match(rx) || []).length] *)
Definition match_count (rx : RegExp) (s : jsstring) : nat :=
  match str_match rx s with Some l => List.length l | None => 0 end.

(** GetSubstitution: the expansion of a replacement template. *)
Fixpoint expand (tpl : jsstring) (s : jsstring) (m : rmatch_result) : jsstring :=
  match tpl with
  | [] => []
  | c :: r =>
    if (c =? ch "$")%N then
      match r with
      | [] => [c]
      | d :: r' =>
        if (d =? ch "$")%N then d :: expand r' s m
        else if (d =? ch "&")%N then m_text m ++ expand r' s m
        else if (d =? 96)%N then firstn (m_start m) s ++ expand r' s m
        else if (d =? 39)%N then skipn (m_end m) s ++ expand r' s m
        else if is_digit d then
          let n1 := N.to_nat (d - 48) in
          let ncap := List.length (m_caps m) in
          let cap i := match nth (i - 1) (m_caps m) None with Some x => x | None => [] end in
          match r' with
          | e :: r'' =>
            let n2 := n1 * 10 + N.to_nat (e - 48) in
            if is_digit e && (1 <=? n2) && (n2 <=? ncap) then cap n2 ++ expand r'' s m
            else if (1 <=? n1) && (n1 <=? ncap) then cap n1 ++ expand r' s m
            else c :: expand r s m
          | [] =>
            if (1 <=? n1) && (n1 <=? ncap) then cap n1 else [c; d]
          end
        else c :: expand r s m
      end
    else c :: expand r s m
  end.

Fixpoint rebuild (s : jsstring) (pos : nat) (ms : list rmatch_result)
  (f : rmatch_result -> jsstring) : jsstring :=
  match ms with
  | [] => skipn pos s
  | m :: ms' =>
    if pos <=? m_start m then slice s pos (m_start m) ++ f m ++ rebuild s (m_end m) ms' f
    else rebuild s pos ms' f
  end.

(** [s.replace(rx, f)] with a replacer function. *)
Definition replace_fn (rx : RegExp) (f : rmatch_result -> jsstring) (s : jsstring)
  : jsstring :=
  if re_global rx then rebuild s 0 (all_matches rx s) f
  else match search h rx None s 0 with
       | Some m => rebuild s 0 [m] f
       | None => s
       end.

(** [s.replace(rx, template)]. *)
Definition replace (rx : RegExp) (tpl : jsstring) (s : jsstring) : jsstring :=
  replace_fn rx (fun m => expand tpl s m) s.

(** [s.replace(pattern, template)] with a string pattern: the first
    occurrence only. *)
Definition replace_str (pat tpl : jsstring) (s : jsstring) : jsstring :=
  match index_of pat s with
  | None => s
  | Some i =>
    let m := {| m_start := i; m_end := i + List.length pat; m_text := pat;
                m_caps := []; m_after := MS None [] 0 [] |} in
    firstn i s ++ expand tpl s m ++ skipn (i + List.length pat) s
  end.

(** The match of [rx] that starts exactly at the current position. *)
Definition match_at (rx : RegExp) (prev : option N) (rest : jsstring) (pos : nat)
  : option mstate :=
  rmatch h (re_icase rx) (re_ast rx) (MS prev rest pos (repeat None (re_groups rx))) Some.

(** The loop of [RegExp.prototype[Symbol.split]]: [p] is the end of the
    last separator, [q] the position tried; [piece] holds the code units
    between them, reversed. *)
Fixpoint split_loop (rx : RegExp) (piece : jsstring) (fresh : bool)
  (prev : option N) (rest : jsstring) (pos : nat) (fuel : nat) : list jsstring :=
  match fuel with
  | O => [rev piece ++ rest]
  | S fuel' =>
    match rest with
    | [] => [rev piece]
    | c :: rest' =>
      match match_at rx prev rest pos with
      | Some y =>
        if (ms_pos y =? pos) && fresh then
          split_loop rx (c :: piece) false (Some c) rest' (S pos) fuel'
        else if ms_pos y =? pos then
          rev piece :: map (fun o => match o with Some x => x | None => [] end) (ms_caps y)
            ++ split_loop rx [c] false (Some c) rest' (S pos) fuel'
        else
          rev piece :: map (fun o => match o with Some x => x | None => [] end) (ms_caps y)
            ++ split_loop rx [] true (ms_prev y) (ms_rest y) (ms_pos y) fuel'
      | None => split_loop rx (c :: piece) false (Some c) rest' (S pos) fuel'
      end
    end
  end.

(** [s.split(rx)]. *)
Definition split (rx : RegExp) (s : jsstring) : list jsstring :=
  match s with
  | [] => match match_at rx None [] 0 with Some _ => [] | None => [[]] end
  | _ => split_loop rx [] true None s 0 (List.length s + 1)
  end.

End Methods.
End JsRegexMethods.
Export JsRegexMethods.

(* ------------------------------------------------------------------ *)
(** ** Numbers *)

(** The arithmetic the detector uses.  [of_Q] reads a decimal constant
    or an integer; [toFixed d x] is [parseFloat(x.toFixed(d))]. *)
Record Arith := {
  num : Type;
  of_Q : Q -> num;
  add : num -> num -> num;
  sub : num -> num -> num;
  mul : num -> num -> num;
  div : num -> num -> num;
  leb : num -> num -> bool;
  ltb : num -> num -> bool;
  isNaN : num -> bool;
  toFixed : nat -> num -> num
}.

Section ArithOps.
Variable A : Arith.

Definition geb (a b : num A) : bool := leb A b a.
Definition gtb (a b : num A) : bool := ltb A b a.
(** [a === b] on numbers *)
Definition eqb (a b : num A) : bool := leb A a b && leb A b a.
Definition of_nat (n : nat) : num A := of_Q A (inject_Z (Z.of_nat n)).

(** [Math.max(a, b)] and [Math.min(a, b)] *)
Definition max (a b : num A) : num A :=
  if isNaN A a then a else if isNaN A b then b else if ltb A a b then b else a.
Definition min (a b : num A) : num A :=
  if isNaN A a then a else if isNaN A b then b else if ltb A b a then b else a.

End ArithOps.

(** *** Exact rationals, in lowest terms *)

Definition Q_toFixed (d : nat) (x : Q) : Q :=
  let p := inject_Z (10 ^ Z.of_nat d) in
  if Qle_bool 0 x then Qred (inject_Z (Qfloor (x * p + (1 # 2))) / p)
  else Qred (- (inject_Z (Qfloor (- x * p + (1 # 2))) / p)).

Definition ExactArith : Arith :=
  {| num := Q;
     of_Q := Qred;
     add := fun a b => Qred (a + b);
     sub := fun a b => Qred (a - b);
     mul := fun a b => Qred (a * b);
     div := fun a b => Qred (a / b);
     leb := Qle_bool;
     ltb := fun a b => negb (Qle_bool b a);
     isNaN := fun _ => false;
     toFixed := Q_toFixed |}.

(** *** IEEE 754 binary64 *)

Definition float_of_Z (z : Z) : PrimFloat.float :=
  if (z <? 0)%Z then PrimFloat.opp (PrimFloat.of_uint63 (Uint63.of_Z (- z)))
  else PrimFloat.of_uint63 (Uint63.of_Z z).

(** The double nearest to the rational [n/d] (for [n], [d] below 2^53). *)
Definition float_of_Q (q : Q) : PrimFloat.float :=
  PrimFloat.div (float_of_Z (Qnum q)) (float_of_Z (Zpos (Qden q))).

(** [floor (m * 2^e * 10^d + 1/2)] *)
Definition scaled_round (m e : Z) (d : nat) : Z :=
  let p := (10 ^ Z.of_nat d)%Z in
  if (0 <=? e)%Z then (m * 2 ^ e * p)%Z
  else ((2 * m * p + 2 ^ (- e)) / 2 ^ (1 - e))%Z.

Definition float_toFixed (d : nat) (x : PrimFloat.float) : PrimFloat.float :=
  match FloatOps.Prim2SF x with
  | SpecFloat.S754_finite s m e =>
    let r := PrimFloat.div (float_of_Z (scaled_round (Zpos m) e d))
                           (float_of_Z (10 ^ Z.of_nat d)) in
    if s then PrimFloat.opp r else r
  | SpecFloat.S754_zero _ => float_of_Z 0
  | _ => x
  end.

Definition FloatArith : Arith :=
  {| num := PrimFloat.float;
     of_Q := float_of_Q;
     add := PrimFloat.add;
     sub := PrimFloat.sub;
     mul := PrimFloat.mul;
     div := PrimFloat.div;
     leb := PrimFloat.leb;
     ltb := PrimFloat.ltb;
     isNaN := PrimFloat.is_nan;
     toFixed := float_toFixed |}.

(* ------------------------------------------------------------------ *)
(** ** JavaScript values and exceptions *)

Inductive number :=
| Fin (q : Q)
| NaN
| Infinity (negative : bool).

(** The values a caller can pass where the detector expects a text, a
    keyword specification or a list.  The fields of an object are in
    property enumeration order. *)
#[local] Set Warnings "-register-all".
Inductive value :=
| VUndefined
| VNull
| VBool (b : bool)
| VNum (n : number)
| VStr (s : jsstring)
| VArr (items : list value)
| VObj (fields : list (jsstring * value)).

Inductive exn :=
| TypeError (message : jsstring).

(** The completion of a call: a returned value or a thrown exception. *)
Inductive outcome (A : Type) :=
| Return (a : A)
| Throw (e : exn).
Arguments Return {A} a.
Arguments Throw {A} e.

Definition bind {A B} (o : outcome A) (f : A -> outcome B) : outcome B :=
  match o with
  | Return a => f a
  | Throw e => Throw e
  end.

Notation "x <- c1 ;; c2" := (bind c1 (fun x => c2))
  (at level 61, c1 at next level, right associativity).

(** A loop over the elements of an array whose body may throw. *)
Fixpoint traverse {A B} (f : A -> outcome B) (l : list A) : outcome (list B) :=
  match l with
  | [] => Return []
  | x :: r => y <- f x ;; ys <- traverse f r ;; Return (y :: ys)
  end.

(* ------------------------------------------------------------------ *)
(** ** The detector *)

Module GamblingDetector.

Section Detector.
Variable h : Host.
Variable A : Arith.

Local Abbreviation dec := (of_Q A).
Local Notation "a +. b" := (add A a b) (at level 50, left associativity).
Local Notation "a -. b" := (sub A a b) (at level 50, left associativity).
Local Notation "a *. b" := (mul A a b) (at level 40, left associativity).
Local Notation "a /. b" := (div A a b) (at level 40, left associativity).
Local Abbreviation len := List.length.

(** *** Text normalizer and signal detectors *)

(** [cleanText]: decompose, strip U+0300..U+036F, recompose. *)
Definition cleanText (text : jsstring) : jsstring :=
  normalize h NFKC
    (replace h (re "[\u0300-\u036f]" "g") [] (normalize h NFKD text)).

(** [isMostlyAsciiGarbage(text, threshold = 0.6)] *)
Definition isMostlyAsciiGarbage (text : value) (threshold : option (num A)) : bool :=
  let threshold := match threshold with Some t => t | None => dec 0.6 end in
  match text with
  | VStr text =>
    if len text =? 0 then false
    else
      let asciiGarbageRegex := re "[^a-zA-Z0-9\s\.,!?]" "g" in
      let garbageMatches := match_count h asciiGarbageRegex text in
      let ratio := of_nat A garbageMatches /. of_nat A (len text) in
      geb A ratio threshold
  | _ => false
  end.

(** The 3-word phrases [words[i] words[i+1] words[i+2]]. *)
Fixpoint phrases_of (words : list jsstring) : list jsstring :=
  match words with
  | a :: ((b :: c :: _) as r) => (a ++ js " " ++ b ++ js " " ++ c) :: phrases_of r
  | _ => []
  end.

(** [hasAbnormalRepetition(text, threshold = 0.4)] *)
Definition hasAbnormalRepetition (text : jsstring) (threshold : option (num A)) : bool :=
  let threshold := match threshold with Some t => t | None => dec 0.4 end in
  if len text <? 5 then false
  else
    let repeatedChars := str_match h (re "(.)\1{3,}" "g") text in
    if match repeatedChars with
       | Some l => gtb A (of_nat A (len (join [] l)) /. of_nat A (len text)) threshold
       | None => false
       end
    then true
    else
      let words := match str_match h (re "\b\w+\b" "g") (toLowerCase h text) with
                   | Some l => l | None => [] end in
      let uniqueWords := dedupe words in
      if (5 <=? len words)
         && ltb A (of_nat A (len uniqueWords) /. of_nat A (len words)) (dec 0.5)
      then true
      else if (9 <=? len words)
           && (let phrases := phrases_of words in
               let uniquePhrases := dedupe phrases in
               (3 <=? len phrases)
               && ltb A (of_nat A (len uniquePhrases) /. of_nat A (len phrases)) (dec 0.7))
      then true
      else false.

(** [cleanWeirdPatterns].  [charMap] is listed in the order of
    [Object.entries]: the integer keys in ascending order, then the
    others as written. *)
Definition charMap : list (string * string) :=
  [("0", "o"); ("1", "i"); ("3", "e"); ("4", "a"); ("5", "s"); ("6", "g");
   ("7", "t"); ("8", "b"); ("9", "g");
   ("¢", "c"); ("€", "e"); ("£", "l"); ("¥", "y"); ("@", "a")]%string.

Definition cleanWeirdPatterns (text : jsstring) : jsstring :=
  let text := trim (replace h (re "\s+" "g") (js " ") text) in
  let text := replace h (re "(\w)\s*\.\s*(\w)" "g") (js "$1$2") text in
  let text := replace h (re "(\w)[\s.*_\-|+=:;,']+(\w)" "g") (js "$1$2") text in
  let text := replace h (re "\s+(\w)\s+(\w)\s+(\w)\s+" "g") (js "$1$2$3") text in
  fold_left (fun text '(char, replacement) =>
               replace h (RegExp_new (js char) (js "g")) (js replacement) text)
            charMap text.

(** [combineShortWords] *)
Definition combineShortWords (text : jsstring) : jsstring :=
  let result := replace h (re "\b([a-zA-Z]{1,3})\s+([a-zA-Z]{1,3})\b" "g") (js "$1$2") text in
  let result := replace h (re "\b([a-zA-Z]{1,3})\s+([a-zA-Z]{1,3})\b" "g") (js "$1$2") result in
  let result := replace h (re "\b([a-zA-Z]{1,3})\s+([a-zA-Z]{1,3})\s+([a-zA-Z]{1,3})\b" "g")
                        (js "$1$2$3") result in
  result.

(** [s.split(sep)] for a separator of one code unit *)
Fixpoint split_on (sep : N) (cur : jsstring) (s : jsstring) : list jsstring :=
  match s with
  | [] => [rev cur]
  | c :: r => if (c =? sep)%N then rev cur :: split_on sep [] r
              else split_on sep (c :: cur) r
  end.

(** [hasSuspiciousUrlPatterns] *)
Definition hasSuspiciousUrlPatterns (text : jsstring) : bool :=
  let patterns :=
    [ re "\b\w+\.(com|net|io|xyz|site|online|id|org|gz|en|uk|int|edu|gov|ren|xin|[A-Z]?[a-zA-Z_+-]{2,8})" "gi";
      re "\bbit\.ly\/\w+" "gi";
      re "\w+\s*\.\s*\w+\s*\/\s*\w+" "gi";
      re "h\s*t\s*t\s*p\s*s?" "gi";
      re "w\s*w\s*w\s*\.\s*\w+" "gi";
      re "\b(?:t(?:\.)?me|t(?:\.)?ly|is\.gd|goo\.gl|v\.gd|bit\.ly|tinyurl)" "gi";
      re "\bwa\.me\/\d+" "gi";
      re "\bt(?:\.)?g\/\w+" "gi";
      re "\blink(?:\.)?in\/bio" "gi" ] in
  let domainPattern := re "\b([a-zA-Z0-9_-]+)[\s.*_\-|+=:;]+([a-zA-Z]{2,5})\b" "g" in
  let cap i m := match nth (i - 1) (m_caps m) None with Some x => x | None => [] end in
  let potentialDomains :=
    map (fun m => cap 1 m ++ js "." ++ cap 2 m) (all_matches h domainPattern text) in
  let commonTLDs := map js ["com"; "net"; "org"; "io"; "co"; "xyz"; "site"; "online";
                            "app"; "vip"; "biz"]%string in
  let hasSuspiciousDomain :=
    existsb (fun domain =>
               let parts := split_on (ch ".") [] domain in
               if len parts <? 2 then false
               else mem_str (replace h (re "\s+$" "") []
                               (toLowerCase h (last parts [])))
                            commonTLDs)
            potentialDomains in
  existsb (fun pattern => test h pattern text) patterns || hasSuspiciousDomain.

(** [detectLanguageSpecificPatterns(text, language = 'all')].  The
    patterns object has the keys en, id, zh, vi, th.  A language that
    names an inherited property of the object finds a value without
    [forEach], which throws. *)
Record LanguageResult := {
  lang_score : num A;
  lang_matches : list jsstring
}.

Definition languagePatterns : list (string * list RegExp) :=
  [ ("en",
     [ re "\b(?:bet(?:ting)?|wager|casino|poker|slot|roulette|jackpot|gambling)\b" "i";
       re "\b(?:online\s+gaming|sports\s+betting|odds|bookmaker|bookie)\b" "i";
       re "\b(?:deposit|withdraw|bonus|free\s+spin|vip\s+member|promo\s+code)\b" "i" ]);
    ("id",
     [ re "\b(?:judi|togel|gacor|maxwin|slot|toto|rolet|kasino|bandar)\b" "i";
       re "\b(?:taruhan|pasang|daftar|situs|bo|link\s+alternatif|akun|member)\b" "i";
       re "\b(?:menang|jackpot|deposit|withdraw|bonus|spin|prediksi|bocoran)\b" "i" ]);
    ("zh",
     [ re "\b(?:博彩|赌场|赌博|投注|老虎机|轮盘|扑克|百家乐)\b" "i";
       re "\b(?:押注|下注|返水|彩金|奖金|优惠|免费旋转)\b" "i" ]);
    ("vi",
     [ re "\b(?:cá\s+cược|đánh\s+bạc|sòng\s+bạc|khe|xổ\s+số|cược)\b" "i";
       re "\b(?:tiền\s+thưởng|quay\s+miễn\s+phí|đặt\s+cược|trúng)\b" "i" ]);
    ("th",
     [ re "\b(?:การพนัน|คาสิโน|สล็อต|พนัน|เดิมพัน|แทง)\b" "i";
       re "\b(?:โบนัส|ฟรีสปิน|ถอนเงิน|ฝากเงิน|สมัคร)\b" "i" ]) ]%string.

(** The properties every object inherits from [Object.prototype]. *)
Definition inherited_properties : list jsstring :=
  map js ["constructor"; "__defineGetter__"; "__defineSetter__"; "hasOwnProperty";
          "__lookupGetter__"; "__lookupSetter__"; "isPrototypeOf";
          "propertyIsEnumerable"; "toString"; "valueOf"; "__proto__";
          "toLocaleString"]%string.

Fixpoint lookup_language (lang : jsstring) (l : list (string * list RegExp))
  : option (list RegExp) :=
  match l with
  | [] => None
  | (k, v) :: r => if str_eqb (js k) lang then Some v else lookup_language lang r
  end.

Definition language_step (text : jsstring) (result : LanguageResult) (pattern : RegExp)
  : LanguageResult :=
  match str_match h pattern text with
  | Some matches =>
    if 0 <? len matches then
      {| lang_score := lang_score result +. dec 0.3 *. of_nat A (len matches);
         lang_matches := lang_matches result ++ matches |}
    else result
  | None => result
  end.

Definition detectLanguageSpecificPatterns (text : jsstring) (language : option jsstring)
  : outcome LanguageResult :=
  let language := match language with Some l => l | None => js "all" end in
  let result := {| lang_score := dec 0; lang_matches := [] |} in
  if str_eqb language (js "all") then
    Return (fold_left (fun result '(_, ps) => fold_left (language_step text) ps result)
                      languagePatterns result)
  else
    match lookup_language language languagePatterns with
    | Some ps => Return (fold_left (language_step text) ps result)
    | None =>
      if mem_str language inherited_properties
      then Throw (TypeError (js "patterns[lang].forEach is not a function"))
      else Return result
    end.

(** [convertCommentFixed(comment, ignoreLastDigits = 0)] *)
Definition substitutionMap : list (string * string) :=
  [("1", "i"); ("2", "z"); ("3", "e"); ("4", "a"); ("5", "s"); ("6", "g");
   ("7", "t"); ("8", "b"); ("9", "g"); ("0", "o"); ("!", "i"); ("&", "e");
   ("@", "a"); ("#", "h"); ("$", "s"); ("?", "q"); ("+", "t"); ("*", "x");
   ("_", "l"); ("%", "o"); ("|", "l")]%string.

(** [map[key]] for a map written as an object literal *)
Fixpoint lookup_map (m : list (string * string)) (key : jsstring) : option jsstring :=
  match m with
  | [] => None
  | (k, v) :: r => if str_eqb (js k) key then Some (js v) else lookup_map r key
  end.

Definition convertCommentFixed (comment : jsstring) (ignoreLastDigits : option nat)
  : jsstring :=
  let ignoreLastDigits := match ignoreLastDigits with Some n => n | None => 0 end in
  replace_fn h (re "\b\w+\b" "g")
    (fun m =>
       let word := m_text m in
       let len := len word in
       if len <=? ignoreLastDigits then word
       else
         let convertPart := slice word 0 (len - ignoreLastDigits) in
         let remainPart := skipn (len - ignoreLastDigits) word in
         let converted :=
           replace_fn h (re "[0-9!&@#$?+*_%|]" "gi")
             (fun m => match lookup_map substitutionMap (toLowerCase h (m_text m)) with
                       | Some letter => letter
                       | None => m_text m
                       end)
             convertPart in
         converted ++ remainPart)
    comment.

(** [mergeTextWithTrailingNumbers] *)
Definition mergeTextWithTrailingNumbers (text : jsstring) : jsstring :=
  let cap i m := match nth (i - 1) (m_caps m) None with Some x => x | None => [] end in
  let text :=
    replace_fn h (re "\b([A-Z]?[a-zA-Z_+-]{2,}\d{0,10})((?:\s+\d+)+)\b(?!\.)" "g")
      (fun m =>
         let prefix := cap 1 m in
         let nums := cap 2 m in
         let digits := match str_match h (re "\d+" "g") nums with
                       | Some l => join [] l
                       | None => []
                       end in
         prefix ++ digits)
      text in
  let text := replace h (re "\b([A-Z]?[a-zA-Z_+-]{2,}\d{0,10})[\s.-]+(\d+)\b" "g")
                      (js "$1$2") text in
  replace h (re "\b([A-Z]?[a-zA-Z_+-]{2,})\s+(\d+)\s+([a-zA-Z_+-]{2,})\b" "g")
            (js "$1$2$3") text.

(** [term.replace(/[.*+?^${}()|[\]\\]/g, '\\$&')] *)
Definition escapeRegExp (term : jsstring) : jsstring :=
  replace h (re "[.*+?^${}()|[\]\\]" "g") (js "\$&") term.

(** [createPatternRegex(terms, loose = false)]; [None] is [null]. *)
Definition createPatternRegex (terms : list jsstring) (loose : option bool)
  : option RegExp :=
  let loose := match loose with Some b => b | None => false end in
  if len terms =? 0 then None
  else
    let escaped := join (js "|") (map escapeRegExp terms) in
    let pattern :=
      if loose
      then js "(?:[a-zA-Z0-9][a-zA-Z0-9_+-]{0,4})?(?:" ++ escaped
           ++ js ")(?:[a-zA-Z0-9_+-]{0,4}[a-zA-Z0-9])?\d*"
      else js "\b(?:[a-zA-Z][a-zA-Z_+-]{0,4})?(?:" ++ escaped
           ++ js ")(?:[a-zA-Z_+-]{0,4}[a-zA-Z])?\d*" in
    Some (RegExp_new pattern (js "gi")).

(** [TinyPatternRegex(terms)] *)
Definition TinyPatternRegex (terms : list jsstring) : option RegExp :=
  if len terms =? 0 then None
  else
    let escaped := join (js "|") (map escapeRegExp terms) in
    let pattern := js "([a-zA-Z]{2,10})?" ++ escaped
                   ++ js "([a-zA-Z]{2,10})?(?:[0-9]{2,5})?" in
    Some (RegExp_new pattern (js "gi")).

(** [hasSeparatedWords] *)
Definition hasSeparatedWords (text : jsstring) : bool :=
  test h (re "\b[a-zA-Z]\s+[a-zA-Z]\b" "") text
  || test h (re "\b[a-zA-Z][^a-zA-Z0-9\s]{1,2}[a-zA-Z]\b" "") text
  || test h (re "\b([a-zA-Z])[\s.*_\-|+=:;,']([a-zA-Z])\b" "") text.

(** [reconstructSeparatedWords] *)
Definition reconstructSeparatedWords (text : jsstring) : jsstring :=
  let result := replace h (re "\b([a-zA-Z])\s+([a-zA-Z])\s+([a-zA-Z])\s+([a-zA-Z])\b" "gi")
                        (js "$1$2$3$4") text in
  let result := replace h (re "\b([a-zA-Z])\s+([a-zA-Z])\s+([a-zA-Z])\b" "gi")
                        (js "$1$2$3") result in
  let result := replace h (re "\b([a-zA-Z])\s+([a-zA-Z])\b" "gi") (js "$1$2") result in
  let result := replace h (re "\b([a-zA-Z])[.\-_*|+=:;,']([a-zA-Z])\b" "gi")
                        (js "$1$2") result in
  let result := replace h (re "\b([a-zA-Z])[.\-_*|+=:;,']([a-zA-Z])[.\-_*|+=:;,']([a-zA-Z])\b" "gi")
                        (js "$1$2$3") result in
  let separatedWordPattern :=
    re "\b([a-zA-Z])[.\-_*|+=:;,']([a-zA-Z])[.\-_*|+=:;,']([a-zA-Z])[.\-_*|+=:;,']" "g" in
  if test h separatedWordPattern result then
    replace h (re "\b([a-zA-Z])([.\-_*|+=:;,'])([a-zA-Z])([.\-_*|+=:;,'])([a-zA-Z])([.\-_*|+=:;,'])([a-zA-Z])\b" "gi")
            (js "$1$3$5$7") result
  else result.

(** [hasSuspiciousCodeSequences].  Without the [u] flag the emoji classes
    are classes of UTF-16 code units. *)
Definition hasSuspiciousCodeSequences (text : jsstring) : bool :=
  let emojiPattern := re "[🎰🎲🎯🎮🎪🎭💰💸💵💴💶💷🏆🥇🥈🥉🏅🎖️🎗️🎫🎟️🎁🎀😎😍😂🤔🤙🤘🏻🎯🎪🎭🃏♠️♥️♦️♣️🎴🀄️🎨🎬🔢🎱🎳🎾🏈⚽️🏀🏉🎾🎽👑💎💲💹🧧💱📊📈📉🔝🔥⭐️👏👍👌✨🚀]" "g" in
  let gamblingEmojiPattern := re "[🎰🎲🎯🎪💰💸💵🏆🎫🎟️🃏♠️♥️♦️♣️🎴🀄️🎱💲💹🧧💱🎯🎭🎨🎬🔝🔥⭐️🚀]" "g" in
  let emojiMatches := match_count h emojiPattern text in
  let gamblingEmojiMatches := match_count h gamblingEmojiPattern text in
  let codePattern := re "\b[A-Z][0-9][A-Z0-9]{2,}\b|\b[A-Z]{2,}[0-9]{2,}\b" "g" in
  let gamblingCodePattern := re "\b[Ss][1l][0Oo][Tt]\b|\b[Bb][0Oo][0Oo][Nn][Uu][Ss]\b|\b[Jj][4Aa][Cc][Kk][Pp][0Oo][Tt]\b|\b[Bb][3Ee][Tt]\b|\b[Ww][1lI][Nn]\b|\b[Cc][4Aa][Ss][1lI][Nn][0Oo]\b|\b[Pp][0Oo][Kk][3Ee][Rr]\b" "g" in
  let codeMatches := match_count h codePattern text in
  let gamblingCodeMatches := match_count h gamblingCodePattern text in
  let hasMultipleEmojis := 2 <=? emojiMatches in
  let hasGamblingSpecificEmojis := 1 <=? gamblingEmojiMatches in
  let hasCodePatterns := 1 <=? codeMatches in
  let hasGamblingCodePatterns := 1 <=? gamblingCodeMatches in
  hasMultipleEmojis || hasGamblingSpecificEmojis || hasCodePatterns
  || hasGamblingCodePatterns.

(** [detectContextualGamblingIndicators] *)
Record Indicators := {
  ind_score : num A;
  ind_reasons : list jsstring
}.

Definition indicator_step (text : jsstring) (weight : num A) (reason : string)
  (indicators : Indicators) (pattern : RegExp) : Indicators :=
  if test h pattern text then
    {| ind_score := ind_score indicators +. weight;
       ind_reasons := ind_reasons indicators ++ [js reason] |}
  else indicators.

Definition detectContextualGamblingIndicators (text : jsstring) : Indicators :=
  let indicators := {| ind_score := dec 0; ind_reasons := [] |} in
  let moneyPhrases :=
    [ re "\b(?:min(?:imum)?\s*dep(?:osit)?|min\s*wd|wd\s*min)\b.*?(?:\d+[kK]?|ribu|juta|rb)" "i";
      re "\b(?:deposit|withdrawal|cashout|bayar)\b.*?(?:\d+[kK]?|ribu|juta|rb)" "i";
      re "\b(?:bonus|promo|free)\b.*?(?:\d+%|\d+[kK]?|ribu|juta|rb)" "i";
      re "\b(?:win|menang|dapat|untung)\b.*?(?:\d+[xX]|\d+[kK]?|ribu|juta|rb)" "i" ] in
  let indicators :=
    fold_left (indicator_step text (dec 0.05) "monetary_phrase") moneyPhrases indicators in
  let timePhrases :=
    [ re "\b(?:today|hari\s*ini|sekarang|now|langsung)\b.*?(?:bonus|promo|free)" "i";
      re "\b(?:limited|terbatas|hanya|only)\b.*?(?:time|waktu|hari|jam)" "i" ] in
  let indicators :=
    fold_left (indicator_step text (dec 0.03) "urgency_phrase") timePhrases indicators in
  let csIndicators :=
    [ re "\b(?:cs|customer\s*service|layanan\s*pelanggan|admin|help\s*desk)\b" "i";
      re "\b(?:wa|whatsapp|telegram|line|chat)\b.*?(?:\d{4,}|online|24\s*(?:jam|hours))" "i";
      re "\b(?:kontak|contact|hubungi)\b.*?(?:wa|whatsapp|telegram|line|chat)" "i" ] in
  let indicators :=
    fold_left (indicator_step text (dec 0.03) "cs_indicator") csIndicators indicators in
  let paymentIndicators :=
    [ re "\b(?:bank|bca|bni|bri|mandiri|dana|ovo|gopay|linkaja|pulsa|e-wallet|wallet|dompet|payment|pembayaran)\b" "i";
      re "\b(?:all\s*bank|semua\s*bank|bank\s*lokal|local\s*bank)\b" "i" ] in
  fold_left (indicator_step text (dec 0.01) "payment_indicator") paymentIndicators indicators.

(** [analyzeEvasionTechniques] *)
Record Evasion := {
  ev_score : num A;
  ev_techniques : list jsstring
}.

Definition flag (analysis : Evasion) (weight : num A) (technique : string) : Evasion :=
  {| ev_score := ev_score analysis +. weight;
     ev_techniques := ev_techniques analysis ++ [js technique] |}.

Definition analyzeEvasionTechniques (text : jsstring) : Evasion :=
  let analysis := {| ev_score := dec 0; ev_techniques := [] |} in
  let substitutionPatterns :=
    [ re "\b[a-zA-Z]*[0-9!@#$%^&*][a-zA-Z0-9!@#$%^&*]*[a-zA-Z]+[a-zA-Z0-9!@#$%^&*]*\b" "g";
      re "\b[a-zA-Z]+[0-9]{3,}\b" "g" ] in
  let analysis :=
    fold_left (fun analysis pattern =>
                 if 0 <? match_count h pattern text
                 then flag analysis (dec 0.3) "character_substitution"
                 else analysis)
              substitutionPatterns analysis in
  let analysis :=
    if hasSeparatedWords text then flag analysis (dec 0.4) "word_separation"
    else analysis in
  let analysis :=
    if test h (re "\s{2,}" "") text || test h (re "[a-zA-Z]\s[a-zA-Z]\s[a-zA-Z]" "") text
    then flag analysis (dec 0.2) "unusual_spacing"
    else analysis in
  let analysis :=
    if test h (re "[a-z][A-Z]|[A-Z][a-z][A-Z]" "") text
    then flag analysis (dec 0.2) "mixed_case"
    else analysis in
  let words := match str_match h (re "\b\w{4,}\b" "g") text with
               | Some l => l | None => [] end in
  if existsb (fun word =>
                let reversed := rev word in
                includes text reversed && negb (str_eqb word reversed))
             words
  then flag analysis (dec 0.5) "reversed_text"
  else analysis.

(** [extractContactInfos] *)
Record ContactInfo := {
  ci_found : bool;
  ci_types : list jsstring;
  ci_values : list jsstring
}.

Definition contactPatterns : list (string * RegExp) :=
  [ ("whatsapp",
     re "\b(?:wa|whatsapp|w4|wea)[\s.:]*(?:\+?\d{8,15}|\+?\d{2,4}[-\s]?\d{2,4}[-\s]?\d{2,5})\b" "gi");
    ("telegram",
     re "\b(?:telegram|tele|t\.me|tg)[\s.:]*(?:@\w+|\+?\d{8,15})" "gi");
    ("phone",
     re "\b(?:tel|telp|hp|phone|hubungi|call)[\s.:]*(?:\+?\d{8,15}|\+?\d{2,4}[-\s]?\d{2,4}[-\s]?\d{2,5})\b" "gi");
    ("instagram",
     re "\b(?:ig|instagram|insta)[\s.:]*(?:@\w+|\w+)" "gi");
    ("line",
     re "\b(?:line|ln)[\s.:]*(?:@\w+|\w+)" "gi");
    ("website",
     re "\b(?:https?:\/\/)?(?:www\.)?([a-zA-Z0-9-]+)(?:\.[a-zA-Z0-9-]+)+(?:\/[^\s]*)?" "gi") ]%string.

Definition extractContactInfos (text : jsstring) : ContactInfo :=
  fold_left
    (fun contactInfo '(type, pattern) =>
       match str_match h pattern text with
       | Some matches =>
         if 0 <? len matches then
           {| ci_found := true;
              ci_types := ci_types contactInfo ++ [js type];
              ci_values := ci_values contactInfo ++ matches |}
         else contactInfo
       | None => contactInfo
       end)
    contactPatterns
    {| ci_found := false; ci_types := []; ci_values := [] |}.

(** *** Fuzzy matcher *)

Record FuzzyMatch := {
  matched_word : jsstring;
  matched_with : jsstring;
  score : num A
}.

Definition fuzzySubstitutionMap : list (ascii * ascii) :=
  [("1", "i"); ("2", "z"); ("3", "e"); ("4", "a"); ("5", "s"); ("6", "g");
   ("7", "t"); ("8", "b"); ("9", "g"); ("0", "o"); ("!", "i"); ("&", "e");
   ("@", "a"); ("#", "h")]%char.

(** [map[char]] for a map from single characters to single characters
    (given by code units), on a string of one code unit *)
Fixpoint lookup_char (m : list (N * N)) (char : N) : option N :=
  match m with
  | [] => None
  | (k, v) :: r => if (k =? char)%N then Some v else lookup_char r char
  end.

Definition fuzzySubstitutionCodes : list (N * N) :=
  Eval vm_compute in map (fun '(k, v) => (ch k, ch v)) fuzzySubstitutionMap.

(** [normalize] of [fuzzySearch]: lower-case, then the substitution map
    on each code unit. *)
Definition fuzzyNormalize (text : jsstring) : jsstring :=
  map (fun char => match lookup_char fuzzySubstitutionCodes char with
                   | Some letter => letter
                   | None => char
                   end)
      (toLowerCase h text).

(** The inner loop of [levenshtein] for the row of [a[i-1]]: [p2], [p1]
    and [ps] are [prev[j-2]], [prev[j-1]] and [prev[j..]], [c1] is
    [curr[j-1]]; the result is [curr[j..]]. *)
Fixpoint lev_row (ai : N) (aprev : option N) (bs : jsstring) (bprev : option N)
  (p2 : option nat) (p1 : nat) (ps : list nat) (c1 : nat) : list nat :=
  match bs, ps with
  | bj :: bs', pj :: ps' =>
    let cost := if (ai =? bj)%N then 0 else 1 in
    let v := Nat.min (Nat.min (c1 + 1) (pj + 1)) (p1 + cost) in
    let v := match aprev, bprev, p2 with
             | Some am, Some bm, Some q =>
               if ((ai =? bm) && (am =? bj))%N then Nat.min v (q + 1) else v
             | _, _, _ => v
             end in
    v :: lev_row ai aprev bs' (Some bj) (Some p1) pj ps' v
  | _, _ => []
  end.

(** The outer loop: [prev] is the row of [i - 1]. *)
Fixpoint lev_loop (a : jsstring) (aprev : option N) (i : nat) (b : jsstring)
  (prev : list nat) : list nat :=
  match a with
  | [] => prev
  | ai :: a' =>
    let curr := i :: lev_row ai aprev b None None (hd 0 prev) (tl prev) i in
    lev_loop a' (Some ai) (S i) b curr
  end.

Definition levenshtein (maxDistance : nat) (a b : jsstring) : nat :=
  if str_eqb a b then 0
  else if len a =? 0 then len b
  else if len b =? 0 then len a
  else if maxDistance <? (Nat.max (len a) (len b) - Nat.min (len a) (len b))
  then maxDistance + 1
  else last (lev_loop a None 1 b (seq 0 (len b + 1))) 0.

Definition calculateScore (q i : jsstring) (d : nat) : num A :=
  if d =? 0 then dec 1
  else
    let maxLength := Nat.max (len q) (len i) in
    let baseScore := dec 1 -. of_nat A d /. of_nat A maxLength in
    let containsBonus := if includes i q then dec 0.1 else dec 0 in
    let prefixBonus := if starts_with q i then dec 0.2 else dec 0 in
    min A (dec 1) (baseScore +. containsBonus +. prefixBonus).

(** [results.sort((a, b) => b.score - a.score)]: stable, by decreasing
    score. *)
Fixpoint insert_by_score (x : FuzzyMatch) (l : list FuzzyMatch) : list FuzzyMatch :=
  match l with
  | [] => [x]
  | y :: r => if ltb A (score y) (score x) then x :: l else y :: insert_by_score x r
  end.

Definition sort_by_score (l : list FuzzyMatch) : list FuzzyMatch :=
  fold_left (fun sorted x => insert_by_score x sorted) l [].

(** [fuzzySearch(list, query, maxDistance = 2, minScore = 0.5)] once its
    arguments are known to be an array of strings and a string: what
    [detect] runs. *)
Definition fuzzySearch (lst : list jsstring) (query : jsstring)
  (maxDistance : option nat) (minScore : option (num A)) : list FuzzyMatch :=
  let maxDistance := match maxDistance with Some d => d | None => 2 end in
  let minScore := match minScore with Some m => m | None => dec 0.5 end in
  if len (trim query) =? 0 then []
  else
    let normalizedQueryWords := split h (re "\s+" "") (fuzzyNormalize query) in
    let results :=
      flat_map
        (fun word =>
           flat_map
             (fun item =>
                let normalizedItem := fuzzyNormalize item in
                let distance := levenshtein maxDistance word normalizedItem in
                let score := calculateScore word normalizedItem distance in
                if (distance <=? maxDistance) && geb A score minScore
                then [ {| matched_word := word; matched_with := item;
                          score := toFixed A 3 score |} ]
                else [])
             lst)
        normalizedQueryWords in
    sort_by_score results.

Definition quoted (name : string) : jsstring := [34%N] ++ js name ++ [34%N].

(** The strings of an array, if all its elements are strings. *)
Fixpoint strings_of (items : list value) : option (list jsstring) :=
  match items with
  | [] => Some []
  | VStr s :: r => option_map (cons s) (strings_of r)
  | _ :: _ => None
  end.

(** [fuzzySearch] as called with arbitrary arguments: the two argument
    checks, the blank query, and then the search, in which [normalize]
    throws on the first element that has no [toLowerCase]. *)
Definition fuzzySearch_call (lst query : value)
  (maxDistance : option nat) (minScore : option (num A)) : outcome (list FuzzyMatch) :=
  match lst with
  | VArr items =>
    match query with
    | VStr q =>
      if len (trim q) =? 0 then Return []
      else match strings_of items with
           | Some l => Return (fuzzySearch l q maxDistance minScore)
           | None => Throw (TypeError (js "text.toLowerCase is not a function"))
           end
    | _ => Throw (TypeError (js "Parameter " ++ quoted "query" ++ js " must be a string"))
    end
  | _ => Throw (TypeError (js "Parameter " ++ quoted "list" ++ js " must be an array"))
  end.

(** *** Keywords *)

(** [parseFloat] on the digits of a decimal literal *)
Fixpoint take_digits (s : jsstring) : list N * jsstring :=
  match s with
  | c :: r => if is_digit c then let '(d, r') := take_digits r in (c :: d, r')
              else ([], s)
  | [] => ([], [])
  end.

Definition digits_value (d : list N) : Z :=
  fold_left (fun acc c => (acc * 10 + Z.of_N (c - 48))%Z) d 0%Z.

(** [parseFloat(string)]: the longest prefix that is a decimal literal,
    after leading white space. *)
Definition parseFloat (s : jsstring) : number :=
  let s := drop_spaces s in
  let '(negative, s) :=
    match s with
    | c :: r => if (c =? ch "-")%N then (true, r)
                else if (c =? ch "+")%N then (false, r) else (false, s)
    | [] => (false, s)
    end in
  if starts_with (js "Infinity") s then Infinity negative
  else
    let '(ip, r1) := take_digits s in
    let '(fp, r2) :=
      match r1 with
      | c :: r => if (c =? ch ".")%N then take_digits r else ([], r1)
      | [] => ([], r1)
      end in
    if (len ip =? 0) && (len fp =? 0) then NaN
    else
      let mantissa := (inject_Z (digits_value (ip ++ fp))
                       / inject_Z (10 ^ Z.of_nat (len fp)))%Q in
      let exponent :=
        match r2 with
        | c :: r =>
          if ((c =? ch "e") || (c =? ch "E"))%N then
            let '(eneg, r') :=
              match r with
              | c' :: r'' => if (c' =? ch "-")%N then (true, r'')
                             else if (c' =? ch "+")%N then (false, r'') else (false, r)
              | [] => (false, r)
              end in
            let '(ed, _) := take_digits r' in
            if len ed =? 0 then 0%Z
            else if eneg then (- digits_value ed)%Z else digits_value ed
          else 0%Z
        | [] => 0%Z
        end in
      let v := (mantissa * Qpower (inject_Z 10) exponent)%Q in
      Fin (Qred (if negative then (- v)%Q else v)).

(** The weight [processEntry] gives to a numeric value. *)
Definition numeric_score (fallback : num A) (n : number) : num A :=
  match n with
  | Fin q =>
    if negb (Qle_bool q 5) then dec 1
    else if Qeq_bool q 4 then dec 0.4
    else if Qle_bool 0 q && Qle_bool q 1 then dec q
    else fallback
  | Infinity false => dec 1
  | Infinity true => fallback
  | NaN => fallback
  end.

Definition entry_score (val : value) : num A :=
  match val with
  | VBool b => if b then dec 1 else dec 0
  | VNum n => numeric_score (dec 1) n
  | VStr s =>
    match parseFloat s with
    | NaN => dec 1
    | n => numeric_score (dec 1) n
    end
  | VNull | VUndefined => dec 0
  | _ => dec 1
  end.

(** [processEntry(key, val)]: entries with an empty key are skipped. *)
Definition processEntry (acc : list jsstring * list (num A)) (entry : jsstring * value)
  : list jsstring * list (num A) :=
  let '(keys, values) := acc in
  let '(key, val) := entry in
  if len key =? 0 then acc
  else (keys ++ [key], values ++ [entry_score val]).

(** The decimal digits of an array index *)
Fixpoint index_digits (fuel n : nat) (acc : jsstring) : jsstring :=
  match fuel with
  | O => acc
  | S fuel' =>
    let acc := (48 + N.of_nat (n mod 10))%N :: acc in
    if n / 10 =? 0 then acc else index_digits fuel' (n / 10) acc
  end.

(** [Object.entries(item)] for the values the keyword list can hold *)
Definition entries_of (item : value) : list (jsstring * value) :=
  match item with
  | VObj fields => fields
  | VArr items =>
    map (fun '(i, v) => (index_digits (S i) i [], v)) (combine (seq 0 (len items)) items)
  | _ => []
  end.

(** [extractKeywordArrays(input)]: the terms and their weights. *)
Definition extractKeywordArrays (input : value) : list jsstring * list (num A) :=
  match input with
  | VNull | VUndefined => ([], [])
  | VStr s => if 0 <? len (trim s) then ([s], [dec 1]) else ([], [])
  | VArr items =>
    fold_left
      (fun acc item =>
         match item with
         | VStr s =>
           if 0 <? len (trim s) then (fst acc ++ [s], snd acc ++ [dec 1]) else acc
         | VObj _ | VArr _ => fold_left processEntry (entries_of item) acc
         | _ => acc
         end)
      items ([], [])
  | VObj fields => fold_left processEntry fields ([], [])
  | _ => ([], [])
  end.

(** *** Sensitivity *)

(** [morpoint(inputInt)]; [None] is [undefined], for an input that is
    not a key of the table. *)
Definition morpoint (inputInt : num A) : option (num A) :=
  let inputInt := if leb A inputInt (dec 0) then dec 0 else inputInt in
  let numberx := [(0, 0); (1, 5); (2, 4); (3, 3); (4, 2); (5, 1)]%Q in
  option_map (fun kv => dec (snd kv))
             (find (fun kv => eqb A inputInt (dec (fst kv))) numberx).

(** [parseNumber(value, maxim)] on a number; a comparison with an
    [undefined] maximum is false. *)
Definition parseNumber (value : num A) (maxim : option (num A)) : num A :=
  let num := value in
  if isNaN A num then dec 0
  else if ltb A num (dec 0) then dec 0
  else match maxim with
       | Some maxim => if gtb A num maxim then maxim else num
       | None => num
       end.

(** *** Options and result *)

(** The options of [detect]; [None] is a property that is absent (or
    [undefined]), for which the default of the destructuring applies.
    The record holds the options of the documented types only:
    [supportKeywords], [domains] and [allowlist] are arrays of strings,
    [language] is a string, the flags are booleans.  An options object with
    [null] or with a value that is not a string in one of these lists, on
    which the source raises a TypeError where it prepares the lists, is not
    a value of this record, and no property stated over it speaks of such
    options. *)
Record Options := {
  supportKeywords : option (list jsstring);
  domains : option (list jsstring);
  keywords : option value;
  allowlist : option (list jsstring);
  sensitivityLevel : option (num A);
  includeAnalysis : option bool;
  detectRepetition : option bool;
  detectUrlPatterns : option bool;
  detectEvasionTechniques : option bool;
  detectContextualIndicators : option bool;
  extractContactInfo : option bool;
  language : option jsstring;
  debug : option bool
}.

(** [{}] *)
Definition no_options : Options :=
  {| supportKeywords := None; domains := None; keywords := None; allowlist := None;
     sensitivityLevel := None; includeAnalysis := None; detectRepetition := None;
     detectUrlPatterns := None; detectEvasionTechniques := None;
     detectContextualIndicators := None; extractContactInfo := None;
     language := None; debug := None |}.

Definition or_default {T} (o : option T) (d : T) : T :=
  match o with Some x => x | None => d end.

Record ContentMetrics := {
  wordCount : nat;
  charCount : nat;
  avgWordLength : num A
}.

(** The values of the properties of the analysis object. *)
Inductive aval :=
| ABool (b : bool)
| ANum (x : num A)
| ACount (n : nat)
| AStrings (l : list jsstring)
| AContact (c : ContactInfo)
| AMetrics (m : ContentMetrics).

(** The analysis object: its properties in insertion order. *)
Definition object := list (string * aval).

Fixpoint set_prop (key : string) (v : aval) (o : object) : object :=
  match o with
  | [] => [(key, v)]
  | (k, w) :: r => if String.eqb k key then (k, v) :: r else (k, w) :: set_prop key v r
  end.

Fixpoint get_prop (key : string) (o : object) : option aval :=
  match o with
  | [] => None
  | (k, w) :: r => if String.eqb k key then Some w else get_prop key r
  end.

(** [analysis?.key] as a condition *)
Definition flagged (analysis : option object) (key : string) : bool :=
  match analysis with
  | Some o => match get_prop key o with
              | Some (ABool b) => b
              | Some _ => true
              | None => false
              end
  | None => false
  end.

(** [if (includeAnalysis) analysis.key = v] *)
Definition record (includeAnalysis : bool) (key : string) (v : aval)
  (analysis : option object) : option object :=
  if includeAnalysis then option_map (set_prop key v) analysis else analysis.

Inductive Confidence := ConfNone | ConfLow | ConfMedium | ConfHigh.

Record DetectionResult := {
  isGambling : bool;
  confidence : Confidence;
  checkpoint : num A;
  details : jsstring;
  comment : value;
  analysis : option object
}.

Record ConfidenceThresholds := {
  low : num A;
  medium : num A;
  high : num A
}.

(** The thresholds [detect] derives from the sensitivity level. *)
Definition confidenceThresholds (sensitivityLevel : num A) : ConfidenceThresholds :=
  let sensitivityFactor := max A (dec 1) (min A (dec 5) sensitivityLevel) /. dec 3 in
  {| low := max A (dec 0.45) (dec 0.5 *. sensitivityFactor);
     medium := max A (dec 0.9) (dec 0.8 *. sensitivityFactor);
     high := max A (dec 1.2) (dec 2.5 *. sensitivityFactor) |}.

Definition defaultKeywords : value :=
  VArr (map (fun k => VStr (js k))
            ["slot"; "casino"; "jack"; "zeus"; "scatter"; "toto"; "judol"; "jodol";
             "poker"; "roulette"; "betting"; "gamble"; "joker"]%string).

Definition defaultSupportKeywords : list jsstring :=
  map js [
   "wdp"; "wd"; "win"; "happy"; "joyful"; "rich"; "trustworthy"; "lucky"; "trust";
   "definitely get"; "jp"; "jackpot"; "proud"; "harvest"; "smart"; "gambli"; "great";
   "money back"; "trusted"; "beautiful"; "harvest"; "fishing"; "bet"; "put"; "bonus";
   "dp"; "pay"; "enough"; "game"; "play"; "happy"; "deposit"; "withdraw"; "min"; "max";
   "winning"; "fortune"; "luck"; "lucky"; "prize"; "reward"; "vip"; "member"; "free";
   "register"; "sign"; "join"; "profit"; "earn"; "money"; "cash"; "credit"; "debit";
   "join"; "login"; "official"; "original"; "genuine"; "link"; "alternative";
   "customer"; "service"; "provider"; "welcome"; "promotion"; "online"; "platform";
   "app"; "application"; "alternati"; "scatter"; "wager"; "baccarat"; "blackjack";
   "dice"; "spin"; "multiplier"; "odds"; "menang"; "senang"; "gacor"; "gembira";
   "kaya"; "pasti dapat"; "bangga"; "panen"; "beruntung"; "untung"; "mancing";
   "uang kembali"; "dipercaya"; "amanah"; "terpercaya"; "cantik"; "pancing"; "judi";
   "taruhan"; "pasang"; "togel"; "hadiah"; "bonus"; "register"; "masuk"; "dana";
   "jamin"; "aman"; "situs"; "resmi"; "asli"; "maxwin"; "gampang"; "bocoran";
   "prediksi"; "jitu"; "akurat"; "terpercaya"; "terbaik"; "rekomendasi"; "main";
   "permainan"; "daftar"; "minimal"; "maksimal"; "pasaran"; "nomor"; "petaruh";
   "peluang"; "kesempatan"; "keberuntungan"; "ratusan"; "ribuan"; "jutaan"; "hadiah";
   "alternatif"
  ]%string.

(** *** Pattern engine *)

Inductive ApproachName := Standard | Custom | Loose | Tiny.

Record Approach := {
  ap_pattern : option RegExp;
  ap_value : num A;
  ap_min : num A;
  ap_name : ApproachName
}.

Definition is_loose (n : ApproachName) : bool :=
  match n with Loose => true | _ => false end.
Definition is_tiny (n : ApproachName) : bool :=
  match n with Tiny => true | _ => false end.

Record Pass := {
  pass_converter : jsstring -> jsstring;
  pass_weight : num A
}.

(** What the matching loops share and update. *)
Record Engine := {
  e_checkpoint : num A;
  e_allMatches : list jsstring;
  e_matchedTerms : list jsstring;
  e_fuzzyHistory : list jsstring
}.

(** What the matching loops read. *)
Record Env := {
  env_text : jsstring;
  env_keyword : list jsstring;
  env_keywordList : list jsstring;
  env_domainSet : list jsstring;
  env_allowSet : list jsstring;
  env_sensitivityFactorNorm : option (num A);
  env_includeAnalysis : bool
}.

Definition with_checkpoint (st : Engine) (c : num A) : Engine :=
  {| e_checkpoint := c; e_allMatches := e_allMatches st;
     e_matchedTerms := e_matchedTerms st; e_fuzzyHistory := e_fuzzyHistory st |}.

Definition with_history (st : Engine) (hist : list jsstring) : Engine :=
  {| e_checkpoint := e_checkpoint st; e_allMatches := e_allMatches st;
     e_matchedTerms := e_matchedTerms st; e_fuzzyHistory := hist |}.

(** [matchedTerms.add(m)] *)
Definition set_add (m : jsstring) (s : list jsstring) : list jsstring :=
  if mem_str m s then s else s ++ [m].

(** [allMatches.push(...filtered); filtered.forEach(m =>
    matchedTerms.add(m.toLowerCase()))] *)
Definition add_matches (st : Engine) (filtered : list jsstring) : Engine :=
  {| e_checkpoint := e_checkpoint st;
     e_allMatches := e_allMatches st ++ filtered;
     e_matchedTerms := fold_left (fun s m => set_add (toLowerCase h m) s) filtered
                                 (e_matchedTerms st);
     e_fuzzyHistory := e_fuzzyHistory st |}.

(** [matches.filter(match => !allowSet.has(match.toLowerCase()))] *)
Definition filter_allowed (allowSet : list jsstring) (matches : list jsstring)
  : list jsstring :=
  filter (fun m => negb (mem_str (toLowerCase h m) allowSet)) matches.

Definition strip_spaces (s : jsstring) : jsstring := replace h (re "\s+" "g") [] s.

(** [matches && matches.length > 0] *)
Definition found (matches : option (list jsstring)) : bool :=
  match matches with Some (_ :: _) => true | _ => false end.

(** [!matches] *)
Definition is_null (matches : option (list jsstring)) : bool :=
  match matches with Some _ => false | None => true end.

(** [a > b] where [a] may be [undefined] *)
Definition opt_gtb (a : option (num A)) (b : num A) : bool :=
  match a with Some x => gtb A x b | None => false end.
Definition opt_geb (a : option (num A)) (b : num A) : bool :=
  match a with Some x => geb A x b | None => false end.

(** [if (fuzzyHistory.length > 2) fuzzyHistory = fuzzyHistory.slice(-2)] *)
Definition limit_history (hist : list jsstring) : list jsstring :=
  if 2 <? len hist then skipn (len hist - 2) hist else hist.

(** One turn of the loop over [patternApproaches].  The result is the
    state, the counter [looseAttempted], and whether the loop is left
    by [break] with [foundMatch] set. *)
Definition approach_step (env : Env) (processedText textFixed converted : jsstring)
  (approach : Approach) (st : Engine) (looseAttempted : nat) : Engine * nat * bool :=
  match ap_pattern approach with
  | None => (st, looseAttempted, false)
  | Some pattern =>
    let sfn := env_sensitivityFactorNorm env in
    let checkpoint := e_checkpoint st in
    let matches := str_match h pattern (strip_spaces converted) in
    let '(matches, checkpoint) :=
      if is_null matches && (is_loose (ap_name approach) || (0 <? looseAttempted))
      then
        let matches :=
          if opt_gtb sfn (dec 2)
          then str_match h (re "\b[a-zA-Z]{2,3}\d{1,5}\b" "gi") (combineShortWords textFixed)
          else matches in
        match matches with
        | None =>
          if opt_gtb sfn (dec 2) then
            let matches := str_match h (re "\b[a-zA-Z]{3,}\d{2,}\b" "gi") textFixed in
            match matches with
            | Some _ => (matches, checkpoint +. ap_value approach *. dec 1.2)
            | None => (matches, checkpoint)
            end
          else (matches, checkpoint)
        | Some _ => (matches, checkpoint)
        end
      else if negb (is_tiny (ap_name approach)) then
        let siteIdMatches :=
          str_match h (re "\b[a-zA-Z]{3,}\d{2,5}\b" "gi") (trim (env_text env)) in
        match siteIdMatches with
        | Some _ => if opt_geb sfn (dec 4) then (matches, checkpoint +. dec 0.1)
                    else (matches, checkpoint)
        | None => (matches, checkpoint)
        end
      else (matches, checkpoint) in
    let checkpoint :=
      fold_left (fun checkpoint el =>
                   if found (str_match h pattern (strip_spaces el))
                   then checkpoint +. dec 0.1 else checkpoint)
                (e_fuzzyHistory st) checkpoint in
    if is_loose (ap_name approach) && (0 <? looseAttempted)
    then (with_checkpoint st checkpoint, looseAttempted, false)
    else
      let looseAttempted :=
        if is_loose (ap_name approach) then looseAttempted + 1 else looseAttempted in
      let '(matches, checkpoint) :=
        if is_tiny (ap_name approach) then
          let matches := str_match h pattern processedText in
          (matches, if found matches then checkpoint +. dec 0.03 else checkpoint)
        else (matches, checkpoint) in
      let st := with_checkpoint st checkpoint in
      if found matches then
        let filteredMatches := filter_allowed (env_allowSet env) (or_default matches []) in
        if 0 <? len filteredMatches then
          let st := add_matches st filteredMatches in
          if gtb A checkpoint (dec 0.5)
          then (with_checkpoint st (checkpoint +. ap_value approach), looseAttempted, true)
          else (st, looseAttempted, false)
        else (st, looseAttempted, false)
      else
        let checkFuzzy := fuzzySearch (env_keywordList env) textFixed None None in
        match checkFuzzy with
        | bestMatch :: _ =>
          if gtb A (score bestMatch) (dec 0.7) then
            let textSession :=
              replace_str (matched_word bestMatch) (matched_with bestMatch) textFixed in
            let fuzzyMatches := str_match h pattern (strip_spaces textSession) in
            let fuzzyFilteredMatches :=
              if found fuzzyMatches
              then filter_allowed (env_allowSet env) (or_default fuzzyMatches [])
              else [] in
            let st := if 0 <? len fuzzyFilteredMatches
                      then add_matches st fuzzyFilteredMatches else st in
            if (0 <? len fuzzyFilteredMatches) && gtb A checkpoint (dec 0.5)
            then (with_checkpoint st (checkpoint +. dec 0.08), looseAttempted, true)
            else
              (with_history st (limit_history (e_fuzzyHistory st ++ [textSession])),
               looseAttempted, false)
          else (with_history st (limit_history (e_fuzzyHistory st)), looseAttempted, false)
        | [] =>
          let checkFuzzy2 := fuzzySearch (env_keyword env) converted None None in
          let hist :=
            match checkFuzzy2 with
            | bestMatch2 :: _ =>
              if gtb A (score bestMatch2) (dec 0.6)
              then e_fuzzyHistory st
                   ++ [replace_str (matched_word bestMatch2) (matched_with bestMatch2)
                                   textFixed]
              else e_fuzzyHistory st
            | [] => e_fuzzyHistory st
            end in
          let checkpoint := checkpoint -. (ap_min approach -. dec 0.002) in
          (with_history (with_checkpoint st checkpoint) (limit_history hist),
           looseAttempted, false)
        end
  end.

(** The loop over [patternApproaches]: the state after it, and
    [foundMatch]. *)
Fixpoint run_approaches (env : Env) (processedText textFixed converted : jsstring)
  (approaches : list Approach) (st : Engine) (looseAttempted : nat) : Engine * bool :=
  match approaches with
  | [] => (st, false)
  | approach :: rest =>
    let '(st, looseAttempted, foundMatch) :=
      approach_step env processedText textFixed converted approach st looseAttempted in
    if foundMatch then (st, true)
    else run_approaches env processedText textFixed converted rest st looseAttempted
  end.

Record Patterns := {
  standardPatternRegex : RegExp;
  customPatternRegex : option RegExp;
  loosePatternRegex : option RegExp;
  tinyPatternRegex : option RegExp
}.

Definition patternApproaches (ps : Patterns) (pass : Pass) : list Approach :=
  [ {| ap_pattern := Some (standardPatternRegex ps);
       ap_value := dec 0.5 *. pass_weight pass;
       ap_min := dec 0.014 *. pass_weight pass;
       ap_name := Standard |};
    {| ap_pattern := customPatternRegex ps;
       ap_value := dec 0.4 *. pass_weight pass;
       ap_min := dec 0.013 *. pass_weight pass;
       ap_name := Custom |};
    {| ap_pattern := loosePatternRegex ps;
       ap_value := dec 0.3 *. pass_weight pass;
       ap_min := dec 0.011 *. pass_weight pass;
       ap_name := Loose |};
    {| ap_pattern := tinyPatternRegex ps;
       ap_value := dec 0.25 *. pass_weight pass;
       ap_min := dec 0.005 *. pass_weight pass;
       ap_name := Tiny |} ].

(** The block run when [foundMatch] is set: the supporting keywords. *)
Definition supporting_keywords (env : Env) (converted : jsstring)
  (st : Engine) (analysis : option object) : Engine * option object :=
  let convertedLower := toLowerCase h converted in
  let keywordMatches :=
    filter (fun keyword =>
              negb (mem_str (toLowerCase h keyword) (env_domainSet env))
              && includes convertedLower (toLowerCase h keyword))
           (env_keywordList env) in
  let keywordMatchCount := len keywordMatches in
  if 0 <? keywordMatchCount then
    let keywordBonus :=
      min A (dec 1.5)
            (dec 0.03 *. (of_nat A keywordMatchCount /. dec 2) +. dec 0.7) in
    let checkpoint :=
      if gtb A (e_checkpoint st) (dec 0.45)
      then e_checkpoint st +. (keywordBonus -. dec 0.2)
      else e_checkpoint st -. dec 0.01 in
    (with_checkpoint st checkpoint,
     record (env_includeAnalysis env) "keywordMatchCount" (ACount keywordMatchCount)
       (record (env_includeAnalysis env) "supportingKeywords" (AStrings keywordMatches)
          analysis))
  else (st, analysis).

(** The loop over [ignore = 0 .. 6] for one pass: the state after it, and
    [detected]. *)
Fixpoint run_ignores (env : Env) (ps : Patterns) (pass : Pass) (processedText : jsstring)
  (ignores : list nat) (st : Engine) (analysis : option object)
  : Engine * option object * bool :=
  match ignores with
  | [] => (st, analysis, false)
  | ignore :: rest =>
    let textFixed := convertCommentFixed processedText (Some ignore) in
    let converted := combineShortWords (cleanWeirdPatterns textFixed) in
    let '(st, foundMatch) :=
      run_approaches env processedText textFixed converted (patternApproaches ps pass) st 0 in
    if foundMatch then
      let '(st, analysis) := supporting_keywords env converted st analysis in
      (st, analysis, true)
    else run_ignores env ps pass processedText rest st analysis
  end.

Definition detectionPasses : list Pass :=
  [ {| pass_converter := fun text => text; pass_weight := dec 1.0 |};
    {| pass_converter := fun text => cleanWeirdPatterns text; pass_weight := dec 0.9 |};
    {| pass_converter := fun text => combineShortWords (cleanWeirdPatterns text);
       pass_weight := dec 0.8 |} ].

(** The loop over [detectionPasses]. *)
Fixpoint run_passes (env : Env) (ps : Patterns) (merged : jsstring) (passes : list Pass)
  (st : Engine) (analysis : option object) : Engine * option object * bool :=
  match passes with
  | [] => (st, analysis, false)
  | pass :: rest =>
    let processedText := pass_converter pass merged in
    let '(st, analysis, detected) :=
      run_ignores env ps pass processedText (seq 0 7) st analysis in
    if detected then (st, analysis, true)
    else run_passes env ps merged rest st analysis
  end.

(** *** Scoring and decision *)

(** What [detect] has computed when the matching loops end. *)
Record Scored := {
  sc_rawText : jsstring;
  sc_text : jsstring;
  sc_hasGarbage : bool;
  sc_detected : bool;
  sc_checkpoint : num A;
  sc_analysis : option object;
  sc_matchedTerms : list jsstring;
  sc_allMatches : list jsstring;
  sc_contactInfo : option ContactInfo
}.

(** The guard of [detect]:
    [!text || typeof text !== 'string' || text.trim().length < 2] *)
Definition too_short (text : value) : bool :=
  match text with
  | VStr s => (len s =? 0) || (len (trim s) <? 2)
  | _ => true
  end.

Definition too_short_result (text : value) : DetectionResult :=
  {| isGambling := false;
     confidence := ConfNone;
     checkpoint := dec 0;
     details := js "Text too short for analysis";
     comment := text;
     analysis := None |}.

(** The keyword list built from [supportKeywords] and the blocklist. *)
Definition supportKeywordList (supportKeywords domainSet : list jsstring)
  : list jsstring :=
  let keywordList :=
    if 0 <? len supportKeywords then supportKeywords else defaultSupportKeywords in
  let keywordList :=
    if (len supportKeywords =? 0)
       || (negb (mem_str (js "wdp") supportKeywords)
           && negb (mem_str (js "win") supportKeywords))
    then dedupe (keywordList ++ defaultSupportKeywords)
    else keywordList in
  filter (fun word => negb (mem_str (toLowerCase h word) domainSet)
                      && (0 <? len (trim word)))
         keywordList.

(** The blocklist test on the merged text. *)
Definition domainMatched (domainSet : list jsstring) (lowerText : jsstring) : bool :=
  existsb (fun blocked =>
             includes lowerText blocked
             || test h (RegExp_new (js "\b(?:https?:\/\/)?(?:www\.)?"
                                    ++ escapeRegExp blocked ++ js "\b") (js "i"))
                     lowerText)
          domainSet.

(** [array.indexOf]: the position of the first element that satisfies
    [p] *)
Fixpoint index_where {T} (p : T -> bool) (l : list T) : option nat :=
  match l with
  | [] => None
  | x :: r => if p x then Some 0 else option_map S (index_where p r)
  end.

(** [detect] from the normalization of the text to the end of the
    matching loops (steps 1 to 14 of the source). *)
Definition score_text (text : jsstring) (options : Options) : outcome Scored :=
  let supportKeywords := or_default (supportKeywords options) [] in
  let domains := or_default (domains options) [] in
  let keywords := or_default (keywords options) defaultKeywords in
  let allowlist := or_default (allowlist options) [] in
  let sensitivityLevel := or_default (sensitivityLevel options) (dec 3) in
  let includeAnalysis := or_default (includeAnalysis options) false in
  let detectRepetition := or_default (detectRepetition options) true in
  let detectUrlPatterns := or_default (detectUrlPatterns options) true in
  let detectEvasionTechniques := or_default (detectEvasionTechniques options) true in
  let detectContextualIndicators := or_default (detectContextualIndicators options) true in
  let extractContactInfo := or_default (extractContactInfo options) true in
  let '(keyword, scorepoint) := extractKeywordArrays keywords in
  let sensitivityFactorNorm := morpoint sensitivityLevel in
  let checkpoint := dec 0 in
  let analysis : option object := if includeAnalysis then Some [] else None in
  let rawText :=
    trim (replace h (re "\s+" "g") (js " ")
            (replace h (re "\." "g") (js " . ")
               (replace h (re "\n" "g") (js " ") text))) in
  let domainSet := dedupe (map (toLowerCase h) domains) in
  let allowSet := dedupe (map (toLowerCase h) allowlist) in
  let keywordList := supportKeywordList supportKeywords domainSet in
  (* 1. garbage symbols *)
  let hasGarbage := isMostlyAsciiGarbage (VStr rawText) (Some (dec 0.45)) in
  let '(checkpoint, analysis) :=
    if hasGarbage
    then (checkpoint +. dec 0.4, record includeAnalysis "garbageDetected" (ABool true) analysis)
    else (checkpoint, analysis) in
  (* 2. repetition *)
  let '(checkpoint, analysis) :=
    if detectRepetition && hasAbnormalRepetition rawText None
    then (checkpoint +. dec 0.5,
          record includeAnalysis "repetitionDetected" (ABool true) analysis)
    else (checkpoint, analysis) in
  (* 3. URL patterns *)
  let '(checkpoint, analysis) :=
    if detectUrlPatterns && hasSuspiciousUrlPatterns rawText
    then (checkpoint +. dec 0.7,
          record includeAnalysis "suspiciousUrlDetected" (ABool true) analysis)
    else (checkpoint, analysis) in
  (* 4. code sequences and emojis *)
  let '(checkpoint, analysis) :=
    if hasSuspiciousCodeSequences rawText
    then (checkpoint +. dec 0.3,
          record includeAnalysis "suspiciousCodeSequences" (ABool true) analysis)
    else (checkpoint, analysis) in
  (* 5. evasion techniques *)
  let '(checkpoint, analysis) :=
    if detectEvasionTechniques then
      let evasionAnalysis := analyzeEvasionTechniques rawText in
      if gtb A (ev_score evasionAnalysis) (dec 0)
      then (checkpoint +. ev_score evasionAnalysis,
            record includeAnalysis "evasionScore" (ANum (ev_score evasionAnalysis))
              (record includeAnalysis "evasionTechniques"
                 (AStrings (ev_techniques evasionAnalysis)) analysis))
      else (checkpoint, analysis)
    else (checkpoint, analysis) in
  (* 6. contextual indicators *)
  let '(checkpoint, analysis) :=
    if detectContextualIndicators then
      let contextualIndicators := detectContextualGamblingIndicators rawText in
      if gtb A (ind_score contextualIndicators) (dec 0)
      then (checkpoint +. ind_score contextualIndicators,
            record includeAnalysis "contextualScore" (ANum (ind_score contextualIndicators))
              (record includeAnalysis "contextualIndicators"
                 (AStrings (ind_reasons contextualIndicators)) analysis))
      else (checkpoint, analysis)
    else (checkpoint, analysis) in
  (* 7. contact information *)
  let contactInfo :=
    if extractContactInfo then Some (extractContactInfos rawText) else None in
  let '(checkpoint, analysis) :=
    match contactInfo with
    | Some info =>
      if ci_found info
      then (checkpoint +. dec 0.4, record includeAnalysis "contactInfo" (AContact info) analysis)
      else (checkpoint, analysis)
    | None => (checkpoint, analysis)
    end in
  (* 8. clean and normalize *)
  let cleaned := cleanText rawText in
  let '(checkpoint, analysis) :=
    if negb (str_eqb cleaned rawText)
    then (checkpoint +. dec 0.3,
          record includeAnalysis "containsNonStandardChars" (ABool true) analysis)
    else (checkpoint, analysis) in
  (* 9. separated words *)
  let reconstructed := reconstructSeparatedWords cleaned in
  let '(checkpoint, analysis) :=
    if negb (str_eqb reconstructed cleaned)
    then (checkpoint +. dec 0.3,
          record includeAnalysis "wordSeparationDetected" (ABool true) analysis)
    else (checkpoint, analysis) in
  (* 10. numbers after words *)
  let merged := mergeTextWithTrailingNumbers reconstructed in
  let '(checkpoint, analysis) :=
    if negb (str_eqb merged reconstructed)
    then (checkpoint -. dec 0.3,
          record includeAnalysis "separatedNumbersDetected" (ABool true) analysis)
    else (checkpoint, analysis) in
  (* 11. language-specific patterns *)
  languagePatterns <- detectLanguageSpecificPatterns merged (language options) ;;
  let '(checkpoint, analysis) :=
    if gtb A (lang_score languagePatterns) (dec 0)
    then (checkpoint +. lang_score languagePatterns,
          record includeAnalysis "languageScore" (ANum (lang_score languagePatterns))
            (record includeAnalysis "languageSpecificMatches"
               (AStrings (lang_matches languagePatterns)) analysis))
    else (checkpoint, analysis) in
  (* blocklist *)
  let lowerText := toLowerCase h merged in
  let '(checkpoint, analysis) :=
    if domainMatched domainSet lowerText
    then (checkpoint +. dec 0.57,
          record includeAnalysis "blockedDomainDetected" (ABool true) analysis)
    else (checkpoint, analysis) in
  (* 12. pattern families *)
  let ps :=
    {| standardPatternRegex :=
         RegExp_new (js "\b([A-Z]?[a-zA-Z_+-]{2,}\d{2,10}\b(?!\.))|(slot|casino|gambling|bet|poker|jackpot|joker|zeus|toto|judi)(?:[a-zA-Z_+-]{0,4}[a-zA-Z])?")
                    (js "gi");
       customPatternRegex := createPatternRegex keyword None;
       loosePatternRegex := createPatternRegex keyword (Some true);
       tinyPatternRegex := TinyPatternRegex keyword |} in
  (* 14. fuzzy replacement in the text, fuzzy score on the reconstruction *)
  let fuzzyText := fuzzySearch keyword text None None in
  let text :=
    match filter (fun fuzzy => gtb A (score fuzzy) (dec 0.6)) fuzzyText with
    | first :: _ => replace_str (matched_word first) (matched_with first) text
    | [] => text
    end in
  let fuzzyText := fuzzySearch keyword reconstructed None None in
  let checkpoint :=
    if flagged analysis "garbageDetected" || flagged analysis "wordSeparationDetected"
       || flagged analysis "containsNonStandardChars"
    then
      match find (fun element =>
                    (0 <? len (matched_with element))
                    && mem_str (matched_with element) keyword)
                 fuzzyText with
      | Some element =>
        match index_where (str_eqb (matched_with element)) keyword with
        | Some keywordIndex =>
          match nth_error scorepoint keywordIndex with
          | Some weight =>
            let scoreIncrement := if geb A weight (dec 1) then dec 0.06 else weight in
            checkpoint +. scoreIncrement
          | None => checkpoint
          end
        | None => checkpoint
        end
      | None => checkpoint
      end
    else checkpoint in
  (* 13. the matching loops *)
  let env :=
    {| env_text := text; env_keyword := keyword; env_keywordList := keywordList;
       env_domainSet := domainSet; env_allowSet := allowSet;
       env_sensitivityFactorNorm := sensitivityFactorNorm;
       env_includeAnalysis := includeAnalysis |} in
  let st := {| e_checkpoint := checkpoint; e_allMatches := []; e_matchedTerms := [];
               e_fuzzyHistory := [] |} in
  let '(st, analysis, detected) := run_passes env ps merged detectionPasses st analysis in
  Return {| sc_rawText := rawText;
            sc_text := text;
            sc_hasGarbage := hasGarbage;
            sc_detected := detected;
            sc_checkpoint := e_checkpoint st;
            sc_analysis := analysis;
            sc_matchedTerms := e_matchedTerms st;
            sc_allMatches := e_allMatches st;
            sc_contactInfo := contactInfo |}.

(** The final evaluation: which verdict the checkpoint gets. *)
Definition classify (thresholds : ConfidenceThresholds) (detected hasGarbage : bool)
  (checkpoint : num A) : bool * Confidence * jsstring :=
  if detected || geb A checkpoint (low thresholds) then
    if geb A checkpoint (high thresholds)
    then (true, ConfHigh, js "✅ Gambling content detected with high confidence")
    else if geb A checkpoint (medium thresholds)
    then (true, ConfMedium, js "✅ Gambling content likely detected")
    else if geb A checkpoint (low thresholds)
    then (true, ConfLow, js "⚠️ Possible gambling content (manual review recommended)")
    else (false, ConfNone, js "No gambling content detected")
  else if hasGarbage
  then (true, ConfMedium, js "⚠️ Suspicious content detected (excessive symbol usage)")
  else (false, ConfNone, js "No gambling content detected").

(** [detect] from the content metrics to the result (steps 15 and 16). *)
Definition finalize (options : Options) (sc : Scored) : DetectionResult :=
  let sensitivityLevel := or_default (sensitivityLevel options) (dec 3) in
  let includeAnalysis := or_default (includeAnalysis options) false in
  let confidenceThresholds := confidenceThresholds sensitivityLevel in
  let sensitivityFactorNorm := morpoint sensitivityLevel in
  let rawText := sc_rawText sc in
  let checkpoint := sc_checkpoint sc in
  let analysis := sc_analysis sc in
  let wordCount := match_count h (re "\b\w+\b" "g") rawText in
  let charCount := len rawText in
  let avgWordLength :=
    if 0 <? wordCount then of_nat A charCount /. of_nat A wordCount else dec 0 in
  let hasGamblingContentLength :=
    (5 <=? wordCount) && (wordCount <=? 50) || (30 <=? charCount) && (charCount <=? 500) in
  let '(checkpoint, analysis) :=
    if hasGamblingContentLength
    then (checkpoint +. dec 0.2,
          record includeAnalysis "contentLengthSuspicious" (ABool true) analysis)
    else (checkpoint, analysis) in
  let '(checkpoint, analysis) :=
    if gtb A avgWordLength (dec 12)
    then (checkpoint +. dec 0.3,
          record includeAnalysis "longAvgWordLength" (ANum avgWordLength) analysis)
    else (checkpoint, analysis) in
  let checkpoint := parseNumber checkpoint sensitivityFactorNorm in
  let resultAnalysis :=
    if includeAnalysis then
      let o := or_default analysis [] in
      let o := set_prop "matchedTerms" (AStrings (sc_matchedTerms sc)) o in
      let o := set_prop "allMatches"
                 (AStrings (if 0 <? len (sc_allMatches sc)
                            then dedupe (sc_allMatches sc) else [])) o in
      let o := set_prop "contentMetrics"
                 (AMetrics {| wordCount := wordCount; charCount := charCount;
                              avgWordLength := toFixed A 2 avgWordLength |}) o in
      match sc_contactInfo sc with
      | Some info => if ci_found info then Some (set_prop "contactInfo" (AContact info) o)
                     else Some o
      | None => Some o
      end
    else None in
  let '(isGambling, confidence, details) :=
    classify confidenceThresholds (sc_detected sc) (sc_hasGarbage sc) checkpoint in
  {| isGambling := isGambling;
     confidence := confidence;
     checkpoint := toFixed A 2 checkpoint;
     details := details;
     comment := VStr (sc_text sc);
     analysis := resultAnalysis |}.

(** [detect(text = "", options = {})] *)
Definition detect (text : value) (options : Options) : outcome DetectionResult :=
  let text := match text with VUndefined => VStr [] | _ => text end in
  if too_short text then Return (too_short_result text)
  else match text with
       | VStr s => sc <- score_text s options ;; Return (finalize options sc)
       | _ => Return (too_short_result text)
       end.

(** [detectBatch(texts, options = {})]: the value the returned promise
    is fulfilled with, or the exception it is rejected with.
    [to_string] is [String(texts)]. *)
Definition detectBatch (to_string : value -> jsstring) (texts : value) (options : Options)
  : outcome (list DetectionResult) :=
  match texts with
  | VArr items => traverse (fun text => detect text options) items
  | _ => r <- detect (VStr (to_string texts)) options ;; Return [r]
  end.

End Detector.
End GamblingDetector.

(* ------------------------------------------------------------------ *)
(** * Specification-side definitions

    What the statements below are phrased with: the observable part of a
    result, the option objects of the calls that are examined, and the
    quantities of the specification written from its words. *)

Import GamblingDetector.

(** [true] when the pattern text parses. *)
Definition parses (pattern : jsstring) : bool :=
  match Regex.parse_pattern pattern with Some _ => true | None => false end.

(** The regular expression literals of the detector, as written in the
    definitions above. *)
Definition regex_literals : list (string * string) :=
  [
    ("[\u0300-\u036f]", "g");
    ("[^a-zA-Z0-9\s\.,!?]", "g");
    ("(.)\1{3,}", "g");
    ("\b\w+\b", "g");
    ("\s+", "g");
    ("(\w)\s*\.\s*(\w)", "g");
    ("(\w)[\s.*_\-|+=:;,']+(\w)", "g");
    ("\s+(\w)\s+(\w)\s+(\w)\s+", "g");
    ("\b([a-zA-Z]{1,3})\s+([a-zA-Z]{1,3})\b", "g");
    ("\b([a-zA-Z]{1,3})\s+([a-zA-Z]{1,3})\s+([a-zA-Z]{1,3})\b", "g");
    ("\b\w+\.(com|net|io|xyz|site|online|id|org|gz|en|uk|int|edu|gov|ren|xin|[A-Z]?[a-zA-Z_+-]{2,8})", "gi");
    ("\bbit\.ly\/\w+", "gi");
    ("\w+\s*\.\s*\w+\s*\/\s*\w+", "gi");
    ("h\s*t\s*t\s*p\s*s?", "gi");
    ("w\s*w\s*w\s*\.\s*\w+", "gi");
    ("\b(?:t(?:\.)?me|t(?:\.)?ly|is\.gd|goo\.gl|v\.gd|bit\.ly|tinyurl)", "gi");
    ("\bwa\.me\/\d+", "gi");
    ("\bt(?:\.)?g\/\w+", "gi");
    ("\blink(?:\.)?in\/bio", "gi");
    ("\b([a-zA-Z0-9_-]+)[\s.*_\-|+=:;]+([a-zA-Z]{2,5})\b", "g");
    ("\s+$", "");
    ("\b(?:bet(?:ting)?|wager|casino|poker|slot|roulette|jackpot|gambling)\b", "i");
    ("\b(?:online\s+gaming|sports\s+betting|odds|bookmaker|bookie)\b", "i");
    ("\b(?:deposit|withdraw|bonus|free\s+spin|vip\s+member|promo\s+code)\b", "i");
    ("\b(?:judi|togel|gacor|maxwin|slot|toto|rolet|kasino|bandar)\b", "i");
    ("\b(?:taruhan|pasang|daftar|situs|bo|link\s+alternatif|akun|member)\b", "i");
    ("\b(?:menang|jackpot|deposit|withdraw|bonus|spin|prediksi|bocoran)\b", "i");
    ("\b(?:博彩|赌场|赌博|投注|老虎机|轮盘|扑克|百家乐)\b", "i");
    ("\b(?:押注|下注|返水|彩金|奖金|优惠|免费旋转)\b", "i");
    ("\b(?:cá\s+cược|đánh\s+bạc|sòng\s+bạc|khe|xổ\s+số|cược)\b", "i");
    ("\b(?:tiền\s+thưởng|quay\s+miễn\s+phí|đặt\s+cược|trúng)\b", "i");
    ("\b(?:การพนัน|คาสิโน|สล็อต|พนัน|เดิมพัน|แทง)\b", "i");
    ("\b(?:โบนัส|ฟรีสปิน|ถอนเงิน|ฝากเงิน|สมัคร)\b", "i");
    ("[0-9!&@#$?+*_%|]", "gi");
    ("\b([A-Z]?[a-zA-Z_+-]{2,}\d{0,10})((?:\s+\d+)+)\b(?!\.)", "g");
    ("\d+", "g");
    ("\b([A-Z]?[a-zA-Z_+-]{2,}\d{0,10})[\s.-]+(\d+)\b", "g");
    ("\b([A-Z]?[a-zA-Z_+-]{2,})\s+(\d+)\s+([a-zA-Z_+-]{2,})\b", "g");
    ("[.*+?^${}()|[\]\\]", "g");
    ("\b[a-zA-Z]\s+[a-zA-Z]\b", "");
    ("\b[a-zA-Z][^a-zA-Z0-9\s]{1,2}[a-zA-Z]\b", "");
    ("\b([a-zA-Z])[\s.*_\-|+=:;,']([a-zA-Z])\b", "");
    ("\b([a-zA-Z])\s+([a-zA-Z])\s+([a-zA-Z])\s+([a-zA-Z])\b", "gi");
    ("\b([a-zA-Z])\s+([a-zA-Z])\s+([a-zA-Z])\b", "gi");
    ("\b([a-zA-Z])\s+([a-zA-Z])\b", "gi");
    ("\b([a-zA-Z])[.\-_*|+=:;,']([a-zA-Z])\b", "gi");
    ("\b([a-zA-Z])[.\-_*|+=:;,']([a-zA-Z])[.\-_*|+=:;,']([a-zA-Z])\b", "gi");
    ("\b([a-zA-Z])[.\-_*|+=:;,']([a-zA-Z])[.\-_*|+=:;,']([a-zA-Z])[.\-_*|+=:;,']", "g");
    ("\b([a-zA-Z])([.\-_*|+=:;,'])([a-zA-Z])([.\-_*|+=:;,'])([a-zA-Z])([.\-_*|+=:;,'])([a-zA-Z])\b", "gi");
    ("[🎰🎲🎯🎮🎪🎭💰💸💵💴💶💷🏆🥇🥈🥉🏅🎖️🎗️🎫🎟️🎁🎀😎😍😂🤔🤙🤘🏻🎯🎪🎭🃏♠️♥️♦️♣️🎴🀄️🎨🎬🔢🎱🎳🎾🏈⚽️🏀🏉🎾🎽👑💎💲💹🧧💱📊📈📉🔝🔥⭐️👏👍👌✨🚀]", "g");
    ("[🎰🎲🎯🎪💰💸💵🏆🎫🎟️🃏♠️♥️♦️♣️🎴🀄️🎱💲💹🧧💱🎯🎭🎨🎬🔝🔥⭐️🚀]", "g");
    ("\b[A-Z][0-9][A-Z0-9]{2,}\b|\b[A-Z]{2,}[0-9]{2,}\b", "g");
    ("\b[Ss][1l][0Oo][Tt]\b|\b[Bb][0Oo][0Oo][Nn][Uu][Ss]\b|\b[Jj][4Aa][Cc][Kk][Pp][0Oo][Tt]\b|\b[Bb][3Ee][Tt]\b|\b[Ww][1lI][Nn]\b|\b[Cc][4Aa][Ss][1lI][Nn][0Oo]\b|\b[Pp][0Oo][Kk][3Ee][Rr]\b", "g");
    ("\b(?:min(?:imum)?\s*dep(?:osit)?|min\s*wd|wd\s*min)\b.*?(?:\d+[kK]?|ribu|juta|rb)", "i");
    ("\b(?:deposit|withdrawal|cashout|bayar)\b.*?(?:\d+[kK]?|ribu|juta|rb)", "i");
    ("\b(?:bonus|promo|free)\b.*?(?:\d+%|\d+[kK]?|ribu|juta|rb)", "i");
    ("\b(?:win|menang|dapat|untung)\b.*?(?:\d+[xX]|\d+[kK]?|ribu|juta|rb)", "i");
    ("\b(?:today|hari\s*ini|sekarang|now|langsung)\b.*?(?:bonus|promo|free)", "i");
    ("\b(?:limited|terbatas|hanya|only)\b.*?(?:time|waktu|hari|jam)", "i");
    ("\b(?:cs|customer\s*service|layanan\s*pelanggan|admin|help\s*desk)\b", "i");
    ("\b(?:wa|whatsapp|telegram|line|chat)\b.*?(?:\d{4,}|online|24\s*(?:jam|hours))", "i");
    ("\b(?:kontak|contact|hubungi)\b.*?(?:wa|whatsapp|telegram|line|chat)", "i");
    ("\b(?:bank|bca|bni|bri|mandiri|dana|ovo|gopay|linkaja|pulsa|e-wallet|wallet|dompet|payment|pembayaran)\b", "i");
    ("\b(?:all\s*bank|semua\s*bank|bank\s*lokal|local\s*bank)\b", "i");
    ("\b[a-zA-Z]*[0-9!@#$%^&*][a-zA-Z0-9!@#$%^&*]*[a-zA-Z]+[a-zA-Z0-9!@#$%^&*]*\b", "g");
    ("\b[a-zA-Z]+[0-9]{3,}\b", "g");
    ("\s{2,}", "");
    ("[a-zA-Z]\s[a-zA-Z]\s[a-zA-Z]", "");
    ("[a-z][A-Z]|[A-Z][a-z][A-Z]", "");
    ("\b\w{4,}\b", "g");
    ("\b(?:wa|whatsapp|w4|wea)[\s.:]*(?:\+?\d{8,15}|\+?\d{2,4}[-\s]?\d{2,4}[-\s]?\d{2,5})\b", "gi");
    ("\b(?:telegram|tele|t\.me|tg)[\s.:]*(?:@\w+|\+?\d{8,15})", "gi");
    ("\b(?:tel|telp|hp|phone|hubungi|call)[\s.:]*(?:\+?\d{8,15}|\+?\d{2,4}[-\s]?\d{2,4}[-\s]?\d{2,5})\b", "gi");
    ("\b(?:ig|instagram|insta)[\s.:]*(?:@\w+|\w+)", "gi");
    ("\b(?:line|ln)[\s.:]*(?:@\w+|\w+)", "gi");
    ("\b(?:https?:\/\/)?(?:www\.)?([a-zA-Z0-9-]+)(?:\.[a-zA-Z0-9-]+)+(?:\/[^\s]*)?", "gi");
    ("\s+", "");
    ("\b[a-zA-Z]{2,3}\d{1,5}\b", "gi");
    ("\b[a-zA-Z]{3,}\d{2,}\b", "gi");
    ("\b[a-zA-Z]{3,}\d{2,5}\b", "gi");
    ("\.", "g");
    ("\n", "g") ]%string.

(** The pattern of [standardPatternRegex]. *)
Definition standardPattern : string :=
  "\b([A-Z]?[a-zA-Z_+-]{2,}\d{2,10}\b(?!\.))|(slot|casino|gambling|bet|poker|jackpot|joker|zeus|toto|judi)(?:[a-zA-Z_+-]{0,4}[a-zA-Z])?".

(** ** Results *)

(** What a call of [detect] decides: [isGambling], [confidence] and
    [checkpoint] of its result. *)
Definition verdict {A} (o : outcome (DetectionResult A))
  : option (bool * Confidence * num A) :=
  match o with
  | Return r => Some (isGambling r, confidence r, checkpoint r)
  | Throw _ => None
  end.

(** Whether the matching loops of a run ended with [detected] set. *)
Definition detected_in {A} (o : outcome (Scored A)) : option bool :=
  match o with
  | Return sc => Some (sc_detected sc)
  | Throw _ => None
  end.

(** The list of strings the analysis of a result holds under a key. *)
Definition reported {A} (key : string) (o : outcome (DetectionResult A))
  : option (list jsstring) :=
  match o with
  | Return r =>
    match analysis r with
    | Some an => match get_prop key an with
                 | Some (AStrings _ l) => Some l
                 | _ => None
                 end
    | None => None
    end
  | Throw _ => None
  end.

(** ** Option objects *)

(** [{ sensitivityLevel: level }] *)
Definition at_level (A : Arith) (level : Q) : Options A :=
  {| supportKeywords := None; domains := None; keywords := None; allowlist := None;
     sensitivityLevel := Some (of_Q A level); includeAnalysis := None;
     detectRepetition := None; detectUrlPatterns := None;
     detectEvasionTechniques := None; detectContextualIndicators := None;
     extractContactInfo := None; language := None; debug := None |}.

(** [{ includeAnalysis: flag }] *)
Definition with_analysis (A : Arith) (flag : bool) : Options A :=
  {| supportKeywords := None; domains := None; keywords := None; allowlist := None;
     sensitivityLevel := None; includeAnalysis := Some flag;
     detectRepetition := None; detectUrlPatterns := None;
     detectEvasionTechniques := None; detectContextualIndicators := None;
     extractContactInfo := None; language := None; debug := None |}.

(** [{ allowlist: terms, includeAnalysis: flag }] *)
Definition allowing (A : Arith) (terms : list jsstring) (flag : bool) : Options A :=
  {| supportKeywords := None; domains := None; keywords := None;
     allowlist := Some terms;
     sensitivityLevel := None; includeAnalysis := Some flag;
     detectRepetition := None; detectUrlPatterns := None;
     detectEvasionTechniques := None; detectContextualIndicators := None;
     extractContactInfo := None; language := None; debug := None |}.

(** ** Thresholds and cap *)

Definition clamp (x lo hi : Q) : Q :=
  if Qlt_le_dec x lo then lo else if Qlt_le_dec hi x then hi else x.

(** The thresholds in the words of the specification. *)
Definition spec_factor (sensitivityLevel : Q) : Q := (clamp sensitivityLevel 1 5 / 3)%Q.
Definition spec_low (f : Q) : Q := Qmax 0.45 (0.5 * f).
Definition spec_medium (f : Q) : Q := Qmax 0.9 (0.8 * f).
Definition spec_high (f : Q) : Q := Qmax 1.2 (2.5 * f).

(** The order of the thresholds of the binary64 arithmetic at a level. *)
Definition binary64_thresholds_ordered (z : Z) : bool :=
  let t := confidenceThresholds FloatArith (of_Q FloatArith (inject_Z z)) in
  leb FloatArith (low t) (medium t) && leb FloatArith (medium t) (high t).

(** The cap in the words of the specification: the reversed mapping of
    the level, a level of 0 or less counting as 0. *)
Definition sensitivityCap (level : Z) : Z :=
  match level with
  | 1 => 5 | 2 => 4 | 3 => 3 | 4 => 2 | 5 => 1
  | _ => 0
  end%Z.

(** ** The allowlist *)

Section AllowSet.
Variable h : Host.
Variable A : Arith.

(** No recorded match is (case-insensitively) in the allowlist set. *)
Definition clear_of (allowSet : list jsstring) (st : Engine A) : Prop :=
  Forall (fun m => mem_str (toLowerCase h m) allowSet = false) (e_allMatches st)
  /\ Forall (fun t => mem_str t allowSet = false) (e_matchedTerms st).

(** The set [detect] builds from the allowlist. *)
Definition allowSet_of (options : Options A) : list jsstring :=
  dedupe (map (toLowerCase h) (or_default (allowlist options) [])).

End AllowSet.

(** ** Inputs *)

(** An input that is empty, not a string, or shorter than 2 once trimmed. *)
Definition short_input (text : value) : Prop :=
  match text with
  | VStr s => s = [] \/ List.length (trim s) < 2
  | _ => True
  end.

Definition is_array (v : value) : bool :=
  match v with VArr _ => true | _ => false end.
Definition is_string (v : value) : bool :=
  match v with VStr _ => true | _ => false end.
Definition blank (v : value) : bool :=
  match v with VStr q => List.length (trim q) =? 0 | _ => false end.
Definition all_strings (v : value) : bool :=
  match v with
  | VArr items => match strings_of items with Some _ => true | None => false end
  | _ => false
  end.

Definition clean_sentence : jsstring :=
  js "This is a normal sentence with no gambling content.".

(** ** The garbage ratio *)

(** A code unit outside [[A-Za-z0-9\s.,!?]]. *)
Definition is_garbage (c : N) : bool :=
  negb (is_lower c || is_upper c || is_digit c || is_space c
        || (c =? 46)%N || (c =? 44)%N || (c =? 33)%N || (c =? 63)%N).

Definition garbage_count (s : jsstring) : nat := List.length (filter is_garbage s).

Definition asciiGarbageRegex : RegExp := re "[^a-zA-Z0-9\s\.,!?]" "g".

(** 9 garbage code units out of 20, and 449 out of 1000. *)
Definition garbage_45_percent : jsstring := repeat 35%N 9 ++ repeat 97%N 11.
Definition garbage_44_9_percent : jsstring := repeat 35%N 449 ++ repeat 97%N 551.

(** ** Weights of the evasion techniques *)

(** The weight [analyzeEvasionTechniques] adds for a technique it reports. *)
Definition technique_weight (technique : jsstring) : Q :=
  if str_eqb technique (js "character_substitution") then 0.3
  else if str_eqb technique (js "word_separation") then 0.4
  else if str_eqb technique (js "unusual_spacing") then 0.2
  else if str_eqb technique (js "mixed_case") then 0.2
  else if str_eqb technique (js "reversed_text") then 0.5
  else 0.

Definition total_weight (techniques : list jsstring) : Q :=
  fold_right (fun t acc => (technique_weight t + acc)%Q) 0%Q techniques.

(** ** Expressions that match one code unit *)

(** The match of one code unit [c] at position [pos], before [rest]. *)
Definition unit_match (groups : nat) (pos : nat) (c : N) (rest : jsstring) : rmatch_result :=
  {| m_start := pos; m_end := S pos; m_text := [c];
     m_caps := repeat None groups;
     m_after := MS (Some c) rest (S pos) (repeat None groups) |}.

(** A string in which every code unit that satisfies [p] is replaced by
    what [f] gives for its match. *)
Fixpoint replace_units (p : N -> bool) (groups : nat) (f : rmatch_result -> jsstring)
  (pos : nat) (s : jsstring) : jsstring :=
  match s with
  | [] => []
  | c :: rest =>
    (if p c then f (unit_match groups pos c rest) else [c])
      ++ replace_units p groups f (S pos) rest
  end.

(** The characters [escapeRegExp] puts a backslash before. *)
Definition is_syntax_character (c : N) : bool :=
  existsb (N.eqb c) (js ".*+?^${}()|[]\").

Definition escape_unit (c : N) : jsstring :=
  if is_syntax_character c then [ch "\"; c] else [c].

(** [s] with every [k] replaced by [v]. *)
Definition substitute (k v : N) (s : jsstring) : jsstring :=
  map (fun x => if (k =? x)%N then v else x) s.

(** The keys of [charMap]. *)
Definition leet_characters : jsstring := flat_map (fun entry => js (fst entry)) charMap.

(** The expression [new RegExp(char, 'g')] for a character that is not a
    syntax character. *)
Definition char_regex (k : N) : RegExp :=
  {| re_ast := RChar k; re_groups := 0; re_global := true; re_icase := false |}.

(** ** Auxiliary definitions of the proofs *)

Section Rows.

(** A property [G ap bp v] of the entry [v] of the edit-distance table for
    the prefixes [ap] of [a] and [bp] of [b]. *)
Variable G : jsstring -> jsstring -> nat -> Prop.

(** The entries of a row from the column after [bp] on. *)
Fixpoint row_ok (ap bp bs : jsstring) (row : list nat) : Prop :=
  match bs, row with
  | [], [] => True
  | bj :: bs', v :: row' => G ap (bp ++ [bj]) v /\ row_ok ap (bp ++ [bj]) bs' row'
  | _, _ => False
  end.

End Rows.

Section UnitMatches.

Variable groups : nat.
Variable p : N -> bool.

(** The matches, in [rest] which starts at [pos], of an expression with
    [groups] capturing groups that matches the code units satisfying
    [p]. *)
Fixpoint unit_matches (pos : nat) (rest : jsstring) : list rmatch_result :=
  match rest with
  | [] => []
  | c :: rest' =>
    if p c then unit_match groups pos c rest' :: unit_matches (S pos) rest'
    else unit_matches (S pos) rest'
  end.

End UnitMatches.

(** ** Heads of pattern texts *)

(** The text does not start with a quantifier. *)
Definition no_quantifier (s : jsstring) : bool :=
  match s with
  | [] => true
  | c :: _ => negb ((c =? ch "*") || (c =? ch "+") || (c =? ch "?") || (c =? ch "{"))%N
  end.

(** The text starts a term: it is not at the end of an alternative. *)
Definition starts_term (s : jsstring) : bool :=
  match s with
  | [] => false
  | c :: _ => negb ((c =? ch "|") || (c =? ch ")"))%N
  end.

(** The text does not go on with another alternative. *)
Definition ends_disjunction (s : jsstring) : bool :=
  match s with
  | [] => true
  | c :: _ => negb (c =? ch "|")%N
  end.

(** ** Sequences of literal characters *)

(** The term [t] followed by the alternative [a], as the parser builds
    it. *)
Definition then_regex (t a : regex) : regex :=
  match a with
  | REmpty => t
  | _ => RSeq t a
  end.

(** The characters of [s], one after the other, then [a]. *)
Definition literal (s : jsstring) (a : regex) : regex :=
  fold_right (fun c a => then_regex (RChar c) a) a s.

(** ** Positions of matches *)

(** The state [x] is at a position of the text [s]. *)
Definition inside (s : jsstring) (x : mstate) : Prop :=
  ms_pos x <= List.length s /\ ms_rest x = skipn (ms_pos x) s.

(** Matches that follow one another in a text of [n] code units, from
    position [pos] on, each with the text between its bounds. *)
Fixpoint chained (n : nat) (pos : nat) (ms : list rmatch_result) : Prop :=
  match ms with
  | [] => True
  | m :: ms' =>
    pos <= m_start m /\ m_start m <= m_end m /\ m_end m <= n
    /\ List.length (m_text m) = m_end m - m_start m
    /\ chained n (m_end m) ms'
  end.

(** ** [getLanguagePatterns] *)

(** The supporting keywords and the domains of a language. *)
Record LanguageKeywords := {
  lk_supportKeywords : list jsstring;
  lk_domains : list jsstring
}.

(** The table [patterns] of [getLanguagePatterns], in the order of
    [Object.values]. *)
Definition keywordPatterns : list (string * LanguageKeywords) :=
  [ ("en",
     {| lk_supportKeywords :=
          map js ["bet"; "casino"; "gambling"; "jackpot"; "poker"; "slot"; "win"; "deposit";
                  "bonus"; "spin"; "play"; "vip"; "fortune"; "lucky"; "prize"; "free"];
        lk_domains :=
          map js ["bet"; "casino"; "gambling"; "play"; "game"; "win"; "luck"; "fortune";
                  "vegas"] |});
    ("id",
     {| lk_supportKeywords :=
          map js ["judi"; "slot"; "togel"; "maxwin"; "gacor"; "menang"; "jackpot"; "deposit";
                  "bonus"; "daftar"; "situs"; "link"; "alternatif"; "terpercaya"; "terbaik";
                  "resmi"];
        lk_domains :=
          map js ["slot"; "togel"; "judi"; "bet"; "toto"; "game"; "win"; "gacor"; "maxwin";
                  "untung"] |});
    ("vi",
     {| lk_supportKeywords :=
          map js ["cá cược"; "đánh bạc"; "sòng bạc"; "khe"; "xổ số"; "thắng"; "tiền thưởng";
                  "quay miễn phí"; "đặt cược"; "may mắn"; "đăng ký"; "người chơi"; "vip";
                  " ca cuoc "; " danh bac "; " song bac "; " khe "; " xo so "; " thang ";
                  " tien thuong "; " quay mien phi "; " dat cuoc "; " may man "; " dang ky ";
                  " nguoi choi "];
        lk_domains :=
          map js ["casino"; "bet"; "win"; "slot"; "game"; "lucky"; "vip"; "play"; "cược";
                  "thắng"] |});
    ("th",
     {| lk_supportKeywords :=
          map js ["การพนัน"; "คาสิโน"; "สล็อต"; "พนัน"; "เดิมพัน"; "แทง"; "โบนัส"; "ฟรีสปิน";
                  "ถอนเงิน"; "ฝากเงิน"; "สมัคร"; "รับโบนัส"; "โชคดี"; "ชนะ"; "เล่น"];
        lk_domains :=
          map js ["คาสิโน"; "สล็อต"; "พนัน"; "เดิมพัน"; "แทง"; "โบนัส"; "ชนะ"; "เล่น"; "casino";
                  "bet"] |}) ]%string.

(** [patterns[language]]: an entry of the table, or a property that the
    table inherits from [Object.prototype], or [undefined]. *)
Inductive pattern_lookup :=
| OwnEntry (entry : LanguageKeywords)
| InheritedProperty (name : jsstring)
| NoProperty.

Fixpoint lookup_keywords (lang : jsstring) (l : list (string * LanguageKeywords))
  : option LanguageKeywords :=
  match l with
  | [] => None
  | (k, v) :: r => if str_eqb (js k) lang then Some v else lookup_keywords lang r
  end.

Definition pattern_property (lang : jsstring) : pattern_lookup :=
  match lookup_keywords lang keywordPatterns with
  | Some entry => OwnEntry entry
  | None => if mem_str lang inherited_properties then InheritedProperty lang
            else NoProperty
  end.

(** [getLanguagePatterns(language = 'all')]: the keywords of a language,
    or the inherited property the language names (every one of them is
    truthy, so [||] keeps it). *)
Definition getLanguagePatterns (language : option jsstring) : pattern_lookup :=
  let language := match language with Some l => l | None => js "all" end in
  if str_eqb language (js "all") then
    let combined :=
      fold_left (fun combined '(_, langPatterns) =>
                   {| lk_supportKeywords :=
                        lk_supportKeywords combined ++ lk_supportKeywords langPatterns;
                      lk_domains := lk_domains combined ++ lk_domains langPatterns |})
                keywordPatterns
                {| lk_supportKeywords := []; lk_domains := [] |} in
    OwnEntry {| lk_supportKeywords := dedupe (lk_supportKeywords combined);
                lk_domains := dedupe (lk_domains combined) |}
  else
    match pattern_property language with
    | NoProperty => pattern_property (js "en")
    | found => found
    end.

(** ** The checkpoint before rounding *)

(** The checkpoint of [detect] once the content length and the average
    word length are counted and [parseNumber] has clamped it (step 15 of
    the source, to the line before the final evaluation): the value the
    final evaluation compares with the thresholds, and rounds for the
    result. *)
Definition finalCheckpoint (h : Host) (A : Arith) (options : Options A) (sc : Scored A)
  : num A :=
  let sensitivityLevel := or_default (sensitivityLevel options) (of_Q A 3) in
  let sensitivityFactorNorm := morpoint A sensitivityLevel in
  let rawText := sc_rawText sc in
  let checkpoint := sc_checkpoint sc in
  let wordCount := match_count h (re "\b\w+\b" "g") rawText in
  let charCount := List.length rawText in
  let avgWordLength :=
    if 0 <? wordCount then div A (of_nat A charCount) (of_nat A wordCount)
    else of_Q A 0 in
  let hasGamblingContentLength :=
    (5 <=? wordCount) && (wordCount <=? 50) || (30 <=? charCount) && (charCount <=? 500) in
  let checkpoint :=
    if hasGamblingContentLength then add A checkpoint (of_Q A 0.2) else checkpoint in
  let checkpoint :=
    if gtb A avgWordLength (of_Q A 12) then add A checkpoint (of_Q A 0.3) else checkpoint in
  parseNumber A checkpoint sensitivityFactorNorm.

(* ------------------------------------------------------------------ *)
(** * Properties *)

(** ** Strings *)

Lemma str_eqb_eq a b : str_eqb a b = true <-> a = b.
Proof.
  revert b; induction a as [|x a IH]; intros [|y b]; simpl; split; try congruence; try easy.
  - rewrite andb_true_iff, N.eqb_eq, IH. intros [-> ->]; reflexivity.
  - intros H; injection H as -> ->. rewrite N.eqb_refl. simpl. apply IH. reflexivity.
Qed.

Lemma mem_str_In s l : mem_str s l = true <-> In s l.
Proof.
  unfold mem_str. rewrite existsb_exists. split.
  - intros [x [Hin Heq]]. apply str_eqb_eq in Heq. subst. exact Hin.
  - intros Hin. exists s. split; [exact Hin | apply str_eqb_eq; reflexivity].
Qed.

(** ** Regular expression literals *)

(** Every regular expression literal of the detector parses, and so do
    the keys of [charMap] and the pattern of [standardPatternRegex]. *)
Lemma regex_literals_parse :
  forallb (fun l => parses (js (fst l))) regex_literals = true
  /\ forallb (fun c => parses (js (fst c))) charMap = true
  /\ parses (js standardPattern) = true.
Proof. repeat split; vm_compute; reflexivity. Qed.

(** ** Facts about the exact arithmetic *)

Lemma exact_leb (a b : Q) : leb ExactArith a b = true <-> (a <= b)%Q.
Proof. apply Qle_bool_iff. Qed.

Lemma exact_ltb (a b : Q) : ltb ExactArith a b = true <-> (a < b)%Q.
Proof.
  simpl. rewrite negb_true_iff. split.
  - intros H. apply Qnot_le_lt. intros Hle. apply Qle_bool_iff in Hle. congruence.
  - intros H. destruct (Qle_bool b a) eqn:E; [|reflexivity].
    apply Qle_bool_iff in E. exfalso. exact (Qlt_not_le _ _ H E).
Qed.

Lemma exact_ltb_false (a b : Q) : ltb ExactArith a b = false <-> (b <= a)%Q.
Proof.
  simpl. rewrite negb_false_iff. apply Qle_bool_iff.
Qed.

Lemma exact_max (a b : Q) : (max ExactArith a b == Qmax a b)%Q.
Proof.
  unfold max. cbn [isNaN ExactArith].
  destruct (ltb ExactArith a b) eqn:E.
  - apply exact_ltb in E. symmetry. apply Q.max_r. apply Qlt_le_weak. exact E.
  - apply exact_ltb_false in E. symmetry. apply Q.max_l. exact E.
Qed.

Lemma exact_min (a b : Q) : (min ExactArith a b == Qmin a b)%Q.
Proof.
  unfold min. cbn [isNaN ExactArith].
  destruct (ltb ExactArith b a) eqn:E.
  - apply exact_ltb in E. symmetry. apply Q.min_r. apply Qlt_le_weak. exact E.
  - apply exact_ltb_false in E. symmetry. apply Q.min_l. exact E.
Qed.

Lemma clamp_max_min (x : Q) : (Qmax 1 (Qmin 5 x) == clamp x 1 5)%Q.
Proof.
  unfold clamp. destruct (Qlt_le_dec x 1) as [H|H].
  - rewrite Q.min_r by (apply Qlt_le_weak; eapply Qlt_trans; [exact H | reflexivity]).
    apply Q.max_l. apply Qlt_le_weak. exact H.
  - destruct (Qlt_le_dec 5 x) as [H5|H5].
    + rewrite Q.min_l by (apply Qlt_le_weak; exact H5).
      apply Q.max_r. discriminate.
    + rewrite Q.min_r by exact H5. apply Q.max_r. exact H.
Qed.

Lemma clamp_bounds (x : Q) : (1 <= clamp x 1 5 <= 5)%Q.
Proof.
  unfold clamp. destruct (Qlt_le_dec x 1); [split; discriminate|].
  destruct (Qlt_le_dec 5 x); [split; discriminate|]. split; assumption.
Qed.

Lemma exact_factor (lvl : Q) :
  (div ExactArith (max ExactArith (of_Q ExactArith 1) (min ExactArith (of_Q ExactArith 5) lvl))
       (of_Q ExactArith 3) == spec_factor lvl)%Q.
Proof.
  unfold spec_factor. cbn [div of_Q ExactArith].
  rewrite Qred_correct, exact_max, !Qred_correct.
  rewrite <- clamp_max_min.
  assert (E : (min ExactArith (Qred 5) lvl == Qmin 5 lvl)%Q).
  { rewrite exact_min. rewrite Qred_correct. reflexivity. }
  rewrite E. reflexivity.
Qed.

Lemma spec_thresholds_ordered (f : Q) :
  (0 <= f)%Q -> (spec_low f <= spec_medium f)%Q /\ (spec_medium f <= spec_high f)%Q.
Proof.
  intros Hf. unfold spec_low, spec_medium, spec_high. split.
  - apply Q.max_le_compat; [discriminate|].
    apply Qmult_le_compat_r; [discriminate | exact Hf].
  - apply Q.max_le_compat; [discriminate|].
    apply Qmult_le_compat_r; [discriminate | exact Hf].
Qed.

Lemma exact_thresholds (lvl : Q) :
  let t := confidenceThresholds ExactArith lvl in
  (low t == spec_low (spec_factor lvl))%Q
  /\ (medium t == spec_medium (spec_factor lvl))%Q
  /\ (high t == spec_high (spec_factor lvl))%Q.
Proof.
  cbv zeta. unfold confidenceThresholds. cbn [low medium high].
  pose proof (exact_factor lvl) as F.
  set (f := div ExactArith _ _) in *.
  unfold spec_low, spec_medium, spec_high.
  repeat split; rewrite exact_max; cbn [mul of_Q ExactArith]; rewrite !Qred_correct, F;
    reflexivity.
Qed.

Lemma spec_factor_nonneg (lvl : Q) : (0 <= spec_factor lvl)%Q.
Proof.
  unfold spec_factor. destruct (clamp_bounds lvl) as [H _].
  apply Qle_shift_div_l; [reflexivity|]. rewrite Qmult_0_l.
  eapply Qle_trans; [|exact H]. discriminate.
Qed.

(** C2. [detect] computes its thresholds as low = max(0.45, 0.5 f),
    medium = max(0.9, 0.8 f), high = max(1.2, 2.5 f) with
    f = clamp(sensitivityLevel, 1, 5) / 3, and they are ordered
    low <= medium <= high: at every level in exact arithmetic, and at the
    integer levels 1..5 in binary64 arithmetic. *)
Theorem thresholds_as_specified (lvl : Q) :
  let t := confidenceThresholds ExactArith lvl in
  let f := spec_factor lvl in
  (low t == spec_low f)%Q /\ (medium t == spec_medium f)%Q /\ (high t == spec_high f)%Q
  /\ (low t <= medium t)%Q /\ (medium t <= high t)%Q
  /\ forallb binary64_thresholds_ordered [1; 2; 3; 4; 5]%Z = true.
Proof.
  cbv zeta.
  destruct (exact_thresholds lvl) as (Hl & Hm & Hh).
  destruct (spec_thresholds_ordered (spec_factor_nonneg lvl)) as [Hlm Hmh].
  split; [exact Hl|]. split; [exact Hm|]. split; [exact Hh|].
  split; [rewrite Hl, Hm; exact Hlm|].
  split; [rewrite Hm, Hh; exact Hmh|].
  vm_compute. reflexivity.
Qed.

(** ** The clamp of the checkpoint *)

Lemma exact_eqb (a b : Q) : eqb ExactArith a b = true <-> (a == b)%Q.
Proof.
  unfold eqb. rewrite andb_true_iff, !exact_leb. split.
  - intros [H1 H2]. apply Qle_antisym; assumption.
  - intros H. rewrite H. split; apply Qle_refl.
Qed.

Lemma exact_leb_ext (a b c : Q) : (a == b)%Q -> leb ExactArith a c = leb ExactArith b c.
Proof.
  intros H. destruct (leb ExactArith b c) eqn:E.
  - apply exact_leb. rewrite H. apply exact_leb. exact E.
  - destruct (leb ExactArith a c) eqn:E'; [|reflexivity].
    apply exact_leb in E'. rewrite H in E'. apply exact_leb in E'. congruence.
Qed.

Lemma exact_eqb_ext (a b c : Q) : (a == b)%Q -> eqb ExactArith a c = eqb ExactArith b c.
Proof.
  intros H. destruct (eqb ExactArith b c) eqn:E.
  - apply exact_eqb. rewrite H. apply exact_eqb. exact E.
  - destruct (eqb ExactArith a c) eqn:E'; [|reflexivity].
    apply exact_eqb in E'. rewrite H in E'. apply exact_eqb in E'. congruence.
Qed.

Lemma morpoint_ext (a b : Q) :
  (a == b)%Q -> morpoint ExactArith a = morpoint ExactArith b.
Proof.
  intros H. unfold morpoint.
  rewrite (exact_leb_ext _ H).
  destruct (leb ExactArith b (of_Q ExactArith 0)); [reflexivity|].
  cbn [find fst snd]. rewrite !(exact_eqb_ext _ H). reflexivity.
Qed.

Lemma morpoint_integer (z : Z) :
  (z <= 5)%Z ->
  morpoint ExactArith (inject_Z z) = Some (inject_Z (sensitivityCap z)).
Proof.
  intros Hz. destruct (Z_le_gt_dec z 0) as [Hneg|Hpos].
  - unfold morpoint.
    assert (E : leb ExactArith (inject_Z z) (of_Q ExactArith 0) = true).
    { apply exact_leb. cbn [of_Q ExactArith]. rewrite Qred_correct.
      change 0%Q with (inject_Z 0). rewrite <- Zle_Qle. exact Hneg. }
    rewrite E. destruct z as [|p|p]; try reflexivity. lia.
  - assert (C : (z = 1 \/ z = 2 \/ z = 3 \/ z = 4 \/ z = 5)%Z) by lia.
    destruct C as [->|[->|[->|[->| ->]]]]; reflexivity.
Qed.

Lemma parseNumber_bounds (v m : Q) :
  (0 <= m)%Q ->
  (0 <= parseNumber ExactArith v (Some m) <= m)%Q.
Proof.
  intros Hm. unfold parseNumber. cbn [isNaN ExactArith].
  destruct (ltb ExactArith v (of_Q ExactArith 0)) eqn:E0.
  - cbn [of_Q ExactArith]. split; [discriminate | exact Hm].
  - apply exact_ltb_false in E0. cbn [of_Q ExactArith] in E0.
    unfold gtb. destruct (ltb ExactArith m v) eqn:E1.
    + split; [exact Hm | apply Qle_refl].
    + apply exact_ltb_false in E1. split; [exact E0 | exact E1].
Qed.

Lemma Qfloor_half (z : Z) : Qfloor (inject_Z z + (1 # 2)) = z.
Proof.
  unfold Qfloor, inject_Z, Qplus. cbn [Qnum Qden].
  replace (z * 2 + 1 * 1)%Z with (1 + z * 2)%Z by lia.
  rewrite Pos.mul_1_l. rewrite Z.div_add by lia. reflexivity.
Qed.

Lemma toFixed_bounds (d : nat) (x : Q) (c : Z) :
  (0 <= x <= inject_Z c)%Q ->
  (0 <= toFixed ExactArith d x <= inject_Z c)%Q.
Proof.
  intros [H0 Hc]. cbn [toFixed ExactArith]. unfold Q_toFixed.
  assert (E : Qle_bool 0 x = true) by (apply Qle_bool_iff; exact H0).
  rewrite E, Qred_correct.
  set (p := inject_Z (10 ^ Z.of_nat d)).
  assert (Hp : (0 < p)%Q).
  { unfold p. rewrite <- (Zlt_Qlt 0). apply Z.pow_pos_nonneg; lia. }
  split.
  - apply Qle_shift_div_l; [exact Hp|]. rewrite Qmult_0_l.
    rewrite <- (Zle_Qle 0). change 0%Z with (Qfloor 0).
    apply Qfloor_resp_le.
    apply Qle_trans with (x * p)%Q.
    + apply Qmult_le_0_compat; [exact H0 | apply Qlt_le_weak; exact Hp].
    + rewrite <- (Qplus_0_r (x * p)) at 1. apply Qplus_le_r. discriminate.
  - apply Qle_shift_div_r; [exact Hp|].
    unfold p. rewrite <- inject_Z_mult, <- Zle_Qle.
    rewrite <- (Qfloor_half (c * 10 ^ Z.of_nat d)).
    apply Qfloor_resp_le. apply Qplus_le_l.
    rewrite inject_Z_mult. apply Qmult_le_compat_r; [exact Hc|].
    apply Qlt_le_weak. exact Hp.
Qed.

(** ** The result of [detect] *)

Lemma Return_inj {T} (a b : T) : Return a = Return b -> a = b.
Proof. intros H. injection H as H. exact H. Qed.

Lemma Some_inj {T} (a b : T) : Some a = Some b -> a = b.
Proof. intros H. injection H as H. exact H. Qed.

Section Results.
Variable h : Host.
Variable A : Arith.

(** The checkpoint and the verdict of the result, in terms of the checkpoint
    reached before the clamp. *)
Lemma finalize_fields (options : Options A) (sc : Scored A) :
  exists c,
    let level := or_default (sensitivityLevel options) (of_Q A 3) in
    let clamped := parseNumber A c (morpoint A level) in
    checkpoint (finalize h options sc) = toFixed A 2 clamped
    /\ (isGambling (finalize h options sc), confidence (finalize h options sc),
        details (finalize h options sc))
       = classify (confidenceThresholds A level) (sc_detected sc) (sc_hasGarbage sc) clamped
    /\ comment (finalize h options sc) = VStr (sc_text sc).
Proof.
  unfold finalize.
  destruct ((5 <=? _) && (_ <=? 50) || (30 <=? _) && (_ <=? 500));
    destruct (gtb A _ (of_Q A 12));
    match goal with
    | |- context [classify ?t ?d ?g (parseNumber A ?c ?m)] =>
      exists c; destruct (classify t d g (parseNumber A c m)) as [[? ?] ?]
    end; cbn; repeat split; reflexivity.
Qed.

Lemma detect_text (text : value) (options : Options A) (r : DetectionResult A) :
  too_short text = false ->
  detect h text options = Return r ->
  exists s sc, text = VStr s /\ score_text h s options = Return sc
               /\ r = finalize h options sc.
Proof.
  intros Hshort Hdet. unfold detect in Hdet.
  destruct text; try discriminate Hshort.
  rewrite Hshort in Hdet.
  destruct (score_text h s options) as [sc|e] eqn:E; cbn in Hdet; [|discriminate].
  injection Hdet as <-. exists s, sc. repeat split. exact E.
Qed.

End Results.

(** C3. For a text that passes the guard and an integer sensitivity level
    of at most 5, the checkpoint of the result of [detect] lies between 0
    and the cap of the level (0 -> 0, 1 -> 5, 2 -> 4, 3 -> 3, 4 -> 2,
    5 -> 1, and 0 for a negative level); in particular it is never
    negative.  The numbers are the exact rationals. *)
Theorem checkpoint_within_cap (h : Host) (text : value) (options : Options ExactArith)
  (level : Z) (r : DetectionResult ExactArith) :
  too_short text = false ->
  (or_default (sensitivityLevel options) (of_Q ExactArith 3) == inject_Z level)%Q ->
  (level <= 5)%Z ->
  detect h text options = Return r ->
  (0 <= checkpoint r <= inject_Z (sensitivityCap level))%Q.
Proof.
  intros Hshort Hlevel Hle Hdet.
  destruct (detect_text h text options Hshort Hdet) as (s & sc & _ & _ & ->).
  destruct (finalize_fields h options sc) as (c & Hc & _).
  cbv zeta in Hc. rewrite Hc.
  rewrite (morpoint_ext Hlevel), (morpoint_integer Hle).
  apply toFixed_bounds. apply parseNumber_bounds.
  change 0%Q with (inject_Z 0). rewrite <- Zle_Qle.
  unfold sensitivityCap. destruct level as [|p|p]; try lia.
  do 3 (destruct p; try lia).
Qed.

(** ** The allowlist *)

Section Allowlist.
Variable h : Host.
Variable A : Arith.

Lemma clear_with_checkpoint allowSet (st : Engine A) c :
  clear_of h allowSet st -> clear_of h allowSet (with_checkpoint st c).
Proof. intros H. exact H. Qed.

Lemma clear_with_history allowSet (st : Engine A) hist :
  clear_of h allowSet st -> clear_of h allowSet (with_history st hist).
Proof. intros H. exact H. Qed.

Lemma set_add_clear allowSet (t : jsstring) (s : list jsstring) :
  mem_str t allowSet = false ->
  Forall (fun t => mem_str t allowSet = false) s ->
  Forall (fun t => mem_str t allowSet = false) (set_add t s).
Proof.
  intros Ht Hs. unfold set_add. destruct (mem_str t s); [exact Hs|].
  apply Forall_app. split; [exact Hs | constructor; [exact Ht | constructor]].
Qed.

Lemma add_terms_clear allowSet (ms : list jsstring) :
  Forall (fun m => mem_str (toLowerCase h m) allowSet = false) ms ->
  forall s, Forall (fun t => mem_str t allowSet = false) s ->
  Forall (fun t => mem_str t allowSet = false)
         (fold_left (fun s m => set_add (toLowerCase h m) s) ms s).
Proof.
  induction 1 as [|m ms Hm _ IH]; intros s Hs; cbn [fold_left]; [exact Hs|].
  apply IH. apply set_add_clear; assumption.
Qed.

Lemma filter_allowed_clear allowSet (ms : list jsstring) :
  Forall (fun m => mem_str (toLowerCase h m) allowSet = false)
         (filter_allowed h allowSet ms).
Proof.
  unfold filter_allowed. apply Forall_forall. intros m Hin.
  apply filter_In in Hin. destruct Hin as [_ Hm].
  apply negb_true_iff in Hm. exact Hm.
Qed.

Lemma clear_add_matches allowSet (st : Engine A) (ms : list jsstring) :
  clear_of h allowSet st ->
  clear_of h allowSet (add_matches h st (filter_allowed h allowSet ms)).
Proof.
  intros [Hall Hterms]. split; cbn [add_matches e_allMatches e_matchedTerms].
  - apply Forall_app. split; [exact Hall | apply filter_allowed_clear].
  - apply add_terms_clear; [apply filter_allowed_clear | exact Hterms].
Qed.

Lemma clear_add_nothing allowSet (st : Engine A) :
  clear_of h allowSet st -> clear_of h allowSet (add_matches h st []).
Proof. intros H. exact (clear_add_matches [] H). Qed.

Create HintDb allow.
#[local] Hint Resolve clear_with_checkpoint clear_with_history clear_add_matches
  clear_add_nothing : allow.

Lemma approach_step_clear (env : Env A) processedText textFixed converted
  (approach : Approach A) (st : Engine A) (looseAttempted : nat) :
  clear_of h (env_allowSet env) st ->
  clear_of h (env_allowSet env)
    (fst (fst (approach_step h env processedText textFixed converted approach st
                             looseAttempted))).
Proof.
  intros Hst. unfold approach_step.
  destruct (ap_pattern approach) as [pattern|]; [|exact Hst].
  cbv zeta.
  repeat lazymatch goal with
         | |- context [match ?e with pair _ _ => _ end] => destruct e as [? ?]
         end.
  repeat match goal with
         | |- context [if ?c then _ else _] => destruct c
         | |- context [match ?x with nil => _ | cons _ _ => _ end] => destruct x
         end; cbn [fst]; auto with allow.
Qed.

Lemma run_approaches_clear (env : Env A) processedText textFixed converted
  (approaches : list (Approach A)) :
  forall (st : Engine A) (looseAttempted : nat),
  clear_of h (env_allowSet env) st ->
  clear_of h (env_allowSet env)
    (fst (run_approaches h env processedText textFixed converted approaches st
                         looseAttempted)).
Proof.
  induction approaches as [|approach rest IH]; intros st looseAttempted Hst;
    cbn [run_approaches fst]; [exact Hst|].
  pose proof (approach_step_clear env processedText textFixed converted approach
                looseAttempted Hst) as Hstep.
  destruct (approach_step h env processedText textFixed converted approach st
              looseAttempted) as [[st' loose'] foundMatch].
  cbn [fst] in Hstep. destruct foundMatch; [exact Hstep | apply IH; exact Hstep].
Qed.

Lemma supporting_keywords_clear (env : Env A) converted (st : Engine A) analysis :
  clear_of h (env_allowSet env) st ->
  clear_of h (env_allowSet env) (fst (supporting_keywords h env converted st analysis)).
Proof.
  intros Hst. unfold supporting_keywords.
  destruct (0 <? _); cbn [fst]; auto with allow.
Qed.

Lemma run_ignores_clear (env : Env A) ps pass processedText (ignores : list nat) :
  forall (st : Engine A) analysis,
  clear_of h (env_allowSet env) st ->
  clear_of h (env_allowSet env)
    (fst (fst (run_ignores h env ps pass processedText ignores st analysis))).
Proof.
  induction ignores as [|ignore rest IH]; intros st analysis Hst;
    cbn [run_ignores fst]; [exact Hst|].
  match goal with
  | |- context [run_approaches h env ?p ?t ?c ?a st 0] =>
    pose proof (run_approaches_clear env p t c a 0 Hst) as Hrun;
    destruct (run_approaches h env p t c a st 0) as [st' foundMatch]
  end.
  cbn [fst] in Hrun. destruct foundMatch; [|apply IH; exact Hrun].
  match goal with
  | |- context [supporting_keywords h env ?c st' analysis] =>
    pose proof (supporting_keywords_clear env c analysis Hrun) as Hsup;
    destruct (supporting_keywords h env c st' analysis) as [st'' analysis']
  end.
  exact Hsup.
Qed.

Lemma run_passes_clear (env : Env A) ps merged (passes : list (Pass A)) :
  forall (st : Engine A) analysis,
  clear_of h (env_allowSet env) st ->
  clear_of h (env_allowSet env)
    (fst (fst (run_passes h env ps merged passes st analysis))).
Proof.
  induction passes as [|pass rest IH]; intros st analysis Hst;
    cbn [run_passes fst]; [exact Hst|].
  match goal with
  | |- context [run_ignores h env ps pass ?p ?i st analysis] =>
    pose proof (run_ignores_clear env ps pass p i analysis Hst) as Hrun;
    destruct (run_ignores h env ps pass p i st analysis) as [[st' analysis'] detected]
  end.
  cbn [fst] in Hrun. destruct detected; [exact Hrun | apply IH; exact Hrun].
Qed.

Lemma score_text_clear (text : jsstring) (options : Options A) (sc : Scored A) :
  score_text h text options = Return sc ->
  Forall (fun m => mem_str (toLowerCase h m) (allowSet_of h options) = false)
         (sc_allMatches sc)
  /\ Forall (fun t => mem_str t (allowSet_of h options) = false) (sc_matchedTerms sc).
Proof.
  unfold score_text. intros H.
  destruct (extractKeywordArrays A _) as [keyword scorepoint].
  repeat lazymatch type of H with
         | context [match ?e with pair _ _ => _ end] => destruct e as [? ?]
         end.
  unfold bind in H.
  destruct (detectLanguageSpecificPatterns h A _ _) as [languagePatterns|e];
    [|discriminate H].
  repeat lazymatch type of H with
         | context [match ?e with pair _ _ => _ end] =>
           lazymatch e with
           | run_passes _ _ _ _ _ _ _ => fail
           | _ => destruct e as [? ?]
           end
         end.
  match type of H with
  | context [run_passes h ?env ?ps ?m ?p ?st ?a] =>
    assert (Hinit : clear_of h (env_allowSet env) st) by (split; constructor);
    pose proof (run_passes_clear env ps m p a Hinit) as Hrun;
    destruct (run_passes h env ps m p st a) as [[st' analysis'] detected]
  end.
  apply Return_inj in H. rewrite <- H. exact Hrun.
Qed.

End Allowlist.

(** *** Sets as lists without repetition *)

Lemma dedupe_acc_sub (l : list jsstring) :
  forall seen x, In x (dedupe_acc seen l) -> In x l.
Proof.
  induction l as [|y l IH]; intros seen x Hin; cbn [dedupe_acc] in Hin; [exact Hin|].
  destruct (mem_str y seen).
  - right. exact (IH _ _ Hin).
  - destruct Hin as [->|Hin]; [left; reflexivity | right; exact (IH _ _ Hin)].
Qed.

Lemma dedupe_acc_complete (l : list jsstring) :
  forall seen x, In x l -> In x seen \/ In x (dedupe_acc seen l).
Proof.
  induction l as [|y l IH]; intros seen x Hin; [destruct Hin|].
  cbn [dedupe_acc]. destruct (mem_str y seen) eqn:E.
  - destruct Hin as [->|Hin]; [left; apply mem_str_In; exact E | exact (IH _ _ Hin)].
  - destruct Hin as [->|Hin]; [right; left; reflexivity|].
    destruct (IH (y :: seen) x Hin) as [[->|Hs]|Hd].
    + right. left. reflexivity.
    + left. exact Hs.
    + right. right. exact Hd.
Qed.

Lemma dedupe_In (l : list jsstring) (x : jsstring) : In x (dedupe l) <-> In x l.
Proof.
  split.
  - apply dedupe_acc_sub.
  - intros Hin. destruct (dedupe_acc_complete l [] x Hin) as [[]|H]. exact H.
Qed.

(** *** Properties of the analysis object *)

Section Objects.
Variable A : Arith.

Lemma get_set_same (key : string) (v : aval A) (o : object A) :
  get_prop key (set_prop key v o) = Some v.
Proof.
  induction o as [|[k w] o IH]; cbn [set_prop get_prop].
  - rewrite String.eqb_refl. reflexivity.
  - destruct (String.eqb k key) eqn:E; cbn [get_prop]; rewrite E; [reflexivity | exact IH].
Qed.

Lemma get_set_other (key key' : string) (v : aval A) (o : object A) :
  String.eqb key' key = false ->
  get_prop key (set_prop key' v o) = get_prop key o.
Proof.
  intros Hne. induction o as [|[k w] o IH]; cbn [set_prop get_prop].
  - rewrite Hne. reflexivity.
  - destruct (String.eqb k key') eqn:E; cbn [get_prop].
    + apply String.eqb_eq in E. subst k. rewrite Hne. reflexivity.
    + rewrite IH. reflexivity.
Qed.

End Objects.

Section AllowlistResult.
Variable h : Host.
Variable A : Arith.

(** The terms and matches the analysis of a result reports. *)
Lemma finalize_matches (options : Options A) (sc : Scored A) (o : object A) :
  analysis (finalize h options sc) = Some o ->
  get_prop "matchedTerms" o = Some (AStrings A (sc_matchedTerms sc))
  /\ get_prop "allMatches" o
     = Some (AStrings A (if 0 <? List.length (sc_allMatches sc)
                         then dedupe (sc_allMatches sc) else [])).
Proof.
  unfold finalize.
  destruct ((5 <=? _) && (_ <=? 50) || (30 <=? _) && (_ <=? 500));
    destruct (gtb A _ (of_Q A 12));
    match goal with
    | |- context [classify ?t ?d ?g ?c] => destruct (classify t d g c) as [[? ?] ?]
    end; cbn [analysis];
    (destruct (or_default (includeAnalysis options) false); [|discriminate]);
    (destruct (sc_contactInfo sc) as [info|]; [destruct (ci_found info)|]);
    intros H; apply Some_inj in H; subst o;
    repeat first [ rewrite get_set_same | rewrite get_set_other by reflexivity ];
    split; reflexivity.
Qed.

End AllowlistResult.

(** X26. For every allowlist and every term [k] in it, no string reported
    in [allMatches] is equal to [k] up to case, and no term reported in
    [matchedTerms] is the lower-cased [k]. *)
Theorem allowlisted_matches_excluded (h : Host) (A : Arith) (text : value)
  (options : Options A) (r : DetectionResult A) (o : object A) (k : jsstring) :
  detect h text options = Return r ->
  analysis r = Some o ->
  In k (or_default (allowlist options) []) ->
  (forall l m, get_prop "allMatches" o = Some (AStrings A l) -> In m l ->
               toLowerCase h m <> toLowerCase h k)
  /\ (forall l t, get_prop "matchedTerms" o = Some (AStrings A l) -> In t l ->
                  t <> toLowerCase h k).
Proof.
  intros Hdet Han Hk.
  assert (Hset : mem_str (toLowerCase h k) (allowSet_of h options) = true).
  { apply mem_str_In. unfold allowSet_of. apply dedupe_In. apply in_map. exact Hk. }
  destruct (too_short (match text with VUndefined => VStr [] | _ => text end)) eqn:Hshort.
  - unfold detect in Hdet. rewrite Hshort in Hdet. apply Return_inj in Hdet.
    subst r. discriminate Han.
  - assert (Hshort' : too_short text = false) by (destruct text; auto; discriminate).
    destruct (detect_text h text options Hshort' Hdet) as (s & sc & _ & Hsc & ->).
    destruct (score_text_clear h s options Hsc) as [Hall Hterms].
    destruct (finalize_matches h options sc Han) as [Hmt Ham].
    split.
    + intros l m Hl Hin Heq. rewrite Ham in Hl. apply Some_inj in Hl.
      injection Hl as <-.
      assert (Hm : In m (sc_allMatches sc)).
      { destruct (0 <? List.length (sc_allMatches sc)); [|destruct Hin].
        apply dedupe_In. exact Hin. }
      rewrite Forall_forall in Hall. specialize (Hall m Hm).
      rewrite Heq in Hall. congruence.
    + intros l t Hl Hin Heq. rewrite Hmt in Hl. apply Some_inj in Hl.
      injection Hl as <-.
      rewrite Forall_forall in Hterms. specialize (Hterms t Hin).
      rewrite Heq in Hterms. congruence.
Qed.

(** ** The guard of [detect] *)

Lemma short_input_guard (text : value) : short_input text <-> too_short text = true.
Proof.
  destruct text; cbn [short_input too_short]; try (split; [reflexivity | exact (fun _ => I)]).
  rewrite orb_true_iff, Nat.eqb_eq, Nat.ltb_lt. split.
  - intros [->|H]; [left; reflexivity | right; exact H].
  - intros [H|H]; [left; apply length_zero_iff_nil; exact H | right; exact H].
Qed.

(** C8 (as amended). For every input that is empty, not a string, or
    shorter than 2 once trimmed, [detect] returns at once, without an
    exception: not gambling, confidence none, checkpoint 0, and the input
    echoed unchanged as the comment, an omitted ([undefined]) input being
    echoed as the empty string it defaults to. *)
Theorem short_input_rejected (h : Host) (A : Arith) (text : value) (options : Options A) :
  short_input text ->
  detect h text options
  = Return {| isGambling := false;
              confidence := ConfNone;
              checkpoint := of_Q A 0;
              details := js "Text too short for analysis";
              comment := match text with VUndefined => VStr [] | _ => text end;
              analysis := None |}.
Proof.
  intros Hshort. apply short_input_guard in Hshort. unfold detect.
  destruct text; cbn [too_short] in *; try reflexivity.
  rewrite Hshort. reflexivity.
Qed.

(** ** The argument checks of [fuzzySearch] *)

(** C9 (as amended). [fuzzySearch] raises a type error when its list is
    not an array or its query is not a string; for an array and a blank
    query it returns the empty sequence; for an array and a query that is
    not blank it raises a type error exactly when an element of the list
    is not a string. *)
Theorem fuzzySearch_type_errors (h : Host) (A : Arith) (lst query : value)
  (maxDistance : option nat) (minScore : option (num A)) :
  let call := fuzzySearch_call h A lst query maxDistance minScore in
  ((exists e, call = Throw (TypeError e))
   <-> is_array lst = false \/ is_string query = false
       \/ (blank query = false /\ all_strings lst = false))
  /\ (is_array lst = true -> is_string query = true -> blank query = true ->
      call = Return []).
Proof.
  cbv zeta. unfold fuzzySearch_call. split.
  - destruct lst; cbn [is_array all_strings];
      try (split; [intros _; left; reflexivity | intros _; eexists; reflexivity]).
    destruct query; cbn [is_string blank];
      try (split; [intros _; right; left; reflexivity | intros _; eexists; reflexivity]).
    destruct (List.length (trim s) =? 0).
    + split; [intros [e He]; discriminate He|].
      intros [H|[H|[H _]]]; discriminate H.
    + destruct (strings_of items).
      * split; [intros [e He]; discriminate He|].
        intros [H|[H|[_ H]]]; discriminate H.
      * split; [intros _; right; right; split; reflexivity|].
        intros _. eexists. reflexivity.
  - destruct lst; cbn [is_array]; try discriminate.
    destruct query; cbn [is_string blank]; try discriminate.
    intros _ _ ->. reflexivity.
Qed.

(** ** Batches *)

Section Batch.
Variable h : Host.
Variable A : Arith.
Variable to_string : value -> jsstring.

(** C10. [detectBatch] on an array returns the results of [detect] on its
    elements, in order (and fails when one of the calls fails); on any
    other value [x] it returns the one result of [detect] on [String(x)]. *)
Theorem detectBatch_elementwise (options : Options A) :
  (forall texts results,
     Forall2 (fun text r => detect h text options = Return r) texts results ->
     detectBatch h to_string (VArr texts) options = Return results)
  /\ (forall texts,
        Exists (fun text => exists e, detect h text options = Throw e) texts ->
        exists e, detectBatch h to_string (VArr texts) options = Throw e)
  /\ (forall x,
        is_array x = false ->
        detectBatch h to_string x options
        = match detect h (VStr (to_string x)) options with
          | Return r => Return [r]
          | Throw e => Throw e
          end).
Proof.
  split; [|split].
  - intros texts results H. cbn [detectBatch].
    induction H as [|text r texts results Hr _ IH]; cbn [traverse bind]; [reflexivity|].
    rewrite Hr. cbn [bind]. rewrite IH. reflexivity.
  - intros texts H. cbn [detectBatch].
    induction texts as [|text texts IH]; [inversion H|].
    cbn [traverse]. destruct (detect h text options) as [r|e] eqn:E; cbn [bind].
    + inversion H as [? ? [e He]|? ? Hrest]; subst; [congruence|].
      destruct (IH Hrest) as [e He]. rewrite He. exists e. reflexivity.
    + exists e. reflexivity.
  - intros x Hx. destruct x; try discriminate Hx; reflexivity.
Qed.

End Batch.

(** ** The garbage ratio *)


Section Garbage.
Variable h : Host.







End Garbage.

(** ** The detector on particular inputs *)


(** C4. On "This is a normal sentence with no gambling content." with the
    default options [detect] returns isGambling = false, confidence none
    and the checkpoint 0.44, which is below the low threshold (0.5 at the
    default level 3): in binary64 and in exact arithmetic. *)
Theorem clean_sentence_not_flagged (h : Host) :
  (verdict (detect h (VStr clean_sentence) (no_options FloatArith))
   = Some (false, ConfNone, of_Q FloatArith 0.44)
   /\ ltb FloatArith (of_Q FloatArith 0.44)
          (low (confidenceThresholds FloatArith (of_Q FloatArith 3))) = true)
  /\ (verdict (detect h (VStr clean_sentence) (no_options ExactArith))
      = Some (false, ConfNone, of_Q ExactArith 0.44)
      /\ ltb ExactArith (of_Q ExactArith 0.44)
             (low (confidenceThresholds ExactArith (of_Q ExactArith 3))) = true).
Proof.
  split; split.
  - vm_compute. reflexivity.
  - vm_compute. reflexivity.
  - vm_compute. reflexivity.
  - vm_compute. reflexivity.
Qed.

(** C1, at the failing input: on "xxxxxxxxjack bank" at sensitivity level 5
    the matching loops end with a pattern match (detected is set), the
    clamped checkpoint 0.81 is below the low threshold, and the result is
    isGambling = false with confidence none. *)
Theorem pattern_match_without_verdict (h : Host) :
  let text := js "xxxxxxxxjack bank" in
  (detected_in (score_text h text (at_level FloatArith 5)) = Some true
   /\ verdict (detect h (VStr text) (at_level FloatArith 5))
      = Some (false, ConfNone, of_Q FloatArith 0.81)
   /\ ltb FloatArith (of_Q FloatArith 0.81)
          (low (confidenceThresholds FloatArith (of_Q FloatArith 5))) = true)
  /\ (detected_in (score_text h text (at_level ExactArith 5)) = Some true
      /\ verdict (detect h (VStr text) (at_level ExactArith 5))
         = Some (false, ConfNone, of_Q ExactArith 0.81)
      /\ ltb ExactArith (of_Q ExactArith 0.81)
             (low (confidenceThresholds ExactArith (of_Q ExactArith 5))) = true).
Proof.
  cbv zeta. split; (split; [|split]); vm_compute; reflexivity.
Qed.

(** C7, at the failing inputs: with [includeAnalysis] the checkpoint of
    "s l o t" is 2.06 instead of 2, and "j_a ck 12" gets the checkpoint 0.91
    and confidence medium instead of 0.86 and confidence low. *)
Theorem analysis_flag_changes_verdict (h : Host) :
  (verdict (detect h (VStr (js "s l o t")) (with_analysis FloatArith false))
   = Some (true, ConfMedium, of_Q FloatArith 2)
   /\ verdict (detect h (VStr (js "s l o t")) (with_analysis FloatArith true))
      = Some (true, ConfMedium, of_Q FloatArith 2.06)
   /\ verdict (detect h (VStr (js "j_a ck 12")) (with_analysis FloatArith false))
      = Some (true, ConfLow, of_Q FloatArith 0.86)
   /\ verdict (detect h (VStr (js "j_a ck 12")) (with_analysis FloatArith true))
      = Some (true, ConfMedium, of_Q FloatArith 0.91))
  /\ (verdict (detect h (VStr (js "s l o t")) (with_analysis ExactArith false))
      = Some (true, ConfMedium, of_Q ExactArith 2)
      /\ verdict (detect h (VStr (js "s l o t")) (with_analysis ExactArith true))
         = Some (true, ConfMedium, of_Q ExactArith 2.06)
      /\ verdict (detect h (VStr (js "j_a ck 12")) (with_analysis ExactArith false))
         = Some (true, ConfLow, of_Q ExactArith 0.86)
      /\ verdict (detect h (VStr (js "j_a ck 12")) (with_analysis ExactArith true))
         = Some (true, ConfMedium, of_Q ExactArith 0.91)).
Proof.
  split; (split; [|split; [|split]]); vm_compute; reflexivity.
Qed.

(** C5, at the failing input: with "jack" allowlisted, the only match of
    the text "jack" is the allowlisted term, which is filtered out (the
    matching loops end without a match and nothing is reported in
    [matchedTerms] or [allMatches]); yet the checkpoint is 0.63 and the text
    is reported as gambling with confidence low, where a text with no match
    at all gets the checkpoint 0.  The tiny approach adds its 0.03 for a
    match before the allowlist is applied to it. *)
Theorem allowlisted_term_scored_before_filter (h : Host) :
  let text := js "jack" in
  (verdict (detect h (VStr text) (allowing FloatArith [js "jack"] true))
   = Some (true, ConfLow, of_Q FloatArith 0.63)
   /\ detected_in (score_text h text (allowing FloatArith [js "jack"] true)) = Some false
   /\ reported "matchedTerms" (detect h (VStr text) (allowing FloatArith [js "jack"] true))
      = Some []
   /\ reported "allMatches" (detect h (VStr text) (allowing FloatArith [js "jack"] true))
      = Some []
   /\ verdict (detect h (VStr (js "tree")) (allowing FloatArith [js "jack"] true))
      = Some (false, ConfNone, of_Q FloatArith 0))
  /\ (verdict (detect h (VStr text) (allowing ExactArith [js "jack"] true))
      = Some (true, ConfLow, of_Q ExactArith 0.63)
      /\ detected_in (score_text h text (allowing ExactArith [js "jack"] true)) = Some false
      /\ reported "matchedTerms" (detect h (VStr text) (allowing ExactArith [js "jack"] true))
         = Some []
      /\ reported "allMatches" (detect h (VStr text) (allowing ExactArith [js "jack"] true))
         = Some []
      /\ verdict (detect h (VStr (js "tree")) (allowing ExactArith [js "jack"] true))
         = Some (false, ConfNone, of_Q ExactArith 0)).
Proof.
  cbv zeta. split; (split; [|split; [|split; [|split]]]); vm_compute; reflexivity.
Qed.

(** The allowlist excludes the matches equal to a term, not those that
    decorate it: on "jack88" with "jack" allowlisted, the match "jackbb" (the
    term with its digits, turned into letters) is reported in [matchedTerms]
    and [allMatches] and the text is reported as gambling. *)
Lemma decorated_match_still_reported :
  let allow := allowing FloatArith [js "jack"] true in
  verdict (detect ascii_host (VStr (js "jack88")) allow)
  = Some (true, ConfMedium, of_Q FloatArith 0.91)
  /\ reported "matchedTerms" (detect ascii_host (VStr (js "jack88")) allow)
     = Some [js "jackbb"]
  /\ reported "allMatches" (detect ascii_host (VStr (js "jack88")) allow)
     = Some [js "jackbb"].
Proof.
  cbv zeta. repeat split; vm_compute; reflexivity.
Qed.



(** C8, as stated, fails on an omitted input: [undefined] is not a string,
    and the comment of the result is the empty string, not [undefined]. *)
Lemma omitted_input_echoed_as_empty_string :
  exists r, detect ascii_host VUndefined (no_options FloatArith) = Return r
            /\ comment r = VStr []
            /\ comment r <> VUndefined.
Proof.
  eexists. split; [reflexivity|]. split; [reflexivity | discriminate].
Qed.

(** [short_input_rejected] on the one-letter input " a ". *)
Lemma short_input_rejected_witness :
  short_input (VStr (js " a "))
  /\ detect ascii_host (VStr (js " a ")) (no_options FloatArith)
     = Return {| isGambling := false;
                 confidence := ConfNone;
                 checkpoint := of_Q FloatArith 0;
                 details := js "Text too short for analysis";
                 comment := VStr (js " a ");
                 analysis := None |}.
Proof.
  assert (H : short_input (VStr (js " a "))) by (right; vm_compute; apply le_n).
  split; [exact H|].
  exact (@short_input_rejected ascii_host FloatArith (VStr (js " a "))
                               (no_options FloatArith) H).
Defined.

(** C9, as stated, fails: with an array for the list and a string for the
    query, [fuzzySearch] still raises a type error when an element of the
    array is not a string. *)
Lemma fuzzySearch_throws_on_number_item :
  let lst := VArr [VNum (Fin 5)] in
  let query := VStr (js "a") in
  is_array lst = true /\ is_string query = true
  /\ exists e, fuzzySearch_call ascii_host FloatArith lst query None None
               = Throw (TypeError e).
Proof.
  cbv zeta. split; [reflexivity|]. split; [reflexivity|].
  exists (js "text.toLowerCase is not a function"). reflexivity.
Qed.

(** [checkpoint_within_cap] on "slot gacor" at level 5, where the cap is 1. *)
Lemma checkpoint_within_cap_witness :
  exists r, detect ascii_host (VStr (js "slot gacor")) (at_level ExactArith 5) = Return r
            /\ (0 <= checkpoint r <= inject_Z (sensitivityCap 5))%Q.
Proof.
  let v := eval vm_compute in
             (detect ascii_host (VStr (js "slot gacor")) (at_level ExactArith 5)) in
  lazymatch v with
  | Return ?r =>
    exists r;
    assert (E : detect ascii_host (VStr (js "slot gacor")) (at_level ExactArith 5)
                = Return r) by (vm_compute; reflexivity);
    split; [exact E|];
    apply (@checkpoint_within_cap ascii_host (VStr (js "slot gacor"))
                                  (at_level ExactArith 5) 5 r);
    [reflexivity | vm_compute; reflexivity | lia | exact E]
  end.
Defined.

(** [allowlisted_matches_excluded] on "jack88" with "jack" allowlisted. *)
Lemma allowlisted_matches_excluded_witness :
  exists r o,
    detect ascii_host (VStr (js "jack88")) (allowing ExactArith [js "jack"] true) = Return r
    /\ analysis r = Some o
    /\ (forall l m, get_prop "allMatches" o = Some (AStrings ExactArith l) -> In m l ->
                    toLowerCase ascii_host m <> toLowerCase ascii_host (js "jack"))
    /\ (forall l t, get_prop "matchedTerms" o = Some (AStrings ExactArith l) -> In t l ->
                    t <> toLowerCase ascii_host (js "jack")).
Proof.
  let v := eval vm_compute in
             (detect ascii_host (VStr (js "jack88"))
                     (allowing ExactArith [js "jack"] true)) in
  lazymatch v with
  | Return ?r =>
    let a := eval vm_compute in (analysis r) in
    lazymatch a with
    | Some ?o =>
      exists r, o;
      assert (E : detect ascii_host (VStr (js "jack88"))
                         (allowing ExactArith [js "jack"] true)
                  = Return r) by (vm_compute; reflexivity);
      assert (Ho : analysis r = Some o) by reflexivity;
      split; [exact E|]; split; [exact Ho|];
      apply (@allowlisted_matches_excluded ascii_host ExactArith (VStr (js "jack88"))
               (allowing ExactArith [js "jack"] true) r o (js "jack") E Ho);
      left; reflexivity
    end
  end.
Defined.

(* ------------------------------------------------------------------ *)
(** * Further properties of the detector *)

(** ** The shape of a result *)

Lemma classify_consistent (A : Arith) (t : ConfidenceThresholds A) (d g : bool) (c : num A) :
  let '(isG, conf, det) := classify t d g c in
  (isG = true <-> conf <> ConfNone)
  /\ (conf = ConfNone -> det = js "No gambling content detected").
Proof.
  unfold classify.
  destruct (d || geb A c (low t)); [destruct (geb A c (high t));
    [|destruct (geb A c (medium t)); [|destruct (geb A c (low t))]] | destruct g];
    (split; [split; [discriminate || (intros _; discriminate)
                    | tauto || (intros H; exfalso; apply H; reflexivity)]
            | try discriminate; intros _; reflexivity]).
Qed.

(** X1. In every result of [detect], [isGambling] is true exactly when the
    confidence is not "none"; and with confidence "none" the details are
    one of the two negative messages. *)
Theorem verdict_matches_confidence (h : Host) (A : Arith) (text : value)
  (options : Options A) (r : DetectionResult A) :
  detect h text options = Return r ->
  (isGambling r = true <-> confidence r <> ConfNone)
  /\ (confidence r = ConfNone ->
      details r = js "No gambling content detected"
      \/ details r = js "Text too short for analysis").
Proof.
  intros Hdet.
  destruct (too_short (match text with VUndefined => VStr [] | _ => text end)) eqn:Hshort.
  - unfold detect in Hdet. rewrite Hshort in Hdet. apply Return_inj in Hdet. subst r.
    cbn. split; [split; [discriminate | intros H; exfalso; apply H; reflexivity]|].
    intros _. right. reflexivity.
  - assert (Hshort' : too_short text = false) by (destruct text; auto; discriminate).
    destruct (detect_text h text options Hshort' Hdet) as (s & sc & _ & _ & ->).
    destruct (finalize_fields h options sc) as (c & _ & Hc & _). cbv zeta in Hc.
    pose proof (classify_consistent
                  (confidenceThresholds A (or_default (sensitivityLevel options) (of_Q A 3)))
                  (sc_detected sc) (sc_hasGarbage sc)
                  (parseNumber A c (morpoint A (or_default (sensitivityLevel options) (of_Q A 3)))))
      as H.
    rewrite <- Hc in H. destruct H as [H1 H2].
    split; [exact H1 | intros Hn; left; exact (H2 Hn)].
Qed.

Section ResultShape.
Variable h : Host.
Variable A : Arith.

Lemma finalize_analysis (options : Options A) (sc : Scored A) :
  if or_default (includeAnalysis options) false
  then exists o terms matches metrics,
         analysis (finalize h options sc) = Some o
         /\ get_prop "matchedTerms" o = Some (AStrings A terms)
         /\ get_prop "allMatches" o = Some (AStrings A matches)
         /\ get_prop "contentMetrics" o = Some (AMetrics metrics)
  else analysis (finalize h options sc) = None.
Proof.
  unfold finalize.
  destruct ((5 <=? _) && (_ <=? 50) || (30 <=? _) && (_ <=? 500));
    destruct (gtb A _ (of_Q A 12));
    match goal with
    | |- context [classify ?t ?d ?g ?c] => destruct (classify t d g c) as [[? ?] ?]
    end; cbn [analysis];
    (destruct (or_default (includeAnalysis options) false); [|reflexivity]);
    (destruct (sc_contactInfo sc) as [info|]; [destruct (ci_found info)|]);
    eexists; eexists; eexists; eexists; (split; [reflexivity|]);
    repeat first [ rewrite get_set_same | rewrite get_set_other by reflexivity ];
    repeat split; reflexivity.
Qed.

End ResultShape.

(** X2. The result of [detect] carries an analysis exactly when the text
    passes the guard and [includeAnalysis] is true; the analysis then has
    the properties matchedTerms, allMatches and contentMetrics. *)
Theorem analysis_only_on_request (h : Host) (A : Arith) (text : value)
  (options : Options A) (r : DetectionResult A) :
  detect h text options = Return r ->
  (analysis r <> None
   <-> too_short (match text with VUndefined => VStr [] | _ => text end) = false
       /\ or_default (includeAnalysis options) false = true)
  /\ (forall o, analysis r = Some o ->
        exists terms matches metrics,
          get_prop "matchedTerms" o = Some (AStrings A terms)
          /\ get_prop "allMatches" o = Some (AStrings A matches)
          /\ get_prop "contentMetrics" o = Some (AMetrics metrics)).
Proof.
  intros Hdet.
  destruct (too_short (match text with VUndefined => VStr [] | _ => text end)) eqn:Hshort.
  - unfold detect in Hdet. rewrite Hshort in Hdet. apply Return_inj in Hdet. subst r.
    cbn [analysis too_short_result]. split.
    + split; [intros H; exfalso; apply H; reflexivity | intros [H _]; discriminate H].
    + intros o H. discriminate H.
  - assert (Hshort' : too_short text = false) by (destruct text; auto; discriminate).
    destruct (detect_text h text options Hshort' Hdet) as (s & sc & _ & _ & ->).
    pose proof (finalize_analysis h options sc) as H.
    destruct (or_default (includeAnalysis options) false).
    + destruct H as (o & terms & matches & metrics & Ho & H1 & H2 & H3). split.
      * rewrite Ho. split; [intros _; split; reflexivity | intros _; discriminate].
      * intros o' Ho'. rewrite Ho in Ho'. apply Some_inj in Ho'. subst o'.
        exists terms, matches, metrics. repeat split; assumption.
    + rewrite H. split.
      * split; [intros H'; exfalso; apply H'; reflexivity | intros [_ H']; discriminate H'].
      * intros o Ho. discriminate Ho.
Qed.

(** ** The sensitivity table *)

(** X3. [morpoint] maps a level of 0 or less to 0 and the integer levels
    1..5 to 5..1; any other level (above 5, or not an integer) is not a key
    of its table and gives [undefined]. *)
Theorem morpoint_table (x : Q) :
  ((x <= 0)%Q -> morpoint ExactArith x = Some 0%Q)
  /\ (forall z, (1 <= z <= 5)%Z -> (x == inject_Z z)%Q ->
        morpoint ExactArith x = Some (inject_Z (6 - z)))
  /\ ((0 < x)%Q -> (forall z, (1 <= z <= 5)%Z -> ~ (x == inject_Z z)%Q) ->
      morpoint ExactArith x = None).
Proof.
  split; [|split].
  - intros Hx. unfold morpoint.
    assert (E : leb ExactArith x (of_Q ExactArith 0) = true) by (apply exact_leb; exact Hx).
    rewrite E. reflexivity.
  - intros z Hz Hx. rewrite (morpoint_ext Hx).
    assert (C : (z = 1 \/ z = 2 \/ z = 3 \/ z = 4 \/ z = 5)%Z) by lia.
    destruct C as [->|[->|[->|[->| ->]]]]; reflexivity.
  - intros Hpos Hnot. unfold morpoint.
    assert (E : leb ExactArith x (of_Q ExactArith 0) = false).
    { destruct (leb ExactArith x (of_Q ExactArith 0)) eqn:E; [|reflexivity].
      apply exact_leb in E. exfalso. apply (Qlt_not_le _ _ Hpos). exact E. }
    rewrite E. cbn [find fst snd].
    assert (E0 : eqb ExactArith x (of_Q ExactArith 0) = false).
    { destruct (eqb ExactArith x (of_Q ExactArith 0)) eqn:E0; [|reflexivity].
      apply exact_eqb in E0. rewrite E0 in Hpos. discriminate Hpos. }
    assert (En : forall z, (1 <= z <= 5)%Z ->
                   eqb ExactArith x (of_Q ExactArith (inject_Z z)) = false).
    { intros z Hz. destruct (eqb ExactArith x (of_Q ExactArith (inject_Z z))) eqn:En;
        [|reflexivity].
      apply exact_eqb in En. cbn [of_Q ExactArith] in En. rewrite Qred_correct in En.
      exfalso. exact (Hnot z Hz En). }
    rewrite E0.
    pose proof (En 1%Z ltac:(lia)) as E1. pose proof (En 2%Z ltac:(lia)) as E2.
    pose proof (En 3%Z ltac:(lia)) as E3. pose proof (En 4%Z ltac:(lia)) as E4.
    pose proof (En 5%Z ltac:(lia)) as E5. unfold inject_Z in E1, E2, E3, E4, E5.
    rewrite E1, E2, E3, E4, E5. reflexivity.
Qed.

Lemma morpoint_nonneg (x m : Q) : morpoint ExactArith x = Some m -> (0 <= m)%Q.
Proof.
  unfold morpoint.
  destruct (leb ExactArith x (of_Q ExactArith 0)); cbn [find fst snd];
    repeat match goal with
           | |- context [if ?b then _ else _] => destruct b
           end;
    cbn [option_map]; intros H; try discriminate H;
    apply Some_inj in H; subst m; discriminate.
Qed.

Lemma parseNumber_nonneg (c : Q) (m : option Q) :
  (forall x, m = Some x -> (0 <= x)%Q) -> (0 <= parseNumber ExactArith c m)%Q.
Proof.
  intros Hm. unfold parseNumber. cbn [isNaN ExactArith].
  destruct (ltb ExactArith c (of_Q ExactArith 0)) eqn:E0; [discriminate|].
  apply exact_ltb_false in E0. cbn [of_Q ExactArith] in E0.
  destruct m as [m|]; [|exact E0].
  unfold gtb. destruct (ltb ExactArith m c); [apply Hm; reflexivity | exact E0].
Qed.

Lemma toFixed_nonneg (d : nat) (v : Q) :
  (0 <= v)%Q ->
  (0 <= toFixed ExactArith d v)%Q
  /\ exists n : Z, (toFixed ExactArith d v == inject_Z n / inject_Z (10 ^ Z.of_nat d))%Q.
Proof.
  intros H0. cbn [toFixed ExactArith]. unfold Q_toFixed.
  assert (E : Qle_bool 0 v = true) by (apply Qle_bool_iff; exact H0).
  rewrite E.
  assert (Hp : (0 < inject_Z (10 ^ Z.of_nat d))%Q).
  { rewrite <- (Zlt_Qlt 0). apply Z.pow_pos_nonneg; lia. }
  split.
  - rewrite Qred_correct. apply Qle_shift_div_l; [exact Hp|]. rewrite Qmult_0_l.
    rewrite <- (Zle_Qle 0). change 0%Z with (Qfloor 0). apply Qfloor_resp_le.
    apply Qle_trans with (v * inject_Z (10 ^ Z.of_nat d))%Q.
    + apply Qmult_le_0_compat; [exact H0 | apply Qlt_le_weak; exact Hp].
    + rewrite <- (Qplus_0_r (v * _)) at 1. apply Qplus_le_r. discriminate.
  - eexists. rewrite Qred_correct. reflexivity.
Qed.

(** X4. Whatever the sensitivity level, the checkpoint [detect] reports is
    not negative and has at most two decimals. *)
Theorem checkpoint_two_decimals (h : Host) (text : value) (options : Options ExactArith)
  (r : DetectionResult ExactArith) :
  detect h text options = Return r ->
  (0 <= checkpoint r)%Q
  /\ exists n : Z, (checkpoint r == inject_Z n / 100)%Q.
Proof.
  intros Hdet.
  destruct (too_short (match text with VUndefined => VStr [] | _ => text end)) eqn:Hshort.
  - unfold detect in Hdet. rewrite Hshort in Hdet. apply Return_inj in Hdet. subst r.
    cbn. split; [discriminate | exists 0%Z; reflexivity].
  - assert (Hshort' : too_short text = false) by (destruct text; auto; discriminate).
    destruct (detect_text h text options Hshort' Hdet) as (s & sc & _ & _ & ->).
    destruct (finalize_fields h options sc) as (c & Hc & _). cbv zeta in Hc. rewrite Hc.
    apply (toFixed_nonneg 2). apply parseNumber_nonneg.
    intros x Hx. eapply morpoint_nonneg. exact Hx.
Qed.

(** ** The final evaluation *)

Lemma exact_geb (a b : Q) : geb ExactArith a b = true <-> (b <= a)%Q.
Proof. unfold geb. apply exact_leb. Qed.

Lemma exact_geb_false (a b : Q) : geb ExactArith a b = false <-> (a < b)%Q.
Proof.
  unfold geb. split.
  - intros H. apply Qnot_le_lt. intros Hle. apply exact_leb in Hle. congruence.
  - intros H. destruct (leb ExactArith b a) eqn:E; [|reflexivity].
    apply exact_leb in E. exfalso. exact (Qlt_not_le _ _ H E).
Qed.

Lemma thresholds_ordered (level : Q) :
  let t := confidenceThresholds ExactArith level in
  (low t <= medium t)%Q /\ (medium t <= high t)%Q.
Proof.
  cbv zeta. destruct (exact_thresholds level) as (Hl & Hm & Hh).
  destruct (spec_thresholds_ordered (spec_factor_nonneg level)) as [Hlm Hmh].
  split; [rewrite Hl, Hm; exact Hlm | rewrite Hm, Hh; exact Hmh].
Qed.

Lemma classify_ordered (t : ConfidenceThresholds ExactArith) (d g : bool) (c : Q) :
  (low t <= medium t)%Q -> (medium t <= high t)%Q ->
  let conf := snd (fst (classify t d g c)) in
  (conf = ConfHigh <-> (high t <= c)%Q)
  /\ (conf = ConfMedium
      <-> (medium t <= c)%Q /\ (c < high t)%Q
          \/ (c < low t)%Q /\ d = false /\ g = true)
  /\ (conf = ConfLow <-> (low t <= c)%Q /\ (c < medium t)%Q)
  /\ (conf = ConfNone <-> (c < low t)%Q /\ (d = true \/ g = false)).
Proof.
  intros Hlm Hmh. cbv zeta. unfold classify.
  destruct (geb ExactArith c (low t)) eqn:El;
    destruct (geb ExactArith c (medium t)) eqn:Em;
    destruct (geb ExactArith c (high t)) eqn:Eh;
    repeat match goal with
           | H : geb ExactArith _ _ = true |- _ => apply exact_geb in H
           | H : geb ExactArith _ _ = false |- _ => apply exact_geb_false in H
           end;
    try (exfalso; lra);
    destruct d, g; cbn [orb fst snd];
    repeat split; intros;
    repeat match goal with
           | H : _ /\ _ |- _ => destruct H
           | H : _ \/ _ |- _ => destruct H
           end;
    try discriminate; try assumption; try reflexivity;
    try (exfalso; lra);
    auto.
Qed.

(** ** The verdict and the checkpoint before rounding *)

Section FinalEvaluation.
Variable h : Host.
Variable A : Arith.

Lemma finalize_checkpoint (options : Options A) (sc : Scored A) :
  let level := or_default (sensitivityLevel options) (of_Q A 3) in
  checkpoint (finalize h options sc) = toFixed A 2 (finalCheckpoint h options sc)
  /\ (isGambling (finalize h options sc), confidence (finalize h options sc),
      details (finalize h options sc))
     = classify (confidenceThresholds A level) (sc_detected sc) (sc_hasGarbage sc)
                (finalCheckpoint h options sc).
Proof.
  unfold finalize, finalCheckpoint. cbv zeta.
  destruct ((5 <=? _) && (_ <=? 50) || (30 <=? _) && (_ <=? 500));
    destruct (gtb A _ (of_Q A 12));
    match goal with
    | |- context [classify ?t ?d ?g ?c] => destruct (classify t d g c) as [[? ?] ?]
    end; cbn; split; reflexivity.
Qed.

Lemma classify_chain (t : ConfidenceThresholds A) (d g : bool) (c : num A) :
  let conf := snd (fst (classify t d g c)) in
  let reached := d || geb A c (low t) in
  (conf = ConfHigh <-> reached = true /\ geb A c (high t) = true)
  /\ (conf = ConfMedium
      <-> reached = true /\ geb A c (high t) = false /\ geb A c (medium t) = true
          \/ reached = false /\ g = true)
  /\ (conf = ConfLow
      <-> reached = true /\ geb A c (high t) = false /\ geb A c (medium t) = false
          /\ geb A c (low t) = true)
  /\ (conf = ConfNone
      <-> reached = true /\ geb A c (high t) = false /\ geb A c (medium t) = false
          /\ geb A c (low t) = false
          \/ reached = false /\ g = false).
Proof.
  cbv zeta. unfold classify.
  destruct (geb A c (low t)), (geb A c (medium t)), (geb A c (high t)), d, g;
    cbn [orb fst snd];
    repeat split; intros;
    repeat match goal with
           | H : _ /\ _ |- _ => destruct H
           | H : _ \/ _ |- _ => destruct H
           end;
    try discriminate; try reflexivity; auto.
Qed.

End FinalEvaluation.

(** X5. The verdict as the final evaluation computes it, for a text that
    passes the guard.  Let [c] be the checkpoint before rounding, that is
    [finalCheckpoint]: the checkpoint of the matching loops with the
    content-length and word-length increments, clamped by [parseNumber];
    the result reports [c] rounded to two decimals.  In both arithmetics
    the confidence follows the chain of comparisons of the source: it is
    "high" exactly when a pattern matched or [c] reaches the low threshold,
    and [c] reaches the high threshold; and so on down the chain, "none"
    being what is left when the chain is entered and no comparison holds,
    or when it is not entered and the garbage detector did not fire.  In
    exact arithmetic, where the thresholds are ordered, this is: "high"
    exactly when [c] reaches the high threshold, "low" exactly when it is
    between the low and the medium threshold, "medium" when it is between
    the medium and the high threshold or when it is below the low
    threshold, no pattern matched and the garbage detector fired; "none"
    otherwise. *)
Theorem confidence_by_thresholds (h : Host) (s : jsstring) :
  too_short (VStr s) = false ->
  (forall (A : Arith) (options : Options A) (sc : Scored A),
     score_text h s options = Return sc ->
     exists r,
       detect h (VStr s) options = Return r
       /\ let c := finalCheckpoint h options sc in
          let t := confidenceThresholds A (or_default (sensitivityLevel options) (of_Q A 3)) in
          let reached := sc_detected sc || geb A c (low t) in
          checkpoint r = toFixed A 2 c
          /\ (confidence r = ConfHigh <-> reached = true /\ geb A c (high t) = true)
          /\ (confidence r = ConfMedium
              <-> reached = true /\ geb A c (high t) = false /\ geb A c (medium t) = true
                  \/ reached = false /\ sc_hasGarbage sc = true)
          /\ (confidence r = ConfLow
              <-> reached = true /\ geb A c (high t) = false
                  /\ geb A c (medium t) = false /\ geb A c (low t) = true)
          /\ (confidence r = ConfNone
              <-> reached = true /\ geb A c (high t) = false
                  /\ geb A c (medium t) = false /\ geb A c (low t) = false
                  \/ reached = false /\ sc_hasGarbage sc = false))
  /\ (forall (options : Options ExactArith) (sc : Scored ExactArith),
        score_text h s options = Return sc ->
        exists r,
          detect h (VStr s) options = Return r
          /\ let c := finalCheckpoint h options sc in
             let t := confidenceThresholds ExactArith
                        (or_default (sensitivityLevel options) (of_Q ExactArith 3)) in
             checkpoint r = toFixed ExactArith 2 c
             /\ (confidence r = ConfHigh <-> (high t <= c)%Q)
             /\ (confidence r = ConfMedium
                 <-> (medium t <= c)%Q /\ (c < high t)%Q
                     \/ (c < low t)%Q /\ sc_detected sc = false /\ sc_hasGarbage sc = true)
             /\ (confidence r = ConfLow <-> (low t <= c)%Q /\ (c < medium t)%Q)
             /\ (confidence r = ConfNone
                 <-> (c < low t)%Q
                     /\ (sc_detected sc = true \/ sc_hasGarbage sc = false))).
Proof.
  intros Hshort. split.
  - intros A options sc Hsc.
    destruct (finalize_checkpoint h options sc) as [Hc Hv]. cbv zeta in Hv.
    exists (finalize h options sc). split.
    + unfold detect. rewrite Hshort, Hsc. reflexivity.
    + cbv zeta. split; [exact Hc|].
      pose proof (classify_chain
                    (confidenceThresholds A (or_default (sensitivityLevel options) (of_Q A 3)))
                    (sc_detected sc) (sc_hasGarbage sc) (finalCheckpoint h options sc)) as H.
      cbv zeta in H. rewrite <- Hv in H. exact H.
  - intros options sc Hsc.
    destruct (finalize_checkpoint h options sc) as [Hc Hv]. cbv zeta in Hv.
    exists (finalize h options sc). split.
    + unfold detect. rewrite Hshort, Hsc. reflexivity.
    + cbv zeta. split; [exact Hc|].
      destruct (thresholds_ordered
                  (or_default (sensitivityLevel options) (of_Q ExactArith 3)))
        as [Hlm Hmh].
      pose proof (classify_ordered _ (sc_detected sc) (sc_hasGarbage sc)
                    (finalCheckpoint h options sc) Hlm Hmh) as H.
      cbv zeta in H. rewrite <- Hv in H. exact H.
Qed.

(** ** Exceptions *)

Section Exceptions.
Variable h : Host.
Variable A : Arith.

Lemma language_throws (text l : jsstring) :
  mem_str l inherited_properties = true ->
  detectLanguageSpecificPatterns h A text (Some l)
  = Throw (TypeError (js "patterns[lang].forEach is not a function")).
Proof.
  intros Hl. apply mem_str_In in Hl. unfold inherited_properties in Hl.
  repeat (destruct Hl as [<-|Hl]; [vm_compute; reflexivity|]). destruct Hl.
Qed.

Lemma score_text_throws (s l : jsstring) (options : Options A) :
  language options = Some l -> mem_str l inherited_properties = true ->
  score_text h s options
  = Throw (TypeError (js "patterns[lang].forEach is not a function")).
Proof.
  intros El Hl. unfold score_text.
  destruct (extractKeywordArrays A _) as [keyword scorepoint].
  repeat lazymatch goal with
         | |- context [match ?e with pair _ _ => _ end] => destruct e as [? ?]
         end.
  unfold bind. rewrite El, (@language_throws _ _ Hl). reflexivity.
Qed.

End Exceptions.

(** X6. When the text passes the guard and the [language] option names a
    property that every object inherits ("constructor", "toString",
    "__proto__", ...), [detect] throws: the table of language patterns
    yields that property, which is truthy and has no [forEach], and the
    exception is the TypeError of that call. *)
Theorem detect_throws_on_inherited_language (h : Host) (A : Arith) (text : value)
  (options : Options A) (l : jsstring) :
  too_short (match text with VUndefined => VStr [] | _ => text end) = false ->
  language options = Some l ->
  mem_str l inherited_properties = true ->
  detect h text options
  = Throw (TypeError (js "patterns[lang].forEach is not a function")).
Proof.
  intros Hshort El Hl. unfold detect. rewrite Hshort.
  destruct text; try discriminate Hshort.
  rewrite (@score_text_throws h A s l options El Hl). reflexivity.
Qed.

(** ** What the matching loops keep *)

Section MatchInvariant.
Variable h : Host.
Variable A : Arith.

(** A property of the matches and the matched terms that holds at the
    start and is kept when matches are added. *)
Variable P : list jsstring -> list jsstring -> Prop.
Hypothesis P_start : P [] [].
Hypothesis P_add : forall all terms ms,
  P all terms ->
  P (all ++ ms) (fold_left (fun s m => set_add (toLowerCase h m) s) ms terms).

Let holds (st : Engine A) : Prop := P (e_allMatches st) (e_matchedTerms st).

Lemma holds_add (st : Engine A) ms : holds st -> holds (add_matches h st ms).
Proof. intros H. apply P_add. exact H. Qed.

Lemma approach_step_inv (env : Env A) processedText textFixed converted
  (approach : Approach A) (st : Engine A) (looseAttempted : nat) :
  holds st ->
  holds (fst (fst (approach_step h env processedText textFixed converted approach st
                                 looseAttempted))).
Proof.
  intros Hst. unfold approach_step.
  destruct (ap_pattern approach) as [pattern|]; [|exact Hst].
  cbv zeta.
  repeat lazymatch goal with
         | |- context [match ?e with pair _ _ => _ end] => destruct e as [? ?]
         end.
  repeat match goal with
         | |- context [if ?c then _ else _] => destruct c
         | |- context [match ?x with nil => _ | cons _ _ => _ end] => destruct x
         end; cbn [fst]; first [exact Hst | apply holds_add; exact Hst].
Qed.

Lemma run_approaches_inv (env : Env A) processedText textFixed converted
  (approaches : list (Approach A)) :
  forall (st : Engine A) (looseAttempted : nat),
  holds st ->
  holds (fst (run_approaches h env processedText textFixed converted approaches st
                             looseAttempted)).
Proof.
  induction approaches as [|approach rest IH]; intros st looseAttempted Hst;
    cbn [run_approaches fst]; [exact Hst|].
  pose proof (approach_step_inv env processedText textFixed converted approach
                looseAttempted Hst) as Hstep.
  destruct (approach_step h env processedText textFixed converted approach st
              looseAttempted) as [[st' loose'] foundMatch].
  cbn [fst] in Hstep. destruct foundMatch; [exact Hstep | apply IH; exact Hstep].
Qed.

Lemma supporting_keywords_inv (env : Env A) converted (st : Engine A) analysis :
  holds st -> holds (fst (supporting_keywords h env converted st analysis)).
Proof.
  intros Hst. unfold supporting_keywords.
  destruct (0 <? _); cbn [fst]; exact Hst.
Qed.

Lemma run_ignores_inv (env : Env A) ps pass processedText (ignores : list nat) :
  forall (st : Engine A) analysis,
  holds st ->
  holds (fst (fst (run_ignores h env ps pass processedText ignores st analysis))).
Proof.
  induction ignores as [|ignore rest IH]; intros st analysis Hst;
    cbn [run_ignores fst]; [exact Hst|].
  match goal with
  | |- context [run_approaches h env ?p ?t ?c ?a st 0] =>
    pose proof (run_approaches_inv env p t c a 0 Hst) as Hrun;
    destruct (run_approaches h env p t c a st 0) as [st' foundMatch]
  end.
  cbn [fst] in Hrun. destruct foundMatch; [|apply IH; exact Hrun].
  match goal with
  | |- context [supporting_keywords h env ?c st' analysis] =>
    pose proof (supporting_keywords_inv env c analysis Hrun) as Hsup;
    destruct (supporting_keywords h env c st' analysis) as [st'' analysis']
  end.
  exact Hsup.
Qed.

Lemma run_passes_inv (env : Env A) ps merged (passes : list (Pass A)) :
  forall (st : Engine A) analysis,
  holds st ->
  holds (fst (fst (run_passes h env ps merged passes st analysis))).
Proof.
  induction passes as [|pass rest IH]; intros st analysis Hst;
    cbn [run_passes fst]; [exact Hst|].
  match goal with
  | |- context [run_ignores h env ps pass ?p ?i st analysis] =>
    pose proof (run_ignores_inv env ps pass p i analysis Hst) as Hrun;
    destruct (run_ignores h env ps pass p i st analysis) as [[st' analysis'] detected]
  end.
  cbn [fst] in Hrun. destruct detected; [exact Hrun | apply IH; exact Hrun].
Qed.

Lemma score_text_inv (text : jsstring) (options : Options A) (sc : Scored A) :
  score_text h text options = Return sc ->
  P (sc_allMatches sc) (sc_matchedTerms sc).
Proof.
  unfold score_text. intros H.
  destruct (extractKeywordArrays A _) as [keyword scorepoint].
  repeat lazymatch type of H with
         | context [match ?e with pair _ _ => _ end] => destruct e as [? ?]
         end.
  unfold bind in H.
  destruct (detectLanguageSpecificPatterns h A _ _) as [languagePatterns|e];
    [|discriminate H].
  repeat lazymatch type of H with
         | context [match ?e with pair _ _ => _ end] =>
           lazymatch e with
           | run_passes _ _ _ _ _ _ _ => fail
           | _ => destruct e as [? ?]
           end
         end.
  match type of H with
  | context [run_passes h ?env ?ps ?m ?p ?st ?a] =>
    assert (Hinit : holds st) by exact P_start;
    pose proof (run_passes_inv env ps m p a Hinit) as Hrun;
    destruct (run_passes h env ps m p st a) as [[st' analysis'] detected]
  end.
  apply Return_inj in H. rewrite <- H. exact Hrun.
Qed.

End MatchInvariant.

Section MatchedTerms.
Variable h : Host.

Lemma set_add_In (t x : jsstring) (s : list jsstring) :
  In x (set_add t s) <-> In x s \/ x = t.
Proof.
  unfold set_add. destruct (mem_str t s) eqn:E.
  - apply mem_str_In in E. split; [intros H; left; exact H|].
    intros [H| ->]; assumption.
  - rewrite in_app_iff. cbn [In]. split.
    + intros [H|[H|[]]]; [left; exact H | right; symmetry; exact H].
    + intros [H| ->]; [left; exact H | right; left; reflexivity].
Qed.

Lemma set_add_NoDup (t : jsstring) (s : list jsstring) :
  NoDup s -> NoDup (set_add t s).
Proof.
  intros Hs. unfold set_add. destruct (mem_str t s) eqn:E; [exact Hs|].
  apply NoDup_app; [exact Hs | constructor; [intros [] | constructor] |].
  intros x Hx [<-|[]].
  apply mem_str_In in Hx. congruence.
Qed.

Lemma add_terms_In (ms : list jsstring) :
  forall s x,
  In x (fold_left (fun s m => set_add (toLowerCase h m) s) ms s)
  <-> In x s \/ In x (map (toLowerCase h) ms).
Proof.
  induction ms as [|m ms IH]; intros s x; cbn [fold_left map In]; [tauto|].
  rewrite IH, set_add_In. split.
  - intros [[H|H]|H]; [left; exact H | right; left; symmetry; exact H | right; right; exact H].
  - intros [H|[H|H]]; [left; left; exact H | left; right; symmetry; exact H | right; exact H].
Qed.

Lemma add_terms_NoDup (ms : list jsstring) :
  forall s, NoDup s -> NoDup (fold_left (fun s m => set_add (toLowerCase h m) s) ms s).
Proof.
  induction ms as [|m ms IH]; intros s Hs; cbn [fold_left]; [exact Hs|].
  apply IH. apply set_add_NoDup. exact Hs.
Qed.

Lemma dedupe_acc_NoDup (l : list jsstring) :
  forall seen, NoDup (dedupe_acc seen l)
               /\ forall x, In x (dedupe_acc seen l) -> ~ In x seen.
Proof.
  induction l as [|x l IH]; intros seen; cbn [dedupe_acc].
  - split; [constructor | intros x []].
  - destruct (mem_str x seen) eqn:E; [apply IH|].
    destruct (IH (x :: seen)) as [Hnd Hnot]. split.
    + constructor; [|exact Hnd]. intros Hin. apply (Hnot x Hin). left. reflexivity.
    + intros y [<-|Hy].
      * intros Hin. apply mem_str_In in Hin. congruence.
      * intros Hin. apply (Hnot y Hy). right. exact Hin.
Qed.

Lemma dedupe_NoDup (l : list jsstring) : NoDup (dedupe l).
Proof. apply dedupe_acc_NoDup. Qed.

End MatchedTerms.

(** X7. In the analysis of a result, [matchedTerms] and [allMatches] have
    no duplicates, and the matched terms are exactly the lower-cased
    matches. *)
Theorem matched_terms_are_lowercased_matches (h : Host) (A : Arith) (text : value)
  (options : Options A) (r : DetectionResult A) (o : object A)
  (terms matches : list jsstring) :
  detect h text options = Return r ->
  analysis r = Some o ->
  get_prop "matchedTerms" o = Some (AStrings A terms) ->
  get_prop "allMatches" o = Some (AStrings A matches) ->
  NoDup terms /\ NoDup matches
  /\ forall t, In t terms <-> exists m, In m matches /\ t = toLowerCase h m.
Proof.
  intros Hdet Han Hterms Hmatches.
  destruct (too_short (match text with VUndefined => VStr [] | _ => text end)) eqn:Hshort.
  { unfold detect in Hdet. rewrite Hshort in Hdet. apply Return_inj in Hdet.
    subst r. discriminate Han. }
  assert (Hshort' : too_short text = false) by (destruct text; auto; discriminate).
  destruct (detect_text h text options Hshort' Hdet) as (s & sc & _ & Hsc & ->).
  destruct (finalize_matches h options sc Han) as [Hmt Ham].
  rewrite Hmt in Hterms. apply Some_inj in Hterms. injection Hterms as <-.
  rewrite Ham in Hmatches. apply Some_inj in Hmatches. injection Hmatches as <-.
  pose proof (@score_text_inv h A
                (fun all terms => NoDup terms
                                  /\ forall t, In t terms <-> In t (map (toLowerCase h) all))
                (conj (NoDup_nil _) (fun t => iff_refl _))) as Hinv.
  destruct (Hinv) with (text := s) (options := options) (sc := sc) as [Hnd Hset].
  - intros all terms ms [Hnd Hset]. split; [apply add_terms_NoDup; exact Hnd|].
    intros t. rewrite add_terms_In, map_app, in_app_iff, Hset. reflexivity.
  - exact Hsc.
  - split; [exact Hnd|]. split.
    + destruct (0 <? _); [apply dedupe_NoDup | constructor].
    + intros t. rewrite Hset, in_map_iff.
      assert (Hsame : forall m, In m (if 0 <? List.length (sc_allMatches sc)
                                      then dedupe (sc_allMatches sc) else [])
                                <-> In m (sc_allMatches sc)).
      { intros m. destruct (sc_allMatches sc) as [|a l] eqn:E; [reflexivity|].
        cbn [List.length Nat.ltb Nat.leb]. apply dedupe_In. }
      split.
      * intros (m & <- & Hm). exists m. split; [apply Hsame; exact Hm | reflexivity].
      * intros (m & Hm & ->). exists m. split; [reflexivity | apply Hsame; exact Hm].
Qed.

(** ** Keywords and their weights *)

Section KeywordArrays.

Let aligned (acc : list jsstring * list Q) : Prop :=
  List.length (fst acc) = List.length (snd acc)
  /\ Forall (fun k => k <> []) (fst acc)
  /\ Forall (fun v => (0 <= v <= 1)%Q) (snd acc).

Lemma numeric_score_unit (n : number) : (0 <= numeric_score ExactArith 1 n <= 1)%Q.
Proof.
  destruct n as [q| |[|]]; cbn [numeric_score]; try (split; discriminate).
  destruct (negb (Qle_bool q 5)); [split; discriminate|].
  destruct (Qeq_bool q 4); [split; discriminate|].
  destruct (Qle_bool 0 q && Qle_bool q 1) eqn:E; [|split; discriminate].
  apply andb_true_iff in E. destruct E as [E0 E1].
  apply Qle_bool_iff in E0, E1. cbn [of_Q ExactArith]. rewrite Qred_correct.
  split; assumption.
Qed.

Lemma entry_score_unit (val : value) : (0 <= entry_score ExactArith val <= 1)%Q.
Proof.
  destruct val as [| |b|n|s|items|fields]; cbn [entry_score];
    try (split; discriminate).
  - destruct b; split; discriminate.
  - apply numeric_score_unit.
  - destruct (parseFloat s) eqn:E; try (split; discriminate);
      apply numeric_score_unit.
Qed.

Lemma aligned_snoc (acc : list jsstring * list Q) (k : jsstring) (v : Q) :
  aligned acc -> k <> [] -> (0 <= v <= 1)%Q ->
  aligned (fst acc ++ [k], snd acc ++ [v]).
Proof.
  intros (Hlen & Hk & Hv) Hk' Hv'. unfold aligned. cbn [fst snd].
  rewrite !length_app, Hlen. split; [reflexivity|].
  split; apply Forall_app; split; try assumption; constructor; auto.
Qed.

Lemma processEntry_aligned (acc : list jsstring * list Q) (entry : jsstring * value) :
  aligned acc -> aligned (processEntry ExactArith acc entry).
Proof.
  intros H. unfold processEntry. destruct acc as [keys values], entry as [key val].
  destruct (List.length key =? 0) eqn:E; [exact H|].
  apply (@aligned_snoc (keys, values)); [exact H | | apply entry_score_unit].
  intros ->. discriminate E.
Qed.

Lemma entries_aligned (entries : list (jsstring * value)) :
  forall acc, aligned acc -> aligned (fold_left (processEntry ExactArith) entries acc).
Proof.
  induction entries as [|e entries IH]; intros acc H; cbn [fold_left]; [exact H|].
  apply IH. apply processEntry_aligned. exact H.
Qed.

Lemma not_blank_not_empty (s : jsstring) : (0 <? List.length (trim s)) = true -> s <> [].
Proof. intros H ->. discriminate H. Qed.

(** X8. [extractKeywordArrays] returns as many weights as terms, whatever
    the keyword specification is; no term is the empty string and every
    weight lies between 0 and 1. *)
Theorem keyword_arrays_aligned (input : value) :
  List.length (fst (extractKeywordArrays ExactArith input))
  = List.length (snd (extractKeywordArrays ExactArith input))
  /\ Forall (fun k => k <> []) (fst (extractKeywordArrays ExactArith input))
  /\ Forall (fun v => (0 <= v <= 1)%Q) (snd (extractKeywordArrays ExactArith input)).
Proof.
  assert (Hnil : aligned ([], [])) by (repeat split; constructor).
  change (aligned (extractKeywordArrays ExactArith input)).
  destruct input as [| |b|n|s|items|fields]; cbn [extractKeywordArrays]; try exact Hnil.
  - destruct (0 <? List.length (trim s)) eqn:E; [|exact Hnil].
    apply (@aligned_snoc ([], [])); [exact Hnil | exact (not_blank_not_empty E)|].
    split; discriminate.
  - match goal with
    | |- aligned (fold_left ?f items ?a) =>
      assert (Hfold : forall acc, aligned acc -> aligned (fold_left f items acc));
        [|apply Hfold; exact Hnil]
    end.
    induction items as [|item items IH]; intros acc H; cbn [fold_left]; [exact H|].
    apply IH. destruct item as [| |b|n|s|items'|fields]; try exact H.
    + destruct (0 <? List.length (trim s)) eqn:E; [|exact H].
      apply aligned_snoc; [exact H | exact (not_blank_not_empty E)|]. split; discriminate.
    + apply entries_aligned. exact H.
    + apply entries_aligned. exact H.
  - apply entries_aligned. exact Hnil.
Qed.

End KeywordArrays.

(** ** The edit distance *)

Section Levenshtein.

(** A property [G ap bp v] of the entry [v] of the table for the prefixes
    [ap] of [a] and [bp] of [b], kept by every step of the recurrence. *)
Variable G : jsstring -> jsstring -> nat -> Prop.
Hypothesis G_row0 : forall bp, G [] bp (List.length bp).
Hypothesis G_col0 : forall ap, G ap [] (List.length ap).
Hypothesis G_step : forall ap bp ai bj p1 pj c1,
  G ap bp p1 -> G ap (bp ++ [bj]) pj -> G (ap ++ [ai]) bp c1 ->
  G (ap ++ [ai]) (bp ++ [bj])
    (Nat.min (Nat.min (c1 + 1) (pj + 1)) (p1 + (if (ai =? bj)%N then 0 else 1))).
Hypothesis G_transposed : forall ap bp v q, G ap bp v -> G ap bp (Nat.min v (q + 1)).

Lemma lev_row_ok (ai : N) (aprev : option N) (ap : jsstring) (bs : jsstring) :
  forall bp bprev p2 p1 ps c1,
  G ap bp p1 -> G (ap ++ [ai]) bp c1 -> row_ok G ap bp bs ps ->
  row_ok G (ap ++ [ai]) bp bs (lev_row ai aprev bs bprev p2 p1 ps c1).
Proof.
  induction bs as [|bj bs IH]; intros bp bprev p2 p1 ps c1 Hp1 Hc1 Hrow;
    destruct ps as [|pj ps]; cbn [row_ok lev_row] in *; try exact I; try contradiction.
  destruct Hrow as [Hpj Hrow].
  pose proof (G_step ai bj Hp1 Hpj Hc1) as Hv.
  assert (Hv' : G (ap ++ [ai]) (bp ++ [bj])
                  match aprev, bprev, p2 with
                  | Some am, Some bm, Some q =>
                    if ((ai =? bm) && (am =? bj))%N
                    then Nat.min (Nat.min (Nat.min (c1 + 1) (pj + 1))
                                          (p1 + (if (ai =? bj)%N then 0 else 1))) (q + 1)
                    else Nat.min (Nat.min (c1 + 1) (pj + 1))
                                 (p1 + (if (ai =? bj)%N then 0 else 1))
                  | _, _, _ => Nat.min (Nat.min (c1 + 1) (pj + 1))
                                       (p1 + (if (ai =? bj)%N then 0 else 1))
                  end).
  { destruct aprev, bprev, p2; try exact Hv.
    destruct ((ai =? _) && (_ =? bj))%N; [apply G_transposed|]; exact Hv. }
  split; [exact Hv'|]. apply IH; [exact Hpj | exact Hv' | exact Hrow].
Qed.

Lemma row0_ok (bs : jsstring) :
  forall bp, row_ok G [] bp bs (seq (S (List.length bp)) (List.length bs)).
Proof.
  induction bs as [|bj bs IH]; intros bp; cbn [row_ok seq List.length]; [exact I|].
  split.
  - replace (S (List.length bp)) with (List.length (bp ++ [bj]))
      by (rewrite length_app; cbn; lia).
    apply G_row0.
  - replace (S (S (List.length bp))) with (S (List.length (bp ++ [bj])))
      by (rewrite length_app; cbn; lia).
    apply IH.
Qed.

Lemma row_ok_last (ap : jsstring) (bs : jsstring) :
  forall bp row v0, G ap bp v0 -> row_ok G ap bp bs row ->
  G ap (bp ++ bs) (last (v0 :: row) 0).
Proof.
  induction bs as [|bj bs IH]; intros bp row v0 Hv0 Hrow;
    destruct row as [|v row]; cbn [row_ok] in Hrow; try contradiction.
  - rewrite app_nil_r. exact Hv0.
  - destruct Hrow as [Hv Hrow].
    change (last (v0 :: v :: row) 0) with (last (v :: row) 0).
    replace (bp ++ bj :: bs) with ((bp ++ [bj]) ++ bs) by (rewrite <- app_assoc; reflexivity).
    apply IH; assumption.
Qed.

Lemma lev_loop_ok (b : jsstring) (a : jsstring) :
  forall ap aprev v0 row,
  G ap [] v0 -> row_ok G ap [] b row ->
  G (ap ++ a) b
    (last (lev_loop a aprev (S (List.length ap)) b (v0 :: row)) 0).
Proof.
  induction a as [|ai a IH]; intros ap aprev v0 row Hv0 Hrow; cbn [lev_loop].
  - rewrite app_nil_r. exact (@row_ok_last ap b [] row v0 Hv0 Hrow).
  - cbn [hd tl].
    replace (ap ++ ai :: a) with ((ap ++ [ai]) ++ a) by (rewrite <- app_assoc; reflexivity).
    replace (S (S (List.length ap))) with (S (List.length (ap ++ [ai])))
      by (rewrite length_app; cbn; lia).
    assert (Hc0 : G (ap ++ [ai]) [] (S (List.length ap))).
    { replace (S (List.length ap)) with (List.length (ap ++ [ai]))
        by (rewrite length_app; cbn; lia).
      apply G_col0. }
    apply IH; [exact Hc0|].
    apply lev_row_ok; assumption.
Qed.

Lemma lev_table_ok (a b : jsstring) :
  G a b (last (lev_loop a None 1 b (seq 0 (List.length b + 1))) 0).
Proof.
  replace (List.length b + 1) with (S (List.length b)) by lia. cbn [seq].
  apply (@lev_loop_ok b a [] None 0 (seq 1 (List.length b))).
  - apply (G_col0 []).
  - apply (row0_ok b []).
Qed.

End Levenshtein.

Lemma str_eqb_refl (a : jsstring) : str_eqb a a = true.
Proof. apply str_eqb_eq. reflexivity. Qed.

Lemma lev_zero (a b : jsstring) :
  last (lev_loop a None 1 b (seq 0 (List.length b + 1))) 0 = 0 -> a = b.
Proof.
  apply (@lev_table_ok (fun ap bp v => v = 0 -> ap = bp)).
  - intros bp H. apply length_zero_iff_nil in H. subst. reflexivity.
  - intros ap H. apply length_zero_iff_nil in H. subst. reflexivity.
  - intros ap bp ai bj p1 pj c1 Hp1 _ _ H.
    destruct (ai =? bj)%N eqn:E; [|lia].
    apply N.eqb_eq in E. subst bj. rewrite Hp1 by lia. reflexivity.
  - intros ap bp v q H Hmin. apply H. lia.
Qed.

Lemma lev_bound (a b : jsstring) :
  last (lev_loop a None 1 b (seq 0 (List.length b + 1))) 0
  <= Nat.max (List.length a) (List.length b).
Proof.
  apply (@lev_table_ok (fun ap bp v => v <= Nat.max (List.length ap) (List.length bp))).
  - intros bp. cbn [List.length]. lia.
  - intros ap. cbn [List.length]. lia.
  - intros ap bp ai bj p1 pj c1 Hp1 _ _. rewrite !length_app. cbn [List.length].
    destruct (ai =? bj)%N; lia.
  - intros ap bp v q H. lia.
Qed.

Lemma levenshtein_same (maxDistance : nat) (a : jsstring) :
  levenshtein maxDistance a a = 0.
Proof. unfold levenshtein. rewrite str_eqb_refl. reflexivity. Qed.

Lemma levenshtein_at_most (maxDistance : nat) (a b : jsstring) :
  levenshtein maxDistance a b <= Nat.max (List.length a) (List.length b).
Proof.
  unfold levenshtein.
  destruct (str_eqb a b); [lia|].
  destruct (List.length a =? 0); [lia|].
  destruct (List.length b =? 0); [lia|].
  destruct (maxDistance <? _) eqn:E; [apply Nat.ltb_lt in E; lia | apply lev_bound].
Qed.

(** X9. The edit distance of [fuzzySearch] is 0 exactly for equal strings;
    it never exceeds the length of the longer string; and when the lengths
    differ by more than [maxDistance] it is [maxDistance + 1] without the
    table being filled. *)
Theorem levenshtein_distance (maxDistance : nat) (a b : jsstring) :
  (levenshtein maxDistance a b = 0 <-> a = b)
  /\ levenshtein maxDistance a b <= Nat.max (List.length a) (List.length b)
  /\ (a <> [] -> b <> [] ->
      maxDistance < Nat.max (List.length a) (List.length b)
                    - Nat.min (List.length a) (List.length b) ->
      levenshtein maxDistance a b = maxDistance + 1).
Proof.
  split; [|split; [apply levenshtein_at_most|]]; unfold levenshtein.
  - split.
    + destruct (str_eqb a b) eqn:E; [intros _; apply str_eqb_eq; exact E|].
      destruct (List.length a =? 0) eqn:Ea.
      { intros H. apply Nat.eqb_eq in Ea. apply length_zero_iff_nil in Ea, H. congruence. }
      destruct (List.length b =? 0) eqn:Eb.
      { intros H. apply Nat.eqb_neq in Ea. contradiction. }
      destruct (maxDistance <? _); [lia | apply lev_zero].
    + intros ->. rewrite str_eqb_refl. reflexivity.
  - intros Ha Hb Hd.
    destruct (str_eqb a b) eqn:E.
    { apply str_eqb_eq in E. subst b. lia. }
    destruct (List.length a =? 0) eqn:Ea.
    { apply Nat.eqb_eq, length_zero_iff_nil in Ea. contradiction. }
    destruct (List.length b =? 0) eqn:Eb.
    { apply Nat.eqb_eq, length_zero_iff_nil in Eb. contradiction. }
    apply Nat.ltb_lt in Hd. rewrite Hd. reflexivity.
Qed.

(** ** The fuzzy matcher *)

Section FuzzySearch.
Variable h : Host.

Let by_score (a b : FuzzyMatch ExactArith) : Prop := (score b <= score a)%Q.

Lemma insert_by_score_In (x y : FuzzyMatch ExactArith) (l : list (FuzzyMatch ExactArith)) :
  In y (insert_by_score x l) <-> y = x \/ In y l.
Proof.
  induction l as [|z l IH]; cbn [insert_by_score In].
  - split; [intros [H|[]]; left; symmetry; exact H | intros [H|[]]; left; symmetry; exact H].
  - destruct (ltb ExactArith (score z) (score x)); cbn [In].
    + split; [intros [H|H]; [left; symmetry; exact H | right; exact H]
             | intros [H|H]; [left; symmetry; exact H | right; exact H]].
    + rewrite IH. split.
      * intros [H|[H|H]]; [right; left; exact H | left; exact H | right; right; exact H].
      * intros [H|[H|H]]; [right; left; exact H | left; exact H | right; right; exact H].
Qed.

Lemma sort_by_score_In (y : FuzzyMatch ExactArith) (l : list (FuzzyMatch ExactArith)) :
  In y (sort_by_score l) <-> In y l.
Proof.
  unfold sort_by_score.
  assert (H : forall acc, In y (fold_left (fun sorted x => insert_by_score x sorted) l acc)
                          <-> In y acc \/ In y l).
  { induction l as [|x l IH]; intros acc; cbn [fold_left In]; [tauto|].
    rewrite IH, insert_by_score_In. split.
    - intros [[H|H]|H]; [right; left; symmetry; exact H | left; exact H | right; right; exact H].
    - intros [H|[H|H]]; [left; right; exact H | left; left; symmetry; exact H | right; exact H]. }
  rewrite H. cbn [In]. tauto.
Qed.

Lemma insert_by_score_sorted (x : FuzzyMatch ExactArith) (l : list (FuzzyMatch ExactArith)) :
  Sorted by_score l -> Sorted by_score (insert_by_score x l).
Proof.
  induction 1 as [|z l Hl IH Hz]; cbn [insert_by_score].
  - constructor; constructor.
  - destruct (ltb ExactArith (score z) (score x)) eqn:E.
    + apply exact_ltb in E. constructor; [constructor; assumption|].
      constructor. unfold by_score. apply Qlt_le_weak. exact E.
    + apply exact_ltb_false in E. constructor; [exact IH|].
      destruct l as [|w l]; cbn [insert_by_score].
      * constructor. exact E.
      * destruct (ltb ExactArith (score w) (score x)); constructor; [exact E|].
        inversion Hz; assumption.
Qed.

Lemma sort_by_score_sorted (l : list (FuzzyMatch ExactArith)) :
  Sorted by_score (sort_by_score l).
Proof.
  unfold sort_by_score.
  assert (H : forall acc, Sorted by_score acc ->
                Sorted by_score (fold_left (fun sorted x => insert_by_score x sorted) l acc)).
  { induction l as [|x l IH]; intros acc Hacc; cbn [fold_left]; [exact Hacc|].
    apply IH. apply insert_by_score_sorted. exact Hacc. }
  apply H. constructor.
Qed.

Lemma calculateScore_unit (q i : jsstring) (d : nat) :
  d <= Nat.max (List.length q) (List.length i) ->
  (0 <= calculateScore ExactArith q i d <= 1)%Q.
Proof.
  intros Hd. unfold calculateScore.
  destruct (d =? 0) eqn:E0; [split; discriminate|].
  apply Nat.eqb_neq in E0.
  set (m := Nat.max (List.length q) (List.length i)) in *.
  rewrite exact_min. cbn [of_Q ExactArith add sub div]. unfold of_nat. cbn [of_Q ExactArith].
  rewrite !Qred_correct.
  assert (Hm : (0 < inject_Z (Z.of_nat m))%Q).
  { rewrite <- (Zlt_Qlt 0). lia. }
  assert (Hbase : (0 <= 1 - inject_Z (Z.of_nat d) / inject_Z (Z.of_nat m))%Q).
  { assert (Hdiv : (inject_Z (Z.of_nat d) / inject_Z (Z.of_nat m) <= 1)%Q).
    { apply Qle_shift_div_r; [exact Hm|]. rewrite Qmult_1_l. rewrite <- Zle_Qle. lia. }
    lra. }
  split.
  - apply Q.min_glb; [discriminate|].
    generalize dependent (inject_Z (Z.of_nat d) / inject_Z (Z.of_nat m))%Q. intros t Ht.
    destruct (includes i q), (starts_with q i); rewrite !Qred_correct; lra.
  - apply Q.le_min_l.
Qed.

(** X10. The results of [fuzzySearch] are in decreasing order of score;
    each one pairs a word of the normalized query with an item of the list
    whose normalized form is within [maxDistance] of the word, and its
    score is the rounding of a value between [minScore] and 1, hence at
    most 1 and not negative. *)
Theorem fuzzySearch_results (lst : list jsstring) (query : jsstring)
  (maxDistance : option nat) (minScore : option Q) :
  let results := fuzzySearch h ExactArith lst query maxDistance minScore in
  let distance := or_default maxDistance 2 in
  Sorted (fun a b : FuzzyMatch ExactArith => (score b <= score a)%Q) results
  /\ forall r, In r results ->
       In (matched_with r) lst
       /\ In (matched_word r) (split h (re "\s+" "") (fuzzyNormalize h query))
       /\ levenshtein distance (matched_word r) (fuzzyNormalize h (matched_with r))
          <= distance
       /\ (0 <= score r <= 1)%Q
       /\ exists s, score r = toFixed ExactArith 3 s
                    /\ (or_default minScore 0.5 <= s)%Q /\ (0 <= s <= 1)%Q.
Proof.
  cbv zeta. unfold fuzzySearch.
  change (match maxDistance with Some d => d | None => 2 end) with (or_default maxDistance 2).
  set (d := or_default maxDistance 2).
  destruct (List.length (trim query) =? 0); [split; [constructor | intros r []]|].
  split; [apply sort_by_score_sorted|].
  intros r Hr. apply (proj1 (sort_by_score_In _ _)) in Hr.
  apply in_flat_map in Hr. destruct Hr as (word & Hword & Hr).
  apply in_flat_map in Hr. destruct Hr as (item & Hitem & Hr).
  set (dist := levenshtein d word (fuzzyNormalize h item)) in *.
  set (s := calculateScore ExactArith word (fuzzyNormalize h item) dist) in *.
  destruct ((dist <=? d) && geb ExactArith s _) eqn:E; [|destruct Hr].
  destruct Hr as [<-|[]]. cbn [matched_with matched_word score].
  apply andb_true_iff in E. destruct E as [Ed Es].
  apply Nat.leb_le in Ed. apply exact_geb in Es.
  assert (Hs : (0 <= s <= 1)%Q).
  { apply calculateScore_unit. apply levenshtein_at_most. }
  split; [exact Hitem|]. split; [exact Hword|]. split; [exact Ed|].
  split; [apply (toFixed_bounds 3 (c := 1)); exact Hs|].
  exists s. split; [reflexivity|]. split; [|exact Hs].
  destruct minScore as [m|]; cbn [or_default]; [exact Es|].
  cbn [of_Q ExactArith] in Es. rewrite Qred_correct in Es. exact Es.
Qed.

(** X11. An item whose normalized form is a word of the normalized query
    is always among the results of [fuzzySearch], with the score 1,
    provided [minScore] is at most 1. *)
Theorem fuzzySearch_finds_equal_items (lst : list jsstring) (query item : jsstring)
  (maxDistance : option nat) (minScore : option Q) :
  In item lst ->
  In (fuzzyNormalize h item) (split h (re "\s+" "") (fuzzyNormalize h query)) ->
  List.length (trim query) <> 0 ->
  (or_default minScore 0.5 <= 1)%Q ->
  In (Build_FuzzyMatch ExactArith (fuzzyNormalize h item) item 1%Q)
     (fuzzySearch h ExactArith lst query maxDistance minScore).
Proof.
  intros Hitem Hword Hquery Hmin. unfold fuzzySearch.
  apply Nat.eqb_neq in Hquery. rewrite Hquery.
  apply (proj2 (sort_by_score_In _ _)). apply in_flat_map.
  exists (fuzzyNormalize h item). split; [exact Hword|].
  apply in_flat_map. exists item. split; [exact Hitem|].
  assert (E0 : levenshtein (match maxDistance with Some d => d | None => 2 end)
                           (fuzzyNormalize h item) (fuzzyNormalize h item) = 0)
    by apply levenshtein_same.
  rewrite E0. unfold calculateScore. cbn [Nat.eqb Nat.leb andb].
  assert (Es : geb ExactArith (of_Q ExactArith 1)
                   (match minScore with Some m => m | None => of_Q ExactArith 0.5 end) = true).
  { apply exact_geb. destruct minScore as [m|]; cbn [or_default] in Hmin.
    - cbn [of_Q ExactArith]. exact Hmin.
    - discriminate. }
  match goal with
  | |- In _ (if ?c then _ else _) => replace c with true by (symmetry; exact Es)
  end.
  left. reflexivity.
Qed.

End FuzzySearch.

(** ** Signals with a score *)

Section Signals.
Variable h : Host.

(** Whether a contact pattern matches, and what it matches. *)
Let hit (text : jsstring) (p : string * RegExp) : bool :=
  found (str_match h (snd p) text).
Let hits (text : jsstring) (p : string * RegExp) : list jsstring :=
  if hit text p then or_default (str_match h (snd p) text) [] else [].

Lemma contact_fold (text : jsstring) (patterns : list (string * RegExp)) :
  forall info,
  fold_left
    (fun contactInfo '(type, pattern) =>
       match str_match h pattern text with
       | Some matches =>
         if 0 <? List.length matches then
           {| ci_found := true;
              ci_types := ci_types contactInfo ++ [js type];
              ci_values := ci_values contactInfo ++ matches |}
         else contactInfo
       | None => contactInfo
       end)
    patterns info
  = {| ci_found := ci_found info || existsb (hit text) patterns;
       ci_types := ci_types info ++ map (fun p => js (fst p)) (filter (hit text) patterns);
       ci_values := ci_values info ++ flat_map (hits text) patterns |}.
Proof.
  induction patterns as [|[type pattern] patterns IH]; intros info; cbn [fold_left].
  - cbn. rewrite orb_false_r, !app_nil_r. destruct info; reflexivity.
  - rewrite IH. cbn [existsb filter flat_map map]. unfold hits, hit. cbn [fst snd].
    destruct (str_match h pattern text) as [[|m matches]|];
      cbn [found List.length Nat.ltb Nat.leb or_default ci_found ci_types ci_values
           map app orb];
      rewrite <- ?app_assoc, ?orb_true_r; reflexivity.
Qed.

(** X12. In the contact information [extractContactInfos] returns,
    [found] is true exactly when a type is listed, and exactly when a value
    is listed; the types are those of the patterns that match, each once,
    in the order whatsapp, telegram, phone, instagram, line, website. *)
Theorem contact_info_consistent (text : jsstring) :
  let info := extractContactInfos h text in
  (ci_found info = true <-> ci_types info <> [])
  /\ (ci_found info = true <-> ci_values info <> [])
  /\ ci_types info
     = map (fun p => js (fst p))
           (filter (fun p => found (str_match h (snd p) text)) contactPatterns)
  /\ List.length (ci_types info) <= 6.
Proof.
  cbv zeta. unfold extractContactInfos. rewrite contact_fold.
  cbn [ci_found ci_types ci_values orb app].
  assert (Hfound : forall ps, existsb (hit text) ps = true
                              <-> map (fun p => js (fst p)) (filter (hit text) ps) <> []).
  { induction ps as [|p ps IH]; cbn [existsb filter map].
    - split; [discriminate | intros H; exfalso; apply H; reflexivity].
    - destruct (hit text p); cbn [orb map]; [split; [discriminate | reflexivity] | exact IH]. }
  assert (Hvalues : forall ps, existsb (hit text) ps = true <-> flat_map (hits text) ps <> []).
  { unfold hits, hit. induction ps as [|p ps IH]; cbn [existsb flat_map].
    - split; [discriminate | intros H; exfalso; apply H; reflexivity].
    - destruct (str_match h (snd p) text) as [[|m matches]|];
        cbn [found orb or_default app]; try exact IH.
      split; [discriminate | reflexivity]. }
  split; [apply Hfound|]. split; [apply Hvalues|]. split; [reflexivity|].
  rewrite length_map.
  apply Nat.le_trans with (List.length contactPatterns); [apply filter_length_le | apply le_n].
Qed.

(** Contextual indicators and evasion techniques *)

Lemma weight_none (a w : Q) : (a == a + inject_Z (Z.of_nat 0) * w)%Q.
Proof. cbn. ring. Qed.

Lemma weight_more (a w : Q) (n : nat) :
  (Qred (a + w) + inject_Z (Z.of_nat n) * w == a + inject_Z (Z.of_nat (S n)) * w)%Q.
Proof.
  rewrite Qred_correct, Nat2Z.inj_succ, <- Z.add_1_r, inject_Z_plus. ring.
Qed.

Lemma weights_sum (m u c p : nat) :
  (Qred 0 + inject_Z (Z.of_nat m) * Qred 0.05 + inject_Z (Z.of_nat u) * Qred 0.03
   + inject_Z (Z.of_nat c) * Qred 0.03 + inject_Z (Z.of_nat p) * Qred 0.01
   == 0.05 * inject_Z (Z.of_nat m) + 0.03 * inject_Z (Z.of_nat u)
      + 0.03 * inject_Z (Z.of_nat c) + 0.01 * inject_Z (Z.of_nat p))%Q.
Proof. rewrite !Qred_correct. ring. Qed.

Lemma indicator_fold (text : jsstring) (weight : Q) (reason : string)
  (patterns : list RegExp) :
  forall indicators : Indicators ExactArith,
  exists n,
    n <= List.length patterns
    /\ (ind_score (fold_left (@indicator_step h ExactArith text weight reason) patterns indicators)
        == ind_score indicators + inject_Z (Z.of_nat n) * weight)%Q
    /\ ind_reasons (fold_left (@indicator_step h ExactArith text weight reason) patterns indicators)
       = ind_reasons indicators ++ repeat (js reason) n.
Proof.
  induction patterns as [|pattern patterns IH]; intros indicators; cbn [fold_left].
  - exists 0. cbn [repeat List.length]. rewrite app_nil_r. split; [lia|].
    split; [apply weight_none | reflexivity].
  - unfold indicator_step at 2 4.
    destruct (test h pattern text).
    + destruct (IH {| ind_score := add ExactArith (ind_score indicators) weight;
                      ind_reasons := ind_reasons indicators ++ [js reason] |})
        as (n & Hn & Hs & Hr).
      cbn [ind_score ind_reasons] in Hs, Hr. exists (S n). split; [cbn; lia|]. split.
      * rewrite Hs. apply weight_more.
      * rewrite Hr, <- app_assoc. reflexivity.
    + destruct (IH indicators) as (n & Hn & Hs & Hr).
      exists n. split; [cbn; lia|]. split; assumption.
Qed.

(** X13. [detectContextualGamblingIndicators] reports "monetary_phrase"
    up to 4 times, "urgency_phrase" up to 2 times, "cs_indicator" up to 3
    times and "payment_indicator" up to 2 times, in that order, and its
    score is 0.05, 0.03, 0.03 and 0.01 for each of them; so the score is
    positive exactly when a reason is reported, and at most 0.37. *)
Theorem contextual_score_of_reasons (text : jsstring) :
  let indicators := detectContextualGamblingIndicators h ExactArith text in
  (exists m u c p,
     m <= 4 /\ u <= 2 /\ c <= 3 /\ p <= 2
     /\ ind_reasons indicators
        = repeat (js "monetary_phrase") m ++ repeat (js "urgency_phrase") u
          ++ repeat (js "cs_indicator") c ++ repeat (js "payment_indicator") p
     /\ (ind_score indicators
         == 0.05 * inject_Z (Z.of_nat m) + 0.03 * inject_Z (Z.of_nat u)
            + 0.03 * inject_Z (Z.of_nat c) + 0.01 * inject_Z (Z.of_nat p))%Q)
  /\ ((0 < ind_score indicators)%Q <-> ind_reasons indicators <> [])
  /\ (0 <= ind_score indicators <= 0.37)%Q.
Proof.
  cbv zeta.
  assert (H : exists m u c p,
     m <= 4 /\ u <= 2 /\ c <= 3 /\ p <= 2
     /\ ind_reasons (detectContextualGamblingIndicators h ExactArith text)
        = repeat (js "monetary_phrase") m ++ repeat (js "urgency_phrase") u
          ++ repeat (js "cs_indicator") c ++ repeat (js "payment_indicator") p
     /\ (ind_score (detectContextualGamblingIndicators h ExactArith text)
         == 0.05 * inject_Z (Z.of_nat m) + 0.03 * inject_Z (Z.of_nat u)
            + 0.03 * inject_Z (Z.of_nat c) + 0.01 * inject_Z (Z.of_nat p))%Q).
  { unfold detectContextualGamblingIndicators.
    match goal with
    | |- context [fold_left (@indicator_step h ExactArith text ?w4 ?r4) ?p4
                    (fold_left (@indicator_step h ExactArith text ?w3 ?r3) ?p3
                       (fold_left (@indicator_step h ExactArith text ?w2 ?r2) ?p2
                          (fold_left (@indicator_step h ExactArith text ?w1 ?r1) ?p1 ?i0)))] =>
      destruct (indicator_fold text w1 r1 p1 i0) as (m & Hm & Hs1 & Hr1);
      set (i1 := fold_left (@indicator_step h ExactArith text w1 r1) p1 i0) in *;
      destruct (indicator_fold text w2 r2 p2 i1) as (u & Hu & Hs2 & Hr2);
      set (i2 := fold_left (@indicator_step h ExactArith text w2 r2) p2 i1) in *;
      destruct (indicator_fold text w3 r3 p3 i2) as (c & Hc & Hs3 & Hr3);
      set (i3 := fold_left (@indicator_step h ExactArith text w3 r3) p3 i2) in *;
      destruct (indicator_fold text w4 r4 p4 i3) as (p & Hp & Hs4 & Hr4);
      set (i4 := fold_left (@indicator_step h ExactArith text w4 r4) p4 i3) in *
    end.
    exists m, u, c, p. cbn [List.length] in Hm, Hu, Hc, Hp.
    split; [exact Hm|]. split; [exact Hu|]. split; [exact Hc|]. split; [exact Hp|]. split.
    - rewrite Hr4, Hr3, Hr2, Hr1. cbn [ind_reasons app]. rewrite <- !app_assoc. reflexivity.
    - rewrite Hs4, Hs3, Hs2, Hs1. apply weights_sum. }
  split; [exact H|].
  destruct H as (m & u & c & p & Hm & Hu & Hc & Hp & Hr & Hs).
  assert (Bm : (0 <= inject_Z (Z.of_nat m) <= 4)%Q)
    by (split; [rewrite <- (Zle_Qle 0) | rewrite <- (Zle_Qle _ 4)]; lia).
  assert (Bu : (0 <= inject_Z (Z.of_nat u) <= 2)%Q)
    by (split; [rewrite <- (Zle_Qle 0) | rewrite <- (Zle_Qle _ 2)]; lia).
  assert (Bc : (0 <= inject_Z (Z.of_nat c) <= 3)%Q)
    by (split; [rewrite <- (Zle_Qle 0) | rewrite <- (Zle_Qle _ 3)]; lia).
  assert (Bp : (0 <= inject_Z (Z.of_nat p) <= 2)%Q)
    by (split; [rewrite <- (Zle_Qle 0) | rewrite <- (Zle_Qle _ 2)]; lia).
  split; [|rewrite Hs; lra].
  rewrite Hs, Hr. split.
  - intros Hpos Hnil.
    repeat (apply app_eq_nil in Hnil; destruct Hnil as [? Hnil]).
    destruct m, u, c, p; discriminate.
  - intros Hne.
    assert (Hsum : 0 < m + u + c + p).
    { destruct m, u, c, p; try lia. exfalso. apply Hne. reflexivity. }
    assert (Cases : (1 <= inject_Z (Z.of_nat m) \/ 1 <= inject_Z (Z.of_nat u)
                     \/ 1 <= inject_Z (Z.of_nat c) \/ 1 <= inject_Z (Z.of_nat p))%Q).
    { destruct m; [destruct u; [destruct c; [destruct p; [lia|]|]|]|];
        [right; right; right | right; right; left | right; left | left];
        rewrite <- (Zle_Qle 1); lia. }
    destruct Cases as [C|[C|[C|C]]]; lra.
Qed.

End Signals.

(** X14. The score of [analyzeEvasionTechniques] is the sum of the weights
    of the techniques it reports (0.3 for each character substitution
    pattern, 0.4 for word separation, 0.2 for unusual spacing, 0.2 for mixed
    case, 0.5 for reversed text); so it is positive exactly when a
    technique is reported, and at most 1.9, with at most 6 techniques. *)
Theorem evasion_score_of_techniques (h : Host) (text : jsstring) :
  let analysis := analyzeEvasionTechniques h ExactArith text in
  (ev_score analysis == total_weight (ev_techniques analysis))%Q
  /\ ((0 < ev_score analysis)%Q <-> ev_techniques analysis <> [])
  /\ (0 <= ev_score analysis <= 1.9)%Q
  /\ List.length (ev_techniques analysis) <= 6.
Proof.
  cbv zeta. unfold analyzeEvasionTechniques. cbn [fold_left].
  repeat match goal with
         | |- context [if ?c then _ else _] => destruct c
         end;
    (split; [vm_compute; reflexivity|]);
    (split; [first [ split; [intros _; discriminate | intros _; reflexivity]
                   | split; [intros H; discriminate H
                            | intros H; exfalso; apply H; reflexivity] ]|]);
    (split; [split; vm_compute; discriminate|]);
    cbn; lia.
Qed.

(** ** The supporting keywords *)


(** ** Expressions that match one code unit *)

Section UnitRegex.
Variable h : Host.
Variable rx : RegExp.
Variable p : N -> bool.

Hypothesis rx_global : re_global rx = true.
Hypothesis rx_at : forall prev c rest pos,
  rmatch h (re_icase rx) (re_ast rx) (MS prev (c :: rest) pos (repeat None (re_groups rx))) Some
  = if p c then Some (MS (Some c) rest (S pos) (repeat None (re_groups rx))) else None.
Hypothesis rx_end : forall prev pos,
  rmatch h (re_icase rx) (re_ast rx) (MS prev [] pos (repeat None (re_groups rx))) Some = None.

Lemma unit_search (rest : jsstring) :
  forall prev pos,
  search h rx prev rest pos
  = match unit_matches (re_groups rx) p pos rest with
    | [] => None
    | m :: _ => Some m
    end.
Proof.
  induction rest as [|c rest IH]; intros prev pos; cbn [search unit_matches].
  - rewrite rx_end. reflexivity.
  - rewrite rx_at. destruct (p c).
    + cbn [ms_pos]. unfold unit_match.
      replace (S pos - pos) with 1 by lia. reflexivity.
    + apply IH.
Qed.

Lemma unit_matches_rest (rest : jsstring) :
  forall pos m ms, unit_matches (re_groups rx) p pos rest = m :: ms ->
  m_end m <> m_start m
  /\ List.length (ms_rest (m_after m)) < List.length rest
  /\ ms = unit_matches (re_groups rx) p (ms_pos (m_after m)) (ms_rest (m_after m)).
Proof.
  induction rest as [|c rest IH]; intros pos m ms H; cbn [unit_matches] in H;
    [discriminate H|].
  destruct (p c).
  - injection H as <- <-. cbn. repeat split; lia.
  - destruct (IH _ _ _ H) as (H1 & H2 & H3). repeat split; try assumption.
    cbn [List.length]. lia.
Qed.

Lemma unit_matches_from (fuel : nat) :
  forall rest prev pos,
  List.length rest < fuel ->
  matches_from h rx fuel prev rest pos = unit_matches (re_groups rx) p pos rest.
Proof.
  induction fuel as [|fuel IH]; intros rest prev pos Hfuel; [lia|].
  cbn [matches_from]. rewrite unit_search.
  destruct (unit_matches (re_groups rx) p pos rest) as [|m ms] eqn:E; [reflexivity|].
  destruct (unit_matches_rest _ _ E) as (Hne & Hlen & Hms).
  apply Nat.eqb_neq in Hne. rewrite Hne. rewrite IH by lia. rewrite Hms. reflexivity.
Qed.

Lemma unit_all_matches (s : jsstring) :
  all_matches h rx s = unit_matches (re_groups rx) p 0 s.
Proof. unfold all_matches. apply unit_matches_from. lia. Qed.

Lemma unit_rebuild (f : rmatch_result -> jsstring) (rest : jsstring) :
  forall pre mid,
  rebuild (pre ++ mid ++ rest) (List.length pre)
          (unit_matches (re_groups rx) p (List.length pre + List.length mid) rest) f
  = mid ++ replace_units p (re_groups rx) f (List.length pre + List.length mid) rest.
Proof.
  induction rest as [|c rest IH]; intros pre mid; cbn [unit_matches replace_units rebuild].
  - rewrite !app_nil_r, skipn_app, skipn_all, Nat.sub_diag. reflexivity.
  - destruct (p c) eqn:E.
    + cbn [rebuild unit_match m_start m_end].
      assert (Hle : (List.length pre <=? List.length pre + List.length mid) = true)
        by (apply Nat.leb_le; lia).
      rewrite Hle. unfold slice.
      replace (List.length pre + List.length mid - List.length pre) with (List.length mid)
        by lia.
      rewrite skipn_app, skipn_all, Nat.sub_diag. cbn [skipn app].
      rewrite firstn_app, firstn_all, Nat.sub_diag. cbn [firstn]. rewrite app_nil_r.
      f_equal. f_equal.
      specialize (IH (pre ++ mid ++ [c]) []).
      rewrite !length_app in IH. cbn [List.length app] in IH.
      rewrite Nat.add_0_r in IH.
      replace (List.length pre + (List.length mid + 1))
        with (S (List.length pre + List.length mid)) in IH by lia.
      rewrite <- IH. f_equal. rewrite <- !app_assoc. reflexivity.
    + specialize (IH pre (mid ++ [c])).
      rewrite !length_app in IH. cbn [List.length] in IH.
      replace (List.length pre + (List.length mid + 1))
        with (S (List.length pre + List.length mid)) in IH by lia.
      rewrite <- !app_assoc in IH. cbn [app] in IH. rewrite IH. reflexivity.
Qed.

Lemma unit_replace_fn (f : rmatch_result -> jsstring) (s : jsstring) :
  replace_fn h rx f s = replace_units p (re_groups rx) f 0 s.
Proof.
  unfold replace_fn. rewrite rx_global, unit_all_matches.
  exact (unit_rebuild f s [] []).
Qed.

Lemma unit_match_count (s : jsstring) :
  match_count h rx s = List.length (filter p s).
Proof.
  unfold match_count, str_match, match_global. rewrite rx_global, unit_all_matches.
  assert (H : forall pos, List.length (unit_matches (re_groups rx) p pos s)
                          = List.length (filter p s)).
  { induction s as [|c s IH]; intros pos; cbn [unit_matches filter]; [reflexivity|].
    destruct (p c); cbn [List.length]; rewrite IH; reflexivity. }
  specialize (H 0). destruct (unit_matches (re_groups rx) p 0 s); [|rewrite length_map]; exact H.
Qed.

End UnitRegex.

Section UnitShapes.
Variable h : Host.

(** A class, or a character, as the whole expression. *)
Lemma class_at (neg : bool) (items : list citem) (global icase : bool) :
  let rx := {| re_ast := RClass neg items; re_groups := 0;
               re_global := global; re_icase := icase |} in
  (forall prev c rest pos,
     rmatch h (re_icase rx) (re_ast rx) (MS prev (c :: rest) pos (repeat None (re_groups rx)))
            Some
     = if xorb neg (class_has h icase items c)
       then Some (MS (Some c) rest (S pos) (repeat None (re_groups rx))) else None)
  /\ (forall prev pos,
        rmatch h (re_icase rx) (re_ast rx) (MS prev [] pos (repeat None (re_groups rx))) Some
        = None).
Proof. split; reflexivity. Qed.

Lemma char_at (a : N) (global icase : bool) :
  let rx := {| re_ast := RChar a; re_groups := 0;
               re_global := global; re_icase := icase |} in
  (forall prev c rest pos,
     rmatch h (re_icase rx) (re_ast rx) (MS prev (c :: rest) pos (repeat None (re_groups rx)))
            Some
     = if char_eqb h icase a c
       then Some (MS (Some c) rest (S pos) (repeat None (re_groups rx))) else None)
  /\ (forall prev pos,
        rmatch h (re_icase rx) (re_ast rx) (MS prev [] pos (repeat None (re_groups rx))) Some
        = None).
Proof. split; reflexivity. Qed.

Lemma class_replace_fn (neg : bool) (items : list citem) (icase : bool)
  (f : rmatch_result -> jsstring) (s : jsstring) :
  replace_fn h {| re_ast := RClass neg items; re_groups := 0;
                  re_global := true; re_icase := icase |} f s
  = replace_units (fun c => xorb neg (class_has h icase items c)) 0 f 0 s.
Proof.
  destruct (class_at neg items true icase) as [Hat Hend].
  exact (@unit_replace_fn h
           {| re_ast := RClass neg items; re_groups := 0;
              re_global := true; re_icase := icase |}
           (fun c => xorb neg (class_has h icase items c)) eq_refl Hat Hend f s).
Qed.

Lemma char_replace_fn (a : N) (icase : bool) (f : rmatch_result -> jsstring)
  (s : jsstring) :
  replace_fn h {| re_ast := RChar a; re_groups := 0;
                  re_global := true; re_icase := icase |} f s
  = replace_units (char_eqb h icase a) 0 f 0 s.
Proof.
  destruct (char_at a true icase) as [Hat Hend].
  exact (@unit_replace_fn h
           {| re_ast := RChar a; re_groups := 0; re_global := true; re_icase := icase |}
           (char_eqb h icase a) eq_refl Hat Hend f s).
Qed.

End UnitShapes.

(** ** Escaping, cleaning and leet-speak replacement *)

Section Replacements.
Variable h : Host.

Lemma escape_class_parsed :
  re "[.*+?^${}()|[\]\\]" "g"
  = {| re_ast := RClass false (map CI_char (js ".*+?^${}()|[]\"));
       re_groups := 0; re_global := true; re_icase := false |}.
Proof. vm_compute. reflexivity. Qed.

Lemma class_of_chars (l : jsstring) (c : N) :
  class_has h false (map CI_char l) c = existsb (N.eqb c) l.
Proof.
  unfold class_has. cbn [andb]. rewrite orb_false_r.
  induction l as [|a l IH]; cbn [map existsb item_has]; [reflexivity|].
  rewrite IH, (N.eqb_sym a c). reflexivity.
Qed.

Lemma escapeRegExp_escapes (term : jsstring) :
  escapeRegExp h term = flat_map escape_unit term.
Proof.
  unfold escapeRegExp, replace. rewrite escape_class_parsed.
  rewrite class_replace_fn.
  generalize 0 at 2. generalize term at 1.
  induction term as [|c term IH]; intros s pos; cbn [replace_units flat_map]; [reflexivity|].
  rewrite IH. f_equal.
  cbn [xorb]. rewrite class_of_chars. unfold escape_unit, is_syntax_character.
  destruct (existsb (N.eqb c) (js ".*+?^${}()|[]\")); reflexivity.
Qed.

Lemma combining_class_parsed :
  re "[\u0300-\u036f]" "g"
  = {| re_ast := RClass false [CI_range 768 879];
       re_groups := 0; re_global := true; re_icase := false |}.
Proof. vm_compute. reflexivity. Qed.

Lemma replace_units_none (p : N -> bool) (groups : nat) (f : rmatch_result -> jsstring)
  (s : jsstring) :
  forallb (fun c => negb (p c)) s = true ->
  forall pos, replace_units p groups f pos s = s.
Proof.
  induction s as [|c s IH]; intros H pos; cbn [replace_units]; [reflexivity|].
  cbn [forallb] in H. apply andb_true_iff in H. destruct H as [Hc Hs].
  apply negb_true_iff in Hc. rewrite Hc, IH by exact Hs. reflexivity.
Qed.

(** X17. [cleanText] returns an ASCII text unchanged: the normalization and
    the removal of combining marks only touch code units outside ASCII. *)
Theorem cleanText_ascii (text : jsstring) :
  forallb is_ascii text = true -> cleanText h text = text.
Proof.
  intros Hascii. unfold cleanText, normalize. rewrite Hascii.
  unfold replace. rewrite combining_class_parsed.
  rewrite class_replace_fn.
  rewrite replace_units_none; [rewrite Hascii; reflexivity|].
  apply forallb_forall. intros c Hc.
  rewrite forallb_forall in Hascii. specialize (Hascii c Hc).
  unfold is_ascii in Hascii. apply N.ltb_lt in Hascii.
  unfold class_has. cbn [existsb item_has andb orb xorb].
  assert (E : (768 <=? c)%N = false) by (apply N.leb_gt; lia).
  rewrite E. reflexivity.
Qed.

End Replacements.

Section LeetReplacement.
Variable h : Host.

Lemma replace_by_char (k v : N) (s : jsstring) :
  replace h (char_regex k) [v] s = substitute k v s.
Proof.
  unfold replace, char_regex. rewrite char_replace_fn. unfold substitute.
  assert (H : forall s0 pos t,
            replace_units (char_eqb h false k) 0 (fun m => expand [v] s0 m) pos t
            = map (fun x => if (k =? x)%N then v else x) t).
  { intros s0 pos t. revert pos.
    induction t as [|c t IH]; intros pos; cbn [replace_units map]; [reflexivity|].
    rewrite IH. unfold char_eqb.
    destruct (k =? c)%N; [|reflexivity].
    cbn [app expand]. destruct (v =? ch "$")%N; reflexivity. }
  apply H.
Qed.

Lemma substitute_removes (k v : N) (s : jsstring) : k <> v -> ~ In k (substitute k v s).
Proof.
  intros Hkv Hin. unfold substitute in Hin. apply in_map_iff in Hin.
  destruct Hin as (x & Hx & _). destruct (k =? x)%N eqn:E.
  - congruence.
  - apply N.eqb_neq in E. congruence.
Qed.

Lemma substitute_keeps_out (k v c : N) (s : jsstring) :
  c <> v -> ~ In c s -> ~ In c (substitute k v s).
Proof.
  intros Hcv Hs Hin. unfold substitute in Hin. apply in_map_iff in Hin.
  destruct Hin as (x & Hx & Hxs). destruct (k =? x)%N; congruence.
Qed.

(** Substitutions applied in turn: no key is left, when no replacement is
    a key. *)
Lemma substitutions_remove_keys (entries : list (N * N)) :
  (forall k v, In (k, v) entries -> forall k' v', In (k', v') entries -> k' <> v) ->
  forall s c v, In (c, v) entries ->
  ~ In c (fold_left (fun text '(k, v) => substitute k v text) entries s).
Proof.
  induction entries as [|[k v] entries IH] using rev_ind; intros Hdistinct s c w Hc;
    [destruct Hc|].
  rewrite fold_left_app. cbn [fold_left].
  apply in_app_iff in Hc. destruct Hc as [Hc|[Hc|[]]].
  - apply substitute_keeps_out.
    + apply (Hdistinct k v) with (v' := w); [apply in_app_iff; right; left; reflexivity|].
      apply in_app_iff. left. exact Hc.
    + apply IH with (v := w); [|exact Hc].
      intros k1 v1 H1 k2 v2 H2.
      apply (Hdistinct k1 v1) with (v' := v2); [apply in_app_iff; left; exact H1|].
      apply in_app_iff. left. exact H2.
  - injection Hc as <- <-. apply substitute_removes.
    apply (Hdistinct k v) with (v' := v); apply in_app_iff; right; left; reflexivity.
Qed.

Lemma charMap_substitutions :
  map (fun '(char, replacement) => (RegExp_new (js char) (js "g"), js replacement)) charMap
  = map (fun '(k, v) => (char_regex k, [v]))
        [(48, 111); (49, 105); (51, 101); (52, 97); (53, 115); (54, 103); (55, 116);
         (56, 98); (57, 103); (162, 99); (8364, 101); (163, 108); (165, 121); (64, 97)]%N.
Proof. vm_compute. reflexivity. Qed.

Lemma fold_replace_map (entries : list (string * string)) :
  forall s,
  fold_left (fun text '(char, replacement) =>
               replace h (RegExp_new (js char) (js "g")) (js replacement) text)
            entries s
  = fold_left (fun text '(rx, tpl) => replace h rx tpl text)
              (map (fun '(char, replacement) =>
                      (RegExp_new (js char) (js "g"), js replacement)) entries) s.
Proof.
  induction entries as [|[char replacement] entries IH]; intros s; cbn [fold_left map];
    [reflexivity|].
  apply IH.
Qed.

Lemma fold_substitute (entries : list (N * N)) :
  forall s,
  fold_left (fun text '(rx, tpl) => replace h rx tpl text)
            (map (fun '(k, v) => (char_regex k, [v])) entries) s
  = fold_left (fun text '(k, v) => substitute k v text) entries s.
Proof.
  induction entries as [|[k v] entries IH]; intros s; cbn [fold_left map]; [reflexivity|].
  rewrite replace_by_char. apply IH.
Qed.

Lemma replacements_are_not_keys (entries : list (N * N)) :
  forallb (fun e => forallb (fun e' => negb (fst e' =? snd e)%N) entries) entries = true ->
  forall k v, In (k, v) entries -> forall k' v', In (k', v') entries -> k' <> v.
Proof.
  intros H k v Hkv k' v' Hk' ->.
  rewrite forallb_forall in H. specialize (H _ Hkv).
  rewrite forallb_forall in H. specialize (H _ Hk'). cbn [fst snd] in H.
  rewrite N.eqb_refl in H. discriminate H.
Qed.

Lemma key_of_charMap (c : N) :
  In c leet_characters ->
  exists v,
    In (c, v) [(48, 111); (49, 105); (51, 101); (52, 97); (53, 115); (54, 103);
               (55, 116); (56, 98); (57, 103); (162, 99); (8364, 101);
               (163, 108); (165, 121); (64, 97)]%N.
Proof.
  intros Hc.
  assert (E : leet_characters
              = map fst [(48, 111); (49, 105); (51, 101); (52, 97); (53, 115); (54, 103);
                         (55, 116); (56, 98); (57, 103); (162, 99); (8364, 101);
                         (163, 108); (165, 121); (64, 97)]%N)
    by (vm_compute; reflexivity).
  rewrite E in Hc. apply in_map_iff in Hc. destruct Hc as ([k v] & <- & Hin).
  exists v. exact Hin.
Qed.

Lemma charMap_fold (s : jsstring) :
  fold_left (fun text '(char, replacement) =>
               replace h (RegExp_new (js char) (js "g")) (js replacement) text)
            charMap s
  = fold_left (fun text '(k, v) => substitute k v text)
      [(48, 111); (49, 105); (51, 101); (52, 97); (53, 115); (54, 103); (55, 116);
       (56, 98); (57, 103); (162, 99); (8364, 101); (163, 108); (165, 121); (64, 97)]%N
      s.
Proof.
  rewrite fold_replace_map, charMap_substitutions. apply fold_substitute.
Qed.

(** [cleanWeirdPatterns] ends with the substitutions of its table. *)
Lemma cleanWeirdPatterns_substitutes (text : jsstring) :
  exists s,
    cleanWeirdPatterns h text
    = fold_left (fun text '(k, v) => substitute k v text)
        [(48, 111); (49, 105); (51, 101); (52, 97); (53, 115); (54, 103); (55, 116);
         (56, 98); (57, 103); (162, 99); (8364, 101); (163, 108); (165, 121); (64, 97)]%N
        s.
Proof.
  unfold cleanWeirdPatterns. rewrite charMap_fold. eexists. reflexivity.
Qed.

(** X18. The text [cleanWeirdPatterns] returns holds none of the
    characters its table replaces: the digits 0, 1 and 3 to 9 (not 2, which
    the table lacks), the currency signs and [@] are all turned into
    letters. *)
Theorem cleanWeirdPatterns_removes_leet (text : jsstring) :
  Forall (fun c => ~ In c leet_characters) (cleanWeirdPatterns h text).
Proof.
  destruct (cleanWeirdPatterns_substitutes text) as [s ->].
  apply Forall_forall. intros c Hin Hc. revert Hin.
  destruct (key_of_charMap Hc) as [v Hv].
  apply substitutions_remove_keys with (v := v); [|exact Hv].
  apply replacements_are_not_keys. vm_compute. reflexivity.
Qed.

End LeetReplacement.

(** ** The patterns built from terms *)

Section ParserFuel.

Ltac more_fuel H IHd IHa IHt :=
  repeat match type of H with
  | context [parse_disj ?f ?s ?g] =>
    let E := fresh "E" in
    destruct (parse_disj f s g) as [[[? ?] ?]|] eqn:E;
      [rewrite (IHd _ _ _ E) | try discriminate H]
  | context [parse_alt ?f ?s ?g] =>
    let E := fresh "E" in
    destruct (parse_alt f s g) as [[[? ?] ?]|] eqn:E;
      [rewrite (IHa _ _ _ E) | try discriminate H]
  | context [parse_term ?f ?s ?g] =>
    let E := fresh "E" in
    destruct (parse_term f s g) as [[[? ?] ?]|] eqn:E;
      [rewrite (IHt _ _ _ E) | try discriminate H]
  | context [match ?x with _ => _ end] => destruct x; try discriminate H
  end.

(** A parse that succeeds succeeds with more fuel, with the same result. *)
Lemma parse_fuel_step (f : nat) :
  (forall s g r, parse_disj f s g = Some r -> parse_disj (S f) s g = Some r)
  /\ (forall s g r, parse_alt f s g = Some r -> parse_alt (S f) s g = Some r)
  /\ (forall s g r, parse_term f s g = Some r -> parse_term (S f) s g = Some r).
Proof.
  induction f as [|f (IHd & IHa & IHt)].
  - repeat split; intros s g r H; discriminate H.
  - split; [|split]; intros s g r H.
    + cbn [parse_disj] in H. set (f1 := S f). cbn [parse_disj]. subst f1.
      more_fuel H IHd IHa IHt; exact H.
    + cbn [parse_alt] in H. set (f1 := S f). cbn [parse_alt]. subst f1.
      more_fuel H IHd IHa IHt; exact H.
    + cbn [parse_term] in H. set (f1 := S f). cbn [parse_term]. subst f1.
      unfold expect_close in *.
      more_fuel H IHd IHa IHt; exact H.
Qed.

Lemma parse_disj_fuel (f f' : nat) (s : jsstring) (g : nat) (r : regex * jsstring * nat) :
  f <= f' -> parse_disj f s g = Some r -> parse_disj f' s g = Some r.
Proof.
  intros Hle H. induction Hle as [|f' _ IH]; [exact H|].
  apply (proj1 (parse_fuel_step f')). exact IH.
Qed.

Lemma parse_alt_fuel (f f' : nat) (s : jsstring) (g : nat) (r : regex * jsstring * nat) :
  f <= f' -> parse_alt f s g = Some r -> parse_alt f' s g = Some r.
Proof.
  intros Hle H. induction Hle as [|f' _ IH]; [exact H|].
  apply (proj1 (proj2 (parse_fuel_step f'))). exact IH.
Qed.

Lemma parse_term_fuel (f f' : nat) (s : jsstring) (g : nat) (r : regex * jsstring * nat) :
  f <= f' -> parse_term f s g = Some r -> parse_term f' s g = Some r.
Proof.
  intros Hle H. induction Hle as [|f' _ IH]; [exact H|].
  apply (proj2 (proj2 (parse_fuel_step f'))). exact IH.
Qed.

Lemma parse_quantifier_none (a : regex) (s : jsstring) :
  no_quantifier s = true -> parse_quantifier a s = (a, s).
Proof.
  destruct s as [|c s]; [reflexivity|]. cbn [no_quantifier parse_quantifier].
  intros H. apply negb_true_iff in H.
  repeat (apply orb_false_iff in H; destruct H as [H ?]).
  repeat match goal with E : (_ =? _)%N = false |- _ => rewrite E; clear E end.
  reflexivity.
Qed.

(** An escaped syntax character is a term. *)
Lemma parse_term_escaped (f : nat) (e : N) (s : jsstring) (g : nat) :
  is_syntax_character e = true -> no_quantifier s = true ->
  parse_term (S f) (ch "\" :: e :: s) g = Some (RChar e, s, g).
Proof.
  intros He Hs. unfold is_syntax_character in He.
  apply existsb_exists in He. destruct He as (x & Hx & Ex).
  apply N.eqb_eq in Ex. subst x.
  assert (E : parse_term (S f) (ch "\" :: e :: s) g
              = let '(t, r3) := parse_quantifier (RChar e) s in Some (t, r3, g)).
  { repeat (destruct Hx as [<-|Hx]; [reflexivity|]). destruct Hx. }
  rewrite E, parse_quantifier_none by exact Hs. reflexivity.
Qed.

Lemma not_syntax_character (c : N) :
  is_syntax_character c = false ->
  Forall (fun x => (c =? x)%N = false) (js ".*+?^${}()|[]\").
Proof.
  intros H. apply Forall_forall. intros x Hx.
  unfold is_syntax_character in H.
  destruct (c =? x)%N eqn:E; [|reflexivity].
  rewrite <- H. symmetry. apply existsb_exists. exists x. split; assumption.
Qed.

(** Any other character is a term. *)
Lemma parse_term_plain (f : nat) (c : N) (s : jsstring) (g : nat) :
  is_syntax_character c = false -> no_quantifier s = true ->
  parse_term (S f) (c :: s) g = Some (RChar c, s, g).
Proof.
  intros Hc Hs. apply not_syntax_character in Hc.
  cbn [parse_term].
  repeat match goal with
  | |- context [(c =? ch ?a)%N] =>
    replace (c =? ch a)%N with false
      by (symmetry; rewrite Forall_forall in Hc; apply Hc; vm_compute; tauto)
  end.
  cbn [andb orb]. rewrite parse_quantifier_none by exact Hs. reflexivity.
Qed.


Lemma parse_term_unit (f : nat) (u : N) (s : jsstring) (g : nat) :
  no_quantifier s = true ->
  parse_term (S f) (escape_unit u ++ s) g = Some (RChar u, s, g).
Proof.
  intros Hs. unfold escape_unit. destruct (is_syntax_character u) eqn:E.
  - apply parse_term_escaped; assumption.
  - apply parse_term_plain; assumption.
Qed.

Lemma escape_unit_head (u : N) (s : jsstring) :
  no_quantifier (escape_unit u ++ s) = true /\ starts_term (escape_unit u ++ s) = true.
Proof.
  unfold escape_unit. destruct (is_syntax_character u) eqn:E; [split; reflexivity|].
  apply not_syntax_character in E. rewrite Forall_forall in E.
  cbn [app no_quantifier starts_term].
  repeat match goal with
  | |- context [(u =? ch ?a)%N] =>
    replace (u =? ch a)%N with false by (symmetry; apply E; vm_compute; tauto)
  end.
  split; reflexivity.
Qed.

Lemma escaped_head (t s : jsstring) :
  no_quantifier s = true -> no_quantifier (flat_map escape_unit t ++ s) = true.
Proof.
  intros Hs. destruct t as [|u t]; [exact Hs|].
  cbn [flat_map]. rewrite <- app_assoc. apply escape_unit_head.
Qed.

Lemma parse_alt_then (f : nat) (s : jsstring) (g : nat) (t : regex) (r : jsstring)
  (g1 : nat) (a : regex) (r2 : jsstring) (g2 : nat) :
  starts_term s = true ->
  parse_term f s g = Some (t, r, g1) ->
  parse_alt f r g1 = Some (a, r2, g2) ->
  parse_alt (S f) s g = Some (then_regex t a, r2, g2).
Proof.
  intros Hs Ht Ha. destruct s as [|c s]; [discriminate Hs|].
  cbn [starts_term] in Hs. apply negb_true_iff in Hs.
  cbn [parse_alt]. rewrite Hs, Ht, Ha.
  destruct a; reflexivity.
Qed.

Lemma then_regex_not_fail (t a : regex) : t <> RFail -> then_regex t a <> RFail.
Proof. intros Ht. destruct a; solve [exact Ht | discriminate]. Qed.

Lemma parse_alt_cons (f : nat) (s : jsstring) (g : nat) (t : regex) (r : jsstring)
  (g1 : nat) (a : regex) (r2 : jsstring) (g2 : nat) :
  starts_term s = true ->
  parse_term f s g = Some (t, r, g1) -> t <> RFail ->
  parse_alt f r g1 = Some (a, r2, g2) ->
  exists a', a' <> RFail /\ parse_alt (S f) s g = Some (a', r2, g2).
Proof.
  intros Hs Ht Hnf Ha. exists (then_regex t a).
  split; [apply then_regex_not_fail; exact Hnf|].
  apply parse_alt_then with (r := r) (g1 := g1); assumption.
Qed.

(** An escaped term before the rest [s] of an alternative. *)
Lemma parse_alt_literal (t : jsstring) :
  forall s g f a r g',
  no_quantifier s = true ->
  parse_alt f s g = Some (a, r, g') ->
  parse_alt (List.length t + f) (flat_map escape_unit t ++ s) g
  = Some (literal t a, r, g').
Proof.
  induction t as [|u t IH]; intros s g f a r g' Hs Ha; [exact Ha|].
  pose proof (IH s g f a r g' Hs Ha) as Ha1.
  cbn [flat_map List.length plus literal fold_right]. rewrite <- app_assoc.
  assert (Hf : exists f0, List.length t + f = S f0).
  { destruct f as [|f0]; [discriminate Ha|]. exists (List.length t + f0). lia. }
  destruct Hf as [f0 Hf].
  apply parse_alt_then with (r := flat_map escape_unit t ++ s) (g1 := g).
  - apply escape_unit_head.
  - rewrite Hf. apply parse_term_unit. apply escaped_head. exact Hs.
  - exact Ha1.
Qed.

Lemma literal_not_fail (t : jsstring) (a : regex) : a <> RFail -> literal t a <> RFail.
Proof.
  intros Ha. destruct t as [|c t]; [exact Ha|].
  cbn [literal fold_right]. apply then_regex_not_fail. discriminate.
Qed.

Lemma parse_alt_escaped (t : jsstring) :
  forall s g f a r g',
  no_quantifier s = true ->
  parse_alt f s g = Some (a, r, g') -> a <> RFail ->
  exists a', a' <> RFail
             /\ parse_alt (List.length t + f) (flat_map escape_unit t ++ s) g
                = Some (a', r, g').
Proof.
  intros s g f a r g' Hs Ha Hnf. exists (literal t a).
  split; [apply literal_not_fail; exact Hnf|].
  apply parse_alt_literal; assumption.
Qed.

Lemma escaped_length (t : jsstring) :
  List.length t <= List.length (flat_map escape_unit t).
Proof.
  induction t as [|u t IH]; [apply le_n|].
  cbn [flat_map]. rewrite length_app. unfold escape_unit at 1.
  destruct (is_syntax_character u); cbn [List.length]; lia.
Qed.

(** Escaped terms joined by [|], before the rest [s] of the last
    alternative. *)
Lemma parse_disj_joined (terms : list jsstring) :
  forall s g f a r g',
  no_quantifier s = true ->
  parse_alt f s g = Some (a, r, g') -> a <> RFail -> ends_disjunction r = true ->
  exists d, d <> RFail
            /\ parse_disj (S (List.length (join (js "|") (map (flat_map escape_unit) terms)) + f))
                          (join (js "|") (map (flat_map escape_unit) terms) ++ s) g
               = Some (d, r, g').
Proof.
  assert (Hend : forall f s g a r g',
            parse_alt f s g = Some (a, r, g') -> ends_disjunction r = true ->
            parse_disj (S f) s g = Some (a, r, g')).
  { intros f s g a r g' Ha Hr. cbn [parse_disj]. rewrite Ha.
    destruct r as [|c r]; [reflexivity|].
    cbn [ends_disjunction] in Hr. apply negb_true_iff in Hr. rewrite Hr. reflexivity. }
  induction terms as [|t terms IH]; intros s g f a r g' Hs Ha Hnf Hr.
  - exists a. split; [exact Hnf|]. cbn [map join app List.length plus].
    apply Hend; assumption.
  - destruct terms as [|t2 terms].
    + cbn [map join].
      destruct (@parse_alt_escaped t s g f a r g' Hs Ha Hnf) as (a1 & Hnf1 & Ha1).
      exists a1. split; [exact Hnf1|]. apply Hend; [|exact Hr].
      apply parse_alt_fuel with (f := List.length t + f); [|exact Ha1].
      pose proof (escaped_length t). lia.
    + destruct (IH s g f a r g' Hs Ha Hnf Hr) as (d & Hnfd & Hd).
      set (J := join (js "|") (map (flat_map escape_unit) (t2 :: terms))) in *.
      change (join (js "|") (map (flat_map escape_unit) (t :: t2 :: terms)))
        with (flat_map escape_unit t ++ js "|" ++ J).
      rewrite <- !app_assoc.
      assert (Hbar : parse_alt 1 (js "|" ++ J ++ s) g = Some (REmpty, js "|" ++ J ++ s, g))
        by reflexivity.
      destruct (@parse_alt_escaped t (js "|" ++ J ++ s) g 1 REmpty _ _ eq_refl Hbar)
        as (a1 & Hnf1 & Ha1); [discriminate|].
      exists (RAlt a1 d). split; [discriminate|].
      rewrite !length_app. change (List.length (js "|")) with 1. cbn [parse_disj].
      rewrite (parse_alt_fuel (f := List.length t + 1)) with (r := (a1, js "|" ++ J ++ s, g));
        [|pose proof (escaped_length t); lia | exact Ha1].
      change (js "|" ++ J ++ s) with (ch "|" :: J ++ s). cbv iota beta.
      rewrite N.eqb_refl.
      rewrite (parse_disj_fuel (f := S (List.length J + f))) with (r := (d, r, g'));
        [reflexivity | lia | exact Hd].
Qed.


Lemma parse_disj_last (f : nat) (s : jsstring) (g : nat) (a : regex) (r : jsstring)
  (g' : nat) :
  parse_alt f s g = Some (a, r, g') -> ends_disjunction r = true ->
  parse_disj (S f) s g = Some (a, r, g').
Proof.
  intros Ha Hr. cbn [parse_disj]. rewrite Ha.
  destruct r as [|c r]; [reflexivity|].
  cbn [ends_disjunction] in Hr. apply negb_true_iff in Hr. rewrite Hr. reflexivity.
Qed.

Lemma parse_disj_bar (f : nat) (s : jsstring) (g : nat) (a : regex) (r : jsstring)
  (g1 : nat) (b : regex) (r2 : jsstring) (g2 : nat) :
  parse_alt f s g = Some (a, ch "|" :: r, g1) ->
  parse_disj f r g1 = Some (b, r2, g2) ->
  parse_disj (S f) s g = Some (RAlt a b, r2, g2).
Proof.
  intros Ha Hb. cbn [parse_disj]. rewrite Ha. rewrite N.eqb_refl, Hb. reflexivity.
Qed.

Lemma parse_lazy_none (s : jsstring) :
  no_quantifier s = true -> parse_lazy s = (true, s).
Proof.
  destruct s as [|c s]; [reflexivity|]. cbn [no_quantifier parse_lazy].
  intros H. apply negb_true_iff in H.
  repeat (apply orb_false_iff in H; destruct H as [H ?]).
  repeat match goal with E : (_ =? _)%N = false |- _ => rewrite E; clear E end.
  reflexivity.
Qed.

Lemma parse_quantifier_optional (a : regex) (s : jsstring) :
  no_quantifier s = true ->
  parse_quantifier a (ch "?" :: s) = (RRep a 0 (Some 1) true, s).
Proof.
  intros Hs. assert (E : parse_quantifier a (ch "?" :: s)
                         = let '(g, r') := parse_lazy s in (RRep a 0 (Some 1) g, r'))
    by reflexivity.
  rewrite E, parse_lazy_none by exact Hs. reflexivity.
Qed.

(** A group [(?:body)]. *)
Lemma parse_term_noncapture (f : nat) (body : jsstring) (g : nat) (d : regex)
  (r : jsstring) (g2 : nat) :
  parse_disj f body g = Some (d, ch ")" :: r, g2) ->
  parse_term (S f) (js "(?:" ++ body) g
  = let '(t, r3) := parse_quantifier d r in Some (t, r3, g2).
Proof.
  intros Hd.
  assert (E : parse_term (S f) (js "(?:" ++ body) g
              = match expect_close (parse_disj f body g) (fun d => d) with
                | Some (d, r2, g2) =>
                  let '(t, r3) := parse_quantifier d r2 in Some (t, r3, g2)
                | None => None
                end) by reflexivity.
  rewrite E, Hd. reflexivity.
Qed.

(** A capturing group [(body)]. *)
Lemma parse_term_capture (f : nat) (q : N) (body : jsstring) (g : nat) (d : regex)
  (r : jsstring) (g2 : nat) :
  (q =? ch "?")%N = false ->
  parse_disj f (q :: body) (S g) = Some (d, ch ")" :: r, g2) ->
  parse_term (S f) (ch "(" :: q :: body) g
  = let '(t, r3) := parse_quantifier (RGroup g d) r in Some (t, r3, g2).
Proof.
  intros Hq Hd.
  assert (E : parse_term (S f) (ch "(" :: q :: body) g
              = match expect_close (parse_disj f (q :: body) (S g)) (RGroup g) with
                | Some (d, r2, g2) =>
                  let '(t, r3) := parse_quantifier d r2 in Some (t, r3, g2)
                | None => None
                end).
  { destruct body as [|k body]; [reflexivity|].
    cbn [parse_term].
    change (ch "(" =? ch "^")%N with false. change (ch "(" =? ch "$")%N with false.
    change (ch "(" =? ch "(")%N with true. cbv iota. rewrite Hq. reflexivity. }
  rewrite E, Hd. reflexivity.
Qed.

End ParserFuel.

Section PatternBuilders.
Variable h : Host.

Lemma parse_pattern_alt (p : jsstring) (f : nat) (a : regex) (g : nat) :
  parse_alt f p 1 = Some (a, [], g) -> f < 3 * List.length p + 3 ->
  parse_pattern p = Some (a, g - 1).
Proof.
  intros Ha Hf. unfold parse_pattern.
  destruct (3 * List.length p + 3) as [|F] eqn:EF; [lia|].
  rewrite (@parse_disj_last F p 1 a [] g); [reflexivity| |reflexivity].
  apply parse_alt_fuel with (f := f); [lia | exact Ha].
Qed.

Lemma parse_pattern_disj (p : jsstring) (f : nat) (a : regex) (g : nat) :
  parse_disj f p 1 = Some (a, [], g) -> f <= 3 * List.length p + 3 ->
  parse_pattern p = Some (a, g - 1).
Proof.
  intros Ha Hf. unfold parse_pattern.
  rewrite (@parse_disj_fuel f (3 * List.length p + 3) p 1 (a, [], g) Hf Ha). reflexivity.
Qed.

Ltac js_literals :=
  repeat match goal with
  | |- context [js ?s] =>
    let l := eval vm_compute in (js s) in change (js s) with l
  end;
  cbn [app].

Ltac js_lengths :=
  rewrite ?length_app;
  repeat match goal with
  | |- context [List.length (js ?s)] =>
    let n := eval vm_compute in (List.length (js s)) in
    change (List.length (js s)) with n
  end.

Lemma parse_term_wordb (f : nat) (y : jsstring) (g : nat) :
  parse_term (S f) (js "\b" ++ y) g = Some (RWordB false, y, g).
Proof. reflexivity. Qed.

(** The strict pattern of [createPatternRegex] around the alternatives
    [E]. *)
Lemma strict_wrapper (E : jsstring) (d : regex) (f : nat) :
  let T := js "(?:[a-zA-Z_+-]{0,4}[a-zA-Z])?\d*" in
  parse_disj f (E ++ ch ")" :: T) 1 = Some (d, ch ")" :: T, 1) -> d <> RFail ->
  exists ast, ast <> RFail
    /\ parse_alt (f + 30)
                 (js "\b(?:[a-zA-Z][a-zA-Z_+-]{0,4})?(?:" ++ E
                  ++ js ")(?:[a-zA-Z_+-]{0,4}[a-zA-Z])?\d*") 1
       = Some (ast, [], 1).
Proof.
  intros T Hd Hnd. js_literals.
  pose proof (@parse_term_noncapture _ _ _ _ _ _ Hd) as H3.
  rewrite parse_quantifier_none in H3 by reflexivity.
  assert (HT : exists aT, parse_alt 20 T 1 = Some (aT, [], 1))
    by (eexists; vm_compute; reflexivity).
  destruct HT as [aT HT].
  edestruct (@parse_alt_cons (f + 27) (js "(?:" ++ E ++ ch ")" :: T) 1 d T 1)
    as (a3 & Hn3 & H3a).
  { reflexivity. }
  { apply parse_term_fuel with (f := S f); [lia | exact H3]. }
  { exact Hnd. }
  { apply parse_alt_fuel with (f := 20); [lia | exact HT]. }
  assert (H2 : forall y, exists t, t <> RFail
             /\ parse_term 12 (js "(?:[a-zA-Z][a-zA-Z_+-]{0,4})?(?:" ++ y) 1
                = Some (t, js "(?:" ++ y, 1)).
  { intros y. eexists. split; [|vm_compute; reflexivity]. discriminate. }
  destruct (H2 (E ++ ch ")" :: T)) as (t2 & Hn2 & H2t).
  edestruct (@parse_alt_cons (f + 28)
               (js "(?:[a-zA-Z][a-zA-Z_+-]{0,4})?(?:" ++ E ++ ch ")" :: T) 1
               t2 (js "(?:" ++ E ++ ch ")" :: T) 1) as (a2 & Hn2a & H2a).
  { reflexivity. }
  { apply parse_term_fuel with (f := 12); [lia | exact H2t]. }
  { exact Hn2. }
  { replace (f + 28) with (S (f + 27)) by lia. exact H3a. }
  edestruct (@parse_alt_cons (f + 29)
               (js "\b" ++ js "(?:[a-zA-Z][a-zA-Z_+-]{0,4})?(?:" ++ E ++ ch ")" :: T) 1
               (RWordB false)
               (js "(?:[a-zA-Z][a-zA-Z_+-]{0,4})?(?:" ++ E ++ ch ")" :: T) 1)
    as (a1 & Hn1 & H1a).
  { reflexivity. }
  { replace (f + 29) with (S (f + 28)) by lia. apply parse_term_wordb. }
  { discriminate. }
  { replace (f + 29) with (S (f + 28)) by lia. exact H2a. }
  exists a1. split; [exact Hn1|].
  replace (f + 30) with (S (f + 29)) by lia. exact H1a.
Qed.


(** The loose pattern of [createPatternRegex] around the alternatives
    [E]. *)
Lemma loose_wrapper (E : jsstring) (d : regex) (f : nat) :
  let T := js "(?:[a-zA-Z0-9_+-]{0,4}[a-zA-Z0-9])?\d*" in
  parse_disj f (E ++ ch ")" :: T) 1 = Some (d, ch ")" :: T, 1) -> d <> RFail ->
  exists ast, ast <> RFail
    /\ parse_alt (f + 30)
                 (js "(?:[a-zA-Z0-9][a-zA-Z0-9_+-]{0,4})?(?:" ++ E
                  ++ js ")(?:[a-zA-Z0-9_+-]{0,4}[a-zA-Z0-9])?\d*") 1
       = Some (ast, [], 1).
Proof.
  intros T Hd Hnd. js_literals.
  pose proof (@parse_term_noncapture _ _ _ _ _ _ Hd) as H3.
  rewrite parse_quantifier_none in H3 by reflexivity.
  assert (HT : exists aT, parse_alt 20 T 1 = Some (aT, [], 1))
    by (eexists; vm_compute; reflexivity).
  destruct HT as [aT HT].
  edestruct (@parse_alt_cons (f + 28) (js "(?:" ++ E ++ ch ")" :: T) 1 d T 1)
    as (a3 & Hn3 & H3a).
  { reflexivity. }
  { apply parse_term_fuel with (f := S f); [lia | exact H3]. }
  { exact Hnd. }
  { apply parse_alt_fuel with (f := 20); [lia | exact HT]. }
  assert (H2 : forall y, exists t, t <> RFail
             /\ parse_term 12 (js "(?:[a-zA-Z0-9][a-zA-Z0-9_+-]{0,4})?(?:" ++ y) 1
                = Some (t, js "(?:" ++ y, 1)).
  { intros y. eexists. split; [|vm_compute; reflexivity]. discriminate. }
  destruct (H2 (E ++ ch ")" :: T)) as (t2 & Hn2 & H2t).
  edestruct (@parse_alt_cons (f + 29)
               (js "(?:[a-zA-Z0-9][a-zA-Z0-9_+-]{0,4})?(?:" ++ E ++ ch ")" :: T) 1
               t2 (js "(?:" ++ E ++ ch ")" :: T) 1) as (a2 & Hn2a & H2a).
  { reflexivity. }
  { apply parse_term_fuel with (f := 12); [lia | exact H2t]. }
  { exact Hn2. }
  { replace (f + 29) with (S (f + 28)) by lia. exact H3a. }
  exists a2. split; [exact Hn2a|].
  replace (f + 30) with (S (f + 29)) by lia. exact H2a.
Qed.

Lemma escapes_joined (terms : list jsstring) :
  map (escapeRegExp h) terms = map (flat_map escape_unit) terms.
Proof. apply map_ext. intros t. apply escapeRegExp_escapes. Qed.

Lemma alternatives_in_group (terms : list jsstring) (T : jsstring) :
  exists d, d <> RFail
    /\ parse_disj (S (List.length (join (js "|") (map (escapeRegExp h) terms)) + 1))
                  (join (js "|") (map (escapeRegExp h) terms) ++ ch ")" :: T) 1
       = Some (d, ch ")" :: T, 1).
Proof.
  rewrite escapes_joined.
  apply (@parse_disj_joined terms (ch ")" :: T) 1 1 REmpty (ch ")" :: T) 1);
    [reflexivity | reflexivity | discriminate | reflexivity].
Qed.

(** X19. [createPatternRegex] returns [null] exactly for an empty list of
    terms; otherwise the pattern it builds is always a well-formed
    expression, whatever characters the terms hold (the constructor never
    raises a SyntaxError), with no capturing group and the flags [g] and
    [i]. *)
Theorem createPatternRegex_compiles (terms : list jsstring) (loose : option bool) :
  (createPatternRegex h terms loose = None <-> terms = [])
  /\ (forall rx, createPatternRegex h terms loose = Some rx ->
        re_ast rx <> RFail /\ re_groups rx = 0
        /\ re_global rx = true /\ re_icase rx = true).
Proof.
  unfold createPatternRegex.
  destruct terms as [|t terms]; [split; [split; reflexivity | discriminate]|].
  change (List.length (t :: terms) =? 0) with false. cbv iota.
  split; [split; discriminate|].
  intros rx Hrx. cbv zeta in Hrx. apply Some_inj in Hrx. subst rx.
  set (E := join (js "|") (map (escapeRegExp h) (t :: terms))).
  unfold RegExp_new.
  assert (H : exists ast, ast <> RFail
            /\ parse_pattern
                 (js "(?:[a-zA-Z0-9][a-zA-Z0-9_+-]{0,4})?(?:" ++ E
                  ++ js ")(?:[a-zA-Z0-9_+-]{0,4}[a-zA-Z0-9])?\d*")
               = Some (ast, 0)).
  { destruct (alternatives_in_group (t :: terms)
                (js "(?:[a-zA-Z0-9_+-]{0,4}[a-zA-Z0-9])?\d*")) as (d & Hnd & Hd).
    destruct (@loose_wrapper _ _ _ Hd Hnd) as (ast & Hn & Ha).
    exists ast. split; [exact Hn|].
    apply (@parse_pattern_alt _ _ ast 1 Ha).
    fold E. js_lengths. lia. }
  assert (H' : exists ast, ast <> RFail
            /\ parse_pattern
                 (js "\b(?:[a-zA-Z][a-zA-Z_+-]{0,4})?(?:" ++ E
                  ++ js ")(?:[a-zA-Z_+-]{0,4}[a-zA-Z])?\d*")
               = Some (ast, 0)).
  { destruct (alternatives_in_group (t :: terms)
                (js "(?:[a-zA-Z_+-]{0,4}[a-zA-Z])?\d*")) as (d & Hnd & Hd).
    destruct (@strict_wrapper _ _ _ Hd Hnd) as (ast & Hn & Ha).
    exists ast. split; [exact Hn|].
    apply (@parse_pattern_alt _ _ ast 1 Ha).
    fold E. js_lengths. lia. }
  destruct H as (ast & Hn & Hp). destruct H' as (ast' & Hn' & Hp').
  destruct loose as [[|]|]; cbv iota; rewrite ?Hp, ?Hp';
    cbn [re_ast re_groups re_global re_icase];
    (split; [assumption | repeat split]).
Qed.


(** The optional first group of the pattern of [TinyPatternRegex]. *)
Lemma tiny_first_group (f : nat) (x : jsstring) :
  no_quantifier x = true ->
  exists t1, t1 <> RFail
    /\ parse_term (f + 12) (js "([a-zA-Z]{2,10})?" ++ x) 1 = Some (t1, x, 2).
Proof.
  intros Hx.
  assert (Hin : exists D, forall y,
             parse_disj 10 (js "[a-zA-Z]{2,10})?" ++ y) 2 = Some (D, js ")?" ++ y, 2))
    by (eexists; intros y; vm_compute; reflexivity).
  destruct Hin as [D Hin].
  exists (RRep (RGroup 1 D) 0 (Some 1) true). split; [discriminate|].
  replace (f + 12) with (S (f + 11)) by lia.
  change (js "([a-zA-Z]{2,10})?" ++ x)
    with (ch "(" :: ch "[" :: js "a-zA-Z]{2,10})?" ++ x).
  rewrite (@parse_term_capture (f + 11) (ch "[") (js "a-zA-Z]{2,10})?" ++ x) 1 D
             (ch "?" :: x) 2 eq_refl).
  - rewrite parse_quantifier_optional by exact Hx. reflexivity.
  - apply parse_disj_fuel with (f := 10); [lia | exact (Hin x)].
Qed.

(** The pattern of [TinyPatternRegex] for the terms [terms]. *)
Lemma tiny_pattern_parses (t : jsstring) (terms : list jsstring) :
  exists ast, ast <> RFail
    /\ parse_pattern (js "([a-zA-Z]{2,10})?"
                      ++ join (js "|") (map (flat_map escape_unit) (t :: terms))
                      ++ js "([a-zA-Z]{2,10})?(?:[0-9]{2,5})?")
       = Some (ast, 2).
Proof.
  set (T := js "([a-zA-Z]{2,10})?(?:[0-9]{2,5})?").
  assert (HT : exists aT, aT <> RFail /\ parse_alt 20 T 2 = Some (aT, [], 3)).
  { eexists. split; [|vm_compute; reflexivity]. discriminate. }
  destruct HT as (aT & HnT & HT).
  destruct terms as [|t2 terms].
  - cbn [map join].
    destruct (@parse_alt_escaped t T 2 20 aT [] 3 eq_refl HT HnT) as (a' & Hn' & Ha').
    destruct (@tiny_first_group (List.length t + 20) (flat_map escape_unit t ++ T))
      as (t1 & Hn1 & Ht1); [apply escaped_head; reflexivity|].
    edestruct (@parse_alt_cons (List.length t + 20 + 12)
                 (js "([a-zA-Z]{2,10})?" ++ flat_map escape_unit t ++ T) 1 t1
                 (flat_map escape_unit t ++ T) 2) as (a1 & Hna & Ha1).
    { reflexivity. }
    { exact Ht1. }
    { exact Hn1. }
    { apply parse_alt_fuel with (f := List.length t + 20); [lia | exact Ha']. }
    exists a1. split; [exact Hna|].
    apply (@parse_pattern_alt _ _ a1 3 Ha1).
    js_lengths. pose proof (escaped_length t). lia.
  - set (J := join (js "|") (map (flat_map escape_unit) (t2 :: terms))).
    change (join (js "|") (map (flat_map escape_unit) (t :: t2 :: terms)))
      with (flat_map escape_unit t ++ js "|" ++ J).
    assert (Hlen : List.length ((flat_map escape_unit t ++ js "|" ++ J) ++ T)
                   = List.length (flat_map escape_unit t) + 1 + List.length J
                     + List.length T)
      by (rewrite !length_app; change (List.length (js "|")) with 1; lia).
    rewrite <- !app_assoc in *.
    change (js "|" ++ J ++ T) with (ch "|" :: J ++ T) in *.
    destruct (@parse_alt_escaped t (ch "|" :: J ++ T) 2 1 REmpty (ch "|" :: J ++ T) 2
                eq_refl eq_refl) as (a' & Hn' & Ha'); [discriminate|].
    destruct (@tiny_first_group (List.length (flat_map escape_unit t) + List.length J + 20)
                (flat_map escape_unit t ++ ch "|" :: J ++ T))
      as (t1 & Hn1 & Ht1); [apply escaped_head; reflexivity|].
    edestruct (@parse_alt_cons
                 (List.length (flat_map escape_unit t) + List.length J + 20 + 12)
                 (js "([a-zA-Z]{2,10})?" ++ flat_map escape_unit t ++ ch "|" :: J ++ T) 1
                 t1 (flat_map escape_unit t ++ ch "|" :: J ++ T) 2) as (a1 & Hna & Ha1).
    { reflexivity. }
    { exact Ht1. }
    { exact Hn1. }
    { apply parse_alt_fuel with (f := List.length t + 1); [|exact Ha'].
      pose proof (escaped_length t). lia. }
    destruct (@parse_disj_joined (t2 :: terms) T 2 20 aT [] 3 eq_refl HT HnT eq_refl)
      as (d & Hnd & Hd).
    fold J in Hd.
    exists (RAlt a1 d). split; [discriminate|].
    apply (@parse_pattern_disj _
             (S (S (List.length (flat_map escape_unit t) + List.length J + 20 + 12)))
             (RAlt a1 d) 3).
    + apply parse_disj_bar with (r := J ++ T) (g1 := 2); [exact Ha1|].
      apply parse_disj_fuel with (f := S (List.length J + 20)); [lia | exact Hd].
    + rewrite length_app, Hlen. js_lengths. lia.
Qed.

(** X20. [TinyPatternRegex] returns [null] exactly for an empty list of
    terms; otherwise the pattern it builds is always a well-formed
    expression, whatever characters the terms hold, with two capturing
    groups and the flags [g] and [i]. *)
Theorem TinyPatternRegex_compiles (terms : list jsstring) :
  (TinyPatternRegex h terms = None <-> terms = [])
  /\ (forall rx, TinyPatternRegex h terms = Some rx ->
        re_ast rx <> RFail /\ re_groups rx = 2
        /\ re_global rx = true /\ re_icase rx = true).
Proof.
  unfold TinyPatternRegex.
  destruct terms as [|t terms]; [split; [split; reflexivity | discriminate]|].
  change (List.length (t :: terms) =? 0) with false. cbv iota.
  split; [split; discriminate|].
  intros rx Hrx. cbv zeta in Hrx. apply Some_inj in Hrx. subst rx.
  unfold RegExp_new. rewrite escapes_joined.
  destruct (tiny_pattern_parses t terms) as (ast & Hn & Hp).
  rewrite Hp. cbn [re_ast re_groups re_global re_icase].
  split; [assumption | repeat split].
Qed.



End PatternBuilders.

(** ** The text a result reports *)

Section Echo.
Variable h : Host.
Variable A : Arith.

Lemma score_text_echo (text : jsstring) (options : Options A) (sc : Scored A) :
  score_text h text options = Return sc ->
  sc_text sc
  = match filter (fun m => gtb A (score m) (of_Q A 0.6))
                 (fuzzySearch h A
                    (fst (extractKeywordArrays A
                            (or_default (keywords options) defaultKeywords)))
                    text None None) with
    | first :: _ => replace_str (matched_word first) (matched_with first) text
    | [] => text
    end.
Proof.
  unfold score_text. intros H.
  destruct (extractKeywordArrays A _) as [keyword scorepoint].
  repeat lazymatch type of H with
         | context [match ?e with pair _ _ => _ end] => destruct e as [? ?]
         end.
  unfold bind in H.
  destruct (detectLanguageSpecificPatterns h A _ _) as [languagePatterns|e];
    [|discriminate H].
  repeat lazymatch type of H with
         | context [match ?e with pair _ _ => _ end] => destruct e as [? ?]
         end.
  apply Return_inj in H. rewrite <- H. reflexivity.
Qed.

End Echo.

(** X22. The [comment] of a result is not always the text [detect] was
    given.  For a text that passes the guard it is the text in which the
    first occurrence of the word of the best fuzzy match scoring above 0.6
    is replaced by the keyword it matched; it is the given text when there
    is no such match, and for a text the guard rejects. *)
Theorem comment_after_fuzzy_replacement (h : Host) (A : Arith) (text : value)
  (options : Options A) (r : DetectionResult A) :
  detect h text options = Return r ->
  (too_short (match text with VUndefined => VStr [] | _ => text end) = true ->
   comment r = match text with VUndefined => VStr [] | _ => text end)
  /\ (forall s, text = VStr s -> too_short text = false ->
        let keyword :=
          fst (extractKeywordArrays A (or_default (keywords options) defaultKeywords)) in
        comment r
        = VStr match filter (fun m => gtb A (score m) (of_Q A 0.6))
                            (fuzzySearch h A keyword s None None) with
               | first :: _ => replace_str (matched_word first) (matched_with first) s
               | [] => s
               end).
Proof.
  intros Hdet. split.
  - intros Hshort. unfold detect in Hdet. rewrite Hshort in Hdet.
    apply Return_inj in Hdet. subst r. reflexivity.
  - intros s -> Hshort. cbv zeta.
    destruct (detect_text h (VStr s) options Hshort Hdet) as (s' & sc & E & Hsc & ->).
    injection E as <-.
    destruct (finalize_fields h options sc) as (c & _ & _ & Hc). cbv zeta in Hc.
    rewrite Hc, (@score_text_echo h A s options sc Hsc). reflexivity.
Qed.

(** ** The language patterns *)

Section LanguagePatterns.
Variable h : Host.

Let counted (r : LanguageResult ExactArith) : Prop :=
  (lang_score r == 0.3 * inject_Z (Z.of_nat (List.length (lang_matches r))))%Q.

Lemma score_more (a : Q) (n m : nat) :
  (a == 0.3 * inject_Z (Z.of_nat n))%Q ->
  (Qred (a + Qred (Qred 0.3 * Qred (inject_Z (Z.of_nat m))))
   == 0.3 * inject_Z (Z.of_nat (n + m)))%Q.
Proof.
  intros Ha. rewrite !Qred_correct, Ha, Nat2Z.inj_add, inject_Z_plus. ring.
Qed.

Lemma language_step_counted (text : jsstring) (r : LanguageResult ExactArith)
  (pattern : RegExp) :
  counted r -> counted (language_step h text r pattern).
Proof.
  unfold counted, language_step. intros Hr.
  destruct (str_match h pattern text) as [matches|]; [|exact Hr].
  destruct (0 <? List.length matches); [|exact Hr].
  cbn [lang_score lang_matches]. rewrite length_app.
  apply score_more. exact Hr.
Qed.

Lemma language_steps_counted (text : jsstring) (ps : list RegExp) :
  forall r, counted r -> counted (fold_left (language_step h text) ps r).
Proof.
  induction ps as [|p ps IH]; intros r Hr; [exact Hr|].
  cbn [fold_left]. apply IH. apply language_step_counted. exact Hr.
Qed.

(** X23. In exact arithmetic the score of [detectLanguageSpecificPatterns]
    is 0.3 for each match it reports; and for a language code other than
    "all" that has no patterns the result is empty, unless the code names
    a property every object inherits, where the function throws. *)
Theorem language_score_counts_matches (text : jsstring) (language : option jsstring) :
  (forall r, detectLanguageSpecificPatterns h ExactArith text language = Return r ->
     (lang_score r == 0.3 * inject_Z (Z.of_nat (List.length (lang_matches r))))%Q)
  /\ (forall l, language = Some l -> str_eqb l (js "all") = false ->
        lookup_language l languagePatterns = None ->
        if mem_str l inherited_properties
        then exists e, detectLanguageSpecificPatterns h ExactArith text language = Throw e
        else detectLanguageSpecificPatterns h ExactArith text language
             = Return (Build_LanguageResult ExactArith 0%Q [])).
Proof.
  split.
  - intros r Hr. unfold detectLanguageSpecificPatterns in Hr.
    assert (H0 : counted {| lang_score := of_Q ExactArith 0; lang_matches := [] |})
      by (unfold counted; cbn; reflexivity).
    destruct (str_eqb _ (js "all")).
    + apply Return_inj in Hr. subst r.
      revert H0. generalize {| lang_score := of_Q ExactArith 0; lang_matches := [] |}.
      induction languagePatterns as [|[k ps] l IH]; intros r Hr; [exact Hr|].
      cbn [fold_left]. apply IH. apply language_steps_counted. exact Hr.
    + destruct (lookup_language _ languagePatterns) as [ps|].
      * apply Return_inj in Hr. subst r. apply language_steps_counted. exact H0.
      * destruct (mem_str _ inherited_properties); [discriminate Hr|].
        apply Return_inj in Hr. subst r. exact H0.
  - intros l -> Hall Hnone. unfold detectLanguageSpecificPatterns.
    rewrite Hall, Hnone. destruct (mem_str l inherited_properties).
    + eexists. reflexivity.
    + reflexivity.
Qed.

End LanguagePatterns.

(** ** Escaped terms as patterns *)

Section EscapedTerms.
Variable h : Host.

Lemma rmatch_then (icase : bool) (t a : regex) (x : mstate)
  (k : mstate -> option mstate) :
  rmatch h icase (then_regex t a) x k = rmatch h icase t x (fun y => rmatch h icase a y k).
Proof. destruct a; reflexivity. Qed.

(** The matcher on a sequence of literal characters. *)
Lemma rmatch_literal (icase : bool) (t : jsstring) (a : regex) :
  forall x k,
  rmatch h icase (literal t a) x k
  = match match_literal h icase t x with
    | Some y => rmatch h icase a y k
    | None => None
    end.
Proof.
  induction t as [|c t IH]; intros x k; [reflexivity|].
  cbn [literal fold_right]. rewrite rmatch_then. cbn [rmatch match_literal].
  destruct (advance x) as [[c' y]|]; [|reflexivity].
  destruct (char_eqb h icase c c'); [|reflexivity].
  apply IH.
Qed.

Lemma match_literal_prefix (t : jsstring) :
  forall prev rest pos caps,
  match match_literal h false t (MS prev rest pos caps) with
  | Some _ => true
  | None => false
  end = starts_with t rest.
Proof.
  induction t as [|c t IH]; intros prev rest pos caps; [reflexivity|].
  cbn [match_literal starts_with]. unfold advance. cbn [ms_rest ms_pos ms_caps].
  destruct rest as [|c' rest]; [reflexivity|].
  unfold char_eqb. destruct (c =? c')%N; [|reflexivity].
  cbn [andb]. apply IH.
Qed.

Lemma search_literal (t : jsstring) (global : bool) (rest : jsstring) :
  forall prev pos,
  match search h {| re_ast := literal t REmpty; re_groups := 0;
                    re_global := global; re_icase := false |} prev rest pos with
  | Some _ => true
  | None => false
  end = includes rest t.
Proof.
  induction rest as [|c rest IH]; intros prev pos; cbn [search includes];
    cbn [re_icase re_ast re_groups repeat];
    rewrite rmatch_literal; cbn [rmatch];
    pose proof (match_literal_prefix t prev) as Hp.
  - specialize (Hp [] pos []).
    destruct (match_literal h false t (MS prev [] pos [])); rewrite <- Hp; reflexivity.
  - specialize (Hp (c :: rest) pos []).
    destruct (match_literal h false t (MS prev (c :: rest) pos [])); rewrite <- Hp;
      [reflexivity|].
    cbn [orb]. apply IH.
Qed.

(** X16. The escaping applied to the terms puts a backslash before each of
    the characters [. * + ? ^ $ { } ( ) | [ ] \] and leaves every other
    code unit as it is; and the escaped term, taken as a pattern, matches
    the term literally: it is found in exactly the texts that contain the
    term. *)
Theorem escaped_term_matches_literally (term s : jsstring) :
  escapeRegExp h term = flat_map escape_unit term
  /\ test h (RegExp_new (escapeRegExp h term) []) s = includes s term.
Proof.
  split; [apply escapeRegExp_escapes|].
  rewrite escapeRegExp_escapes.
  assert (Hp : parse_pattern (flat_map escape_unit term) = Some (literal term REmpty, 0)).
  { apply (@parse_pattern_alt _ (List.length term + 1) (literal term REmpty) 1).
    - rewrite <- (app_nil_r (flat_map escape_unit term)) at 1.
      apply parse_alt_literal; reflexivity.
    - pose proof (escaped_length term). lia. }
  unfold RegExp_new. rewrite Hp. unfold test. apply search_literal.
Qed.

End EscapedTerms.

(** ** Where an expression matches *)

Section MatchPositions.
Variable h : Host.
Variable s : jsstring.

Lemma skipn_cons (n : nat) (c : N) (r : jsstring) :
  skipn n s = c :: r -> n < List.length s /\ skipn (S n) s = r.
Proof.
  intros H. split.
  - destruct (Nat.lt_ge_cases n (List.length s)) as [Hlt|Hge]; [exact Hlt|].
    rewrite skipn_all2 in H by exact Hge. discriminate H.
  - replace (S n) with (1 + n) by lia. rewrite <- skipn_skipn, H. reflexivity.
Qed.

Lemma advance_inside (x y : mstate) (c : N) :
  inside s x -> advance x = Some (c, y) -> inside s y /\ ms_pos y = S (ms_pos x).
Proof.
  intros [Hpos Hrest] H. unfold advance in H.
  destruct x as [prev rest pos caps]. cbn [ms_pos ms_rest ms_caps] in *.
  destruct rest as [|c' r]; [discriminate H|].
  injection H as <- <-. symmetry in Hrest. apply skipn_cons in Hrest.
  destruct Hrest as [Hlt E].
  split; [|reflexivity]. split; cbn [ms_pos ms_rest]; [lia | symmetry; exact E].
Qed.

Lemma set_cap_inside (i : nat) (v : option jsstring) (x : mstate) :
  inside s x -> inside s (set_cap i v x).
Proof. intros H. exact H. Qed.

Lemma reset_caps_inside (gs : list nat) :
  forall x, inside s x ->
  inside s (reset_caps gs x) /\ ms_pos (reset_caps gs x) = ms_pos x.
Proof.
  unfold reset_caps. induction gs as [|i gs IH]; intros x Hx; [split; [exact Hx|reflexivity]|].
  cbn [fold_left]. destruct (IH (set_cap i None x) (set_cap_inside i None Hx)) as [H1 H2].
  split; [exact H1 | exact H2].
Qed.

Lemma match_literal_inside (icase : bool) (t : jsstring) :
  forall x y, inside s x -> match_literal h icase t x = Some y ->
  inside s y /\ ms_pos x <= ms_pos y.
Proof.
  induction t as [|a t IH]; intros x y Hx H; cbn [match_literal] in H.
  - apply Some_inj in H. subst y. split; [exact Hx | apply le_n].
  - destruct (advance x) as [[c x1]|] eqn:E; [|discriminate H].
    destruct (char_eqb h icase a c); [|discriminate H].
    destruct (advance_inside Hx E) as [Hx1 Hp].
    destruct (IH x1 y Hx1 H) as [Hy Hle]. split; [exact Hy | lia].
Qed.

(** A match goes on, from a position of the text, at a later position of
    the text. *)
Lemma rmatch_inside (icase : bool) (r : regex) :
  forall x k z, inside s x -> rmatch h icase r x k = Some z ->
  exists y, inside s y /\ ms_pos x <= ms_pos y /\ k y = Some z.
Proof.
  induction r as [| |a| |neg items|a IHa b IHb|a IHa b IHb|a IHa mn mx greedy|i a IHa|i| | |neg
                  |neg a IHa];
    intros x k z Hx H; cbn [rmatch] in H.
  - exists x. split; [exact Hx|]. split; [apply le_n | exact H].
  - discriminate H.
  - destruct (advance x) as [[c y]|] eqn:E; [|discriminate H].
    destruct (char_eqb h icase a c); [|discriminate H].
    destruct (advance_inside Hx E) as [Hy Hp].
    exists y. split; [exact Hy|]. split; [lia | exact H].
  - destruct (advance x) as [[c y]|] eqn:E; [|discriminate H].
    destruct (is_line_terminator c); [discriminate H|].
    destruct (advance_inside Hx E) as [Hy Hp].
    exists y. split; [exact Hy|]. split; [lia | exact H].
  - destruct (advance x) as [[c y]|] eqn:E; [|discriminate H].
    destruct (xorb neg (class_has h icase items c)); [|discriminate H].
    destruct (advance_inside Hx E) as [Hy Hp].
    exists y. split; [exact Hy|]. split; [lia | exact H].
  - destruct (IHa _ _ _ Hx H) as (y1 & Hy1 & Hle1 & H1).
    destruct (IHb _ _ _ Hy1 H1) as (y & Hy & Hle & Hk).
    exists y. split; [exact Hy|]. split; [lia | exact Hk].
  - destruct (rmatch h icase a x k) as [z0|] eqn:E.
    + apply IHa with (k := k) (z := z); [exact Hx|]. rewrite E. exact H.
    + apply IHb with (k := k) (z := z); [exact Hx | exact H].
  - revert z H. generalize (mn + List.length (ms_rest x) + 2). intros fuel.
    revert mn mx x Hx. induction fuel as [|fuel IHf]; intros mn mx x Hx z H;
      [discriminate H|].
    destruct (reset_caps_inside (groups_in a) Hx) as [Hxr Hpr].
    assert (Hk : forall w, k x = Some w ->
                 exists y, inside s y /\ ms_pos x <= ms_pos y /\ k y = Some w).
    { intros w Hw. exists x. split; [exact Hx|]. split; [apply le_n | exact Hw]. }
    cbn beta iota zeta in H.
    destruct mx as [[|mx]|]; [apply Hk; exact H | |];
      (destruct (negb (mn =? 0));
       [|destruct greedy;
         [match type of H with
          | match ?e with _ => _ end = _ =>
            destruct e as [z0|] eqn:E; [apply Some_inj in H; subst z0|apply Hk; exact H]
          end
         |destruct (k x) as [z0|] eqn:E; [apply Hk; exact H|]]]);
      match goal with
      | E : rmatch h icase a _ _ = Some z |- _ =>
        destruct (IHa _ _ _ Hxr E) as (y1 & Hy1 & Hle1 & H1);
        cbv beta in H1;
        destruct ((mn =? 0) && (ms_pos y1 =? ms_pos x)); [discriminate H1|];
        destruct (IHf _ _ _ Hy1 _ H1) as (y & Hy & Hle & Hky);
        exists y; split; [exact Hy|]; split; [lia | exact Hky]
      end.
  - destruct (IHa _ _ _ Hx H) as (y1 & Hy1 & Hle1 & H1).
    exists (set_cap i (Some (firstn (ms_pos y1 - ms_pos x) (ms_rest x))) y1).
    split; [apply set_cap_inside; exact Hy1|]. split; [exact Hle1 | exact H1].
  - destruct (get_cap i x) as [t|].
    + destruct (match_literal h icase t x) as [y|] eqn:E; [|discriminate H].
      destruct (match_literal_inside _ _ Hx E) as [Hy Hle].
      exists y. split; [exact Hy|]. split; [exact Hle | exact H].
    + exists x. split; [exact Hx|]. split; [apply le_n | exact H].
  - destruct (ms_pos x =? 0); [|discriminate H].
    exists x. split; [exact Hx|]. split; [apply le_n | exact H].
  - destruct (ms_rest x); [|discriminate H].
    exists x. split; [exact Hx|]. split; [apply le_n | exact H].
  - destruct (xorb neg (at_word_boundary x)); [|discriminate H].
    exists x. split; [exact Hx|]. split; [apply le_n | exact H].
  - destruct (rmatch h icase a x Some) as [y|]; destruct neg; try discriminate H.
    + exists (MS (ms_prev x) (ms_rest x) (ms_pos x) (ms_caps y)).
      split; [exact Hx|]. split; [apply le_n | exact H].
    + exists x. split; [exact Hx|]. split; [apply le_n | exact H].
Qed.


(** The first match from a position of the text on. *)
Lemma search_inside (rx : RegExp) (rest : jsstring) :
  forall prev pos m,
  pos <= List.length s -> rest = skipn pos s ->
  search h rx prev rest pos = Some m ->
  pos <= m_start m /\ m_start m <= m_end m /\ m_end m <= List.length s
  /\ List.length (m_text m) = m_end m - m_start m
  /\ inside s (m_after m) /\ ms_pos (m_after m) = m_end m.
Proof.
  induction rest as [|c rest IH]; intros prev pos m Hpos Hrest H; cbn [search] in H.
  - destruct (rmatch h (re_icase rx) (re_ast rx) _ Some) as [y|] eqn:E; [|discriminate H].
    apply rmatch_inside in E; [|split; [exact Hpos | exact Hrest]].
    destruct E as (y' & Hy' & Hle & Ey). apply Some_inj in Ey. subst y'.
    apply Some_inj in H. subst m. cbn [m_start m_end m_text m_after ms_pos] in *.
    destruct Hy' as [Hy1 Hy2].
    repeat split; try lia; try assumption.
    rewrite length_firstn. cbn [List.length]. 
    assert (ms_pos y = pos); [|lia].
    assert (Hs : List.length s <= pos).
    { destruct (Nat.lt_ge_cases pos (List.length s)) as [Hlt|Hge]; [|exact Hge].
      exfalso. apply (f_equal (@List.length N)) in Hrest.
      rewrite length_skipn in Hrest. cbn [List.length] in Hrest. lia. }
    lia.
  - destruct (rmatch h (re_icase rx) (re_ast rx) _ Some) as [y|] eqn:E.
    + apply rmatch_inside in E; [|split; [exact Hpos | exact Hrest]].
      destruct E as (y' & Hy' & Hle & Ey). apply Some_inj in Ey. subst y'.
      apply Some_inj in H. subst m. cbn [m_start m_end m_text m_after ms_pos] in *.
      destruct Hy' as [Hy1 Hy2].
      repeat split; try lia; try assumption.
      rewrite length_firstn.
      apply (f_equal (@List.length N)) in Hrest. rewrite length_skipn in Hrest. lia.
    + symmetry in Hrest. apply skipn_cons in Hrest. destruct Hrest as [Hlt Hrest].
      destruct (IH (Some c) (S pos) m) as (H1 & H2); [lia | symmetry; exact Hrest | exact H|].
      split; [lia | exact H2].
Qed.

Lemma chained_from (n pos pos' : nat) (ms : list rmatch_result) :
  pos' <= pos -> chained n pos ms -> chained n pos' ms.
Proof.
  intros Hle H. destruct ms as [|m ms]; [exact I|].
  cbn [chained] in *. destruct H as (H1 & H2). split; [lia | exact H2].
Qed.

(** The successive matches follow one another in the text. *)
Lemma matches_from_chained (rx : RegExp) (fuel : nat) :
  forall prev rest pos,
  pos <= List.length s -> rest = skipn pos s ->
  chained (List.length s) pos (matches_from h rx fuel prev rest pos).
Proof.
  induction fuel as [|fuel IH]; intros prev rest pos Hpos Hrest; [exact I|].
  cbn [matches_from].
  destruct (search h rx prev rest pos) as [m|] eqn:E; [|exact I].
  destruct (search_inside rx prev Hpos Hrest E) as (H1 & H2 & H3 & H4 & [H5 H6] & H7).
  destruct (m_end m =? m_start m).
  - destruct (ms_rest (m_after m)) as [|c r] eqn:Er.
    + cbn [chained]. repeat split; assumption.
    + cbn [chained]. repeat split; try assumption.
      symmetry in H6. apply skipn_cons in H6. destruct H6 as [Hlt H6].
      apply chained_from with (pos := S (ms_pos (m_after m))); [lia|].
      apply IH; [lia | symmetry; exact H6].
  - cbn [chained]. repeat split; try assumption.
    rewrite <- H7. apply IH; [exact H5 | exact H6].
Qed.

Lemma rebuild_length (f : rmatch_result -> jsstring) (ms : list rmatch_result) :
  (forall m, In m ms -> List.length (f m) = List.length (m_text m)) ->
  forall pos, pos <= List.length s -> chained (List.length s) pos ms ->
  List.length (rebuild s pos ms f) = List.length s - pos.
Proof.
  induction ms as [|m ms IH]; intros Hf pos Hpos Hc; cbn [rebuild].
  - apply length_skipn.
  - cbn [chained] in Hc. destruct Hc as (H1 & H2 & H3 & H4 & H5).
    replace (pos <=? m_start m) with true by (symmetry; apply Nat.leb_le; exact H1).
    rewrite !length_app, IH; [|intros m' Hm'; apply Hf; right; exact Hm' | exact H3 | exact H5].
    rewrite (Hf m (or_introl eq_refl)), H4.
    unfold slice. rewrite length_firstn, length_skipn. lia.
Qed.

End MatchPositions.

Section LengthKept.
Variable h : Host.

(** A replacement by texts as long as the matches keeps the length. *)
Lemma replace_fn_length (rx : RegExp) (f : rmatch_result -> jsstring) (s : jsstring) :
  (forall m, List.length (f m) = List.length (m_text m)) ->
  List.length (replace_fn h rx f s) = List.length s.
Proof.
  intros Hf. unfold replace_fn. destruct (re_global rx).
  - rewrite rebuild_length; [lia | intros m _; apply Hf | lia|].
    apply matches_from_chained; [lia | reflexivity].
  - destruct (search h rx None s 0) as [m|] eqn:E; [|reflexivity].
    rewrite rebuild_length; [lia | intros m' _; apply Hf | lia|].
    destruct (@search_inside h s rx s None 0 m (Nat.le_0_l _) eq_refl E)
      as (H1 & H2 & H3 & H4 & _).
    cbn [chained]. repeat split; assumption.
Qed.

Lemma replace_units_length (p : N -> bool) (groups : nat) (f : rmatch_result -> jsstring)
  (s : jsstring) :
  (forall pos c rest, List.length (f (unit_match groups pos c rest)) = 1) ->
  forall pos, List.length (replace_units p groups f pos s) = List.length s.
Proof.
  intros Hf. induction s as [|c r IH]; intros pos; cbn [replace_units]; [reflexivity|].
  rewrite length_app, IH. destruct (p c); [rewrite Hf|]; reflexivity.
Qed.

Lemma substitution_class_parsed :
  re "[0-9!&@#$?+*_%|]" "gi"
  = {| re_ast := RClass false
                   (CI_range 48 57 :: map CI_char (js "!&@#$?+*_%|"));
       re_groups := 0; re_global := true; re_icase := true |}.
Proof. vm_compute. reflexivity. Qed.

Lemma substitution_letter (key letter : jsstring) :
  lookup_map substitutionMap key = Some letter -> List.length letter = 1.
Proof.
  unfold substitutionMap. cbn [lookup_map].
  repeat (destruct (str_eqb _ key); [intros H; apply Some_inj in H; subst letter; reflexivity|]).
  discriminate.
Qed.

(** X24. [convertCommentFixed] keeps the length of the text, whatever the
    number of trailing characters to skip: each word is replaced by a
    text of the same length, in which the converted characters are
    replaced one for one. *)
Theorem convertCommentFixed_length (comment : jsstring) (ignoreLastDigits : option nat) :
  List.length (convertCommentFixed h comment ignoreLastDigits) = List.length comment.
Proof.
  unfold convertCommentFixed. apply replace_fn_length. intros m. cbv zeta.
  destruct (List.length (m_text m) <=? _) eqn:E; [reflexivity|].
  apply Nat.leb_gt in E.
  rewrite length_app, substitution_class_parsed, class_replace_fn, replace_units_length.
  - unfold slice. rewrite length_firstn, !length_skipn. cbn [skipn]. lia.
  - intros pos c rest. cbn [unit_match m_text].
    destruct (lookup_map substitutionMap _) as [letter|] eqn:El; [|reflexivity].
    apply substitution_letter in El. exact El.
Qed.

End LengthKept.

(** ** The keywords of the languages *)

Section LanguageKeywordsTable.

Lemma combined_keywords (table : list (string * LanguageKeywords)) :
  forall combined,
  let result :=
    fold_left (fun combined '(_, langPatterns) =>
                 {| lk_supportKeywords :=
                      lk_supportKeywords combined ++ lk_supportKeywords langPatterns;
                    lk_domains := lk_domains combined ++ lk_domains langPatterns |})
              table combined in
  (forall k, In k (lk_supportKeywords result)
             <-> In k (lk_supportKeywords combined)
                 \/ exists e, In e table /\ In k (lk_supportKeywords (snd e)))
  /\ (forall d, In d (lk_domains result)
                <-> In d (lk_domains combined)
                    \/ exists e, In e table /\ In d (lk_domains (snd e))).
Proof.
  induction table as [|[name entry] table IH]; intros combined; cbn [fold_left].
  - split; intros k; (split; [intros H; left; exact H | intros [H|(e & [] & _)]; exact H]).
  - destruct (IH {| lk_supportKeywords :=
                      lk_supportKeywords combined ++ lk_supportKeywords entry;
                    lk_domains := lk_domains combined ++ lk_domains entry |}) as [Hk Hd].
    cbv zeta in *. cbn [lk_supportKeywords lk_domains] in *.
    split; intros k; [rewrite Hk | rewrite Hd]; rewrite in_app_iff; cbn [In]; split.
    + intros [[H|H]|(e & He & H)];
        [left; exact H | right; exists (name, entry); split; [left; reflexivity | exact H]
        | right; exists e; split; [right; exact He | exact H]].
    + intros [H|(e & [<-|He] & H)];
        [left; left; exact H | left; right; exact H | right; exists e; split; assumption].
    + intros [[H|H]|(e & He & H)];
        [left; exact H | right; exists (name, entry); split; [left; reflexivity | exact H]
        | right; exists e; split; [right; exact He | exact H]].
    + intros [H|(e & [<-|He] & H)];
        [left; left; exact H | left; right; exact H | right; exists e; split; assumption].
Qed.

(** X25. [getLanguagePatterns] never returns [undefined].  For "all" (the
    default) it returns the supporting keywords and the domains of all
    languages, each list without duplicates; for a language of its table
    it returns the entry of the language; for any other name it falls back
    to the English entry, unless the name is a property every object
    inherits ("constructor", "toString", ...), which is then returned in
    place of keywords. *)
Theorem getLanguagePatterns_cases (language : option jsstring) :
  getLanguagePatterns language <> NoProperty
  /\ (language = None \/ language = Some (js "all") ->
      exists keywords domains,
        getLanguagePatterns language
        = OwnEntry {| lk_supportKeywords := keywords; lk_domains := domains |}
        /\ NoDup keywords /\ NoDup domains
        /\ (forall k, In k keywords
                      <-> exists e, In e keywordPatterns /\ In k (lk_supportKeywords (snd e)))
        /\ (forall d, In d domains
                      <-> exists e, In e keywordPatterns /\ In d (lk_domains (snd e))))
  /\ (forall l, language = Some l -> str_eqb l (js "all") = false ->
      match lookup_keywords l keywordPatterns with
      | Some entry => getLanguagePatterns language = OwnEntry entry
      | None =>
        if mem_str l inherited_properties
        then getLanguagePatterns language = InheritedProperty l
        else getLanguagePatterns language = pattern_property (js "en")
      end).
Proof.
  assert (Hall : exists keywords domains,
            getLanguagePatterns None
            = OwnEntry {| lk_supportKeywords := keywords; lk_domains := domains |}
            /\ NoDup keywords /\ NoDup domains
            /\ (forall k, In k keywords
                          <-> exists e, In e keywordPatterns
                                        /\ In k (lk_supportKeywords (snd e)))
            /\ (forall d, In d domains
                          <-> exists e, In e keywordPatterns /\ In d (lk_domains (snd e)))).
  { unfold getLanguagePatterns. change (str_eqb (js "all") (js "all")) with true.
    cbv iota zeta.
    destruct (combined_keywords keywordPatterns
                {| lk_supportKeywords := []; lk_domains := [] |}) as [Hk Hd].
    cbv zeta in Hk, Hd. cbn [lk_supportKeywords lk_domains In] in Hk, Hd.
    eexists. eexists. split; [reflexivity|].
    split; [apply dedupe_NoDup|]. split; [apply dedupe_NoDup|].
    split; intros k; rewrite dedupe_In; [rewrite Hk | rewrite Hd]; tauto. }
  assert (Hen : pattern_property (js "en") <> NoProperty) by (vm_compute; discriminate).
  split; [|split].
  - destruct language as [l|]; [|destruct Hall as (k & d & -> & _); discriminate].
    unfold getLanguagePatterns.
    destruct (str_eqb l (js "all")); [discriminate|].
    destruct (pattern_property l); [discriminate | discriminate | exact Hen].
  - intros [->| ->]; exact Hall.
  - intros l -> Hl. unfold getLanguagePatterns. rewrite Hl.
    assert (E : pattern_property l
                = match lookup_keywords l keywordPatterns with
                  | Some entry => OwnEntry entry
                  | None => if mem_str l inherited_properties then InheritedProperty l
                            else NoProperty
                  end) by reflexivity.
    rewrite E.
    destruct (lookup_keywords l keywordPatterns); [reflexivity|].
    destruct (mem_str l inherited_properties); reflexivity.
Qed.

End LanguageKeywordsTable.

(** ** Instances *)

(** [verdict_matches_confidence] on "slot gacor". *)
Lemma verdict_matches_confidence_witness :
  exists r,
    detect ascii_host (VStr (js "slot gacor")) (no_options ExactArith) = Return r
    /\ (isGambling r = true <-> confidence r <> ConfNone)
    /\ (confidence r = ConfNone ->
        details r = js "No gambling content detected"
        \/ details r = js "Text too short for analysis").
Proof.
  let v := eval vm_compute in
             (detect ascii_host (VStr (js "slot gacor")) (no_options ExactArith)) in
  lazymatch v with
  | Return ?r =>
    exists r;
    assert (E : detect ascii_host (VStr (js "slot gacor")) (no_options ExactArith)
                = Return r) by (vm_compute; reflexivity);
    split; [exact E|];
    exact (@verdict_matches_confidence ascii_host ExactArith (VStr (js "slot gacor"))
             (no_options ExactArith) r E)
  end.
Defined.

(** [analysis_only_on_request] on "slot gacor" with [includeAnalysis]. *)
Lemma analysis_only_on_request_witness :
  exists r,
    detect ascii_host (VStr (js "slot gacor")) (with_analysis ExactArith true) = Return r
    /\ (analysis r <> None
        <-> too_short (VStr (js "slot gacor")) = false
            /\ or_default (includeAnalysis (with_analysis ExactArith true)) false = true)
    /\ (forall o, analysis r = Some o ->
          exists terms matches metrics,
            get_prop "matchedTerms" o = Some (AStrings ExactArith terms)
            /\ get_prop "allMatches" o = Some (AStrings ExactArith matches)
            /\ get_prop "contentMetrics" o = Some (AMetrics metrics)).
Proof.
  let v := eval vm_compute in
             (detect ascii_host (VStr (js "slot gacor")) (with_analysis ExactArith true)) in
  lazymatch v with
  | Return ?r =>
    exists r;
    assert (E : detect ascii_host (VStr (js "slot gacor")) (with_analysis ExactArith true)
                = Return r) by (vm_compute; reflexivity);
    split; [exact E|];
    exact (@analysis_only_on_request ascii_host ExactArith (VStr (js "slot gacor"))
             (with_analysis ExactArith true) r E)
  end.
Defined.

(** [checkpoint_two_decimals] on "slot gacor" at level 1. *)
Lemma checkpoint_two_decimals_witness :
  exists r,
    detect ascii_host (VStr (js "slot gacor")) (at_level ExactArith 1) = Return r
    /\ (0 <= checkpoint r)%Q
    /\ exists n : Z, (checkpoint r == inject_Z n / 100)%Q.
Proof.
  let v := eval vm_compute in
             (detect ascii_host (VStr (js "slot gacor")) (at_level ExactArith 1)) in
  lazymatch v with
  | Return ?r =>
    exists r;
    assert (E : detect ascii_host (VStr (js "slot gacor")) (at_level ExactArith 1)
                = Return r) by (vm_compute; reflexivity);
    split; [exact E|];
    exact (@checkpoint_two_decimals ascii_host (VStr (js "slot gacor"))
             (at_level ExactArith 1) r E)
  end.
Defined.

(** [confidence_by_thresholds] on "slot gacor". *)
Lemma confidence_by_thresholds_witness :
  too_short (VStr (js "slot gacor")) = false
  /\ exists sc r,
       score_text ascii_host (js "slot gacor") (no_options ExactArith) = Return sc
       /\ detect ascii_host (VStr (js "slot gacor")) (no_options ExactArith) = Return r
       /\ let c := finalCheckpoint ascii_host (no_options ExactArith) sc in
          let t := confidenceThresholds ExactArith
                     (or_default (sensitivityLevel (no_options ExactArith))
                                 (of_Q ExactArith 3)) in
          checkpoint r = toFixed ExactArith 2 c
          /\ (confidence r = ConfHigh <-> (high t <= c)%Q)
          /\ (confidence r = ConfMedium
              <-> (medium t <= c)%Q /\ (c < high t)%Q
                  \/ (c < low t)%Q /\ sc_detected sc = false /\ sc_hasGarbage sc = true)
          /\ (confidence r = ConfLow <-> (low t <= c)%Q /\ (c < medium t)%Q)
          /\ (confidence r = ConfNone
              <-> (c < low t)%Q /\ (sc_detected sc = true \/ sc_hasGarbage sc = false)).
Proof.
  split; [reflexivity|].
  let v := eval vm_compute in
             (score_text ascii_host (js "slot gacor") (no_options ExactArith)) in
  lazymatch v with
  | Return ?sc =>
    exists sc;
    assert (E : score_text ascii_host (js "slot gacor") (no_options ExactArith)
                = Return sc) by (vm_compute; reflexivity);
    destruct (proj2 (@confidence_by_thresholds ascii_host (js "slot gacor") eq_refl)
                    (no_options ExactArith) sc E) as (r & Hr & H);
    exists r; split; [exact E|]; split; [exact Hr | exact H]
  end.
Defined.

(** [detect_throws_on_inherited_language] on "slot gacor" with the
    language "constructor". *)
Lemma detect_throws_on_inherited_language_witness :
  detect ascii_host (VStr (js "slot gacor"))
         {| supportKeywords := None; domains := None; keywords := None;
            allowlist := None; sensitivityLevel := @None (num ExactArith);
            includeAnalysis := None; detectRepetition := None;
            detectUrlPatterns := None; detectEvasionTechniques := None;
            detectContextualIndicators := None; extractContactInfo := None;
            language := Some (js "constructor"); debug := None |}
  = Throw (TypeError (js "patterns[lang].forEach is not a function")).
Proof.
  apply (@detect_throws_on_inherited_language ascii_host ExactArith
           (VStr (js "slot gacor")) _ (js "constructor")).
  - reflexivity.
  - reflexivity.
  - reflexivity.
Defined.

(** [matched_terms_are_lowercased_matches] on "Slot gacor" with
    [includeAnalysis]. *)
Lemma matched_terms_are_lowercased_matches_witness :
  exists r o terms matches,
    detect ascii_host (VStr (js "Slot gacor")) (with_analysis ExactArith true) = Return r
    /\ analysis r = Some o
    /\ get_prop "matchedTerms" o = Some (AStrings ExactArith terms)
    /\ get_prop "allMatches" o = Some (AStrings ExactArith matches)
    /\ NoDup terms /\ NoDup matches
    /\ forall t, In t terms <-> exists m, In m matches /\ t = toLowerCase ascii_host m.
Proof.
  let v := eval vm_compute in
             (detect ascii_host (VStr (js "Slot gacor")) (with_analysis ExactArith true)) in
  lazymatch v with
  | Return ?r =>
    let a := eval vm_compute in (analysis r) in
    lazymatch a with
    | Some ?o =>
      let t := eval vm_compute in (get_prop "matchedTerms" o) in
      let m := eval vm_compute in (get_prop "allMatches" o) in
      lazymatch t with
      | Some (AStrings _ ?terms) =>
        lazymatch m with
        | Some (AStrings _ ?matches) =>
          exists r, o, terms, matches;
          assert (E : detect ascii_host (VStr (js "Slot gacor"))
                             (with_analysis ExactArith true) = Return r)
            by (vm_compute; reflexivity);
          assert (Ho : analysis r = Some o) by reflexivity;
          assert (Ht : get_prop "matchedTerms" o = Some (AStrings ExactArith terms))
            by reflexivity;
          assert (Hm : get_prop "allMatches" o = Some (AStrings ExactArith matches))
            by reflexivity;
          split; [exact E|]; split; [exact Ho|]; split; [exact Ht|]; split; [exact Hm|];
          exact (@matched_terms_are_lowercased_matches ascii_host ExactArith
                   (VStr (js "Slot gacor")) (with_analysis ExactArith true)
                   r o terms matches E Ho Ht Hm)
        end
      end
    end
  end.
Defined.

(** [fuzzySearch_finds_equal_items]: "Slot" is found for the query
    "slot online". *)
Lemma fuzzySearch_finds_equal_items_witness :
  In (Build_FuzzyMatch ExactArith (js "slot") (js "Slot") 1%Q)
     (fuzzySearch ascii_host ExactArith [js "Casino"; js "Slot"] (js "slot online")
                  None None).
Proof.
  apply (@fuzzySearch_finds_equal_items ascii_host [js "Casino"; js "Slot"]
           (js "slot online") (js "Slot") None None).
  - right. left. reflexivity.
  - vm_compute. left. reflexivity.
  - vm_compute. discriminate.
  - vm_compute. discriminate.
Defined.

(** [cleanText_ascii] on "slot gacor". *)
Lemma cleanText_ascii_witness :
  cleanText ascii_host (js "slot gacor") = js "slot gacor".
Proof. apply cleanText_ascii. reflexivity. Defined.

(** [comment_after_fuzzy_replacement] on "slots today": the comment is
    "slot today". *)
Lemma comment_after_fuzzy_replacement_witness :
  exists r,
    detect ascii_host (VStr (js "slots today")) (no_options ExactArith) = Return r
    /\ comment r = VStr (js "slot today").
Proof.
  let v := eval vm_compute in
             (detect ascii_host (VStr (js "slots today")) (no_options ExactArith)) in
  lazymatch v with
  | Return ?r =>
    exists r;
    assert (E : detect ascii_host (VStr (js "slots today")) (no_options ExactArith)
                = Return r) by (vm_compute; reflexivity);
    split; [exact E|];
    destruct (@comment_after_fuzzy_replacement ascii_host ExactArith
                (VStr (js "slots today")) (no_options ExactArith) r E) as [_ H];
    rewrite (H (js "slots today") eq_refl eq_refl); vm_compute; reflexivity
  end.
Defined.
